(** * The crawl controller of webcrawlersentiment: a shallow embedding

    This development embeds [crawler.py] (class [WebCrawler]), the link
    extraction of [text_extractor.py] and the seed check of [app.py], together
    with the part of Python's [urllib.parse] they call ([urlsplit], [urlparse],
    [urlunsplit], [urlunparse], [urljoin], as in CPython 3.11).
    It also embeds the cleaning of text in [text_extractor.py] and
    [sentiment_analyzer.py], with the part of [re] that it uses, and the row
    that [app.py] makes of a page.

    A Python [str] is a [string]: a sequence of characters whose code points are
    below 256.  A call that can raise returns an [option]; [None] stands for the
    exception ([ValueError] in all cases met here).  The network and the HTML
    parser are an oracle that is threaded through the crawl as explicit state. *)

From Stdlib Require Import ZArith NArith Bool Lia.
From Stdlib Require Import Ascii.
From Stdlib Require String.
From stdpp Require Import gmap strings list.

Local Open Scope Z_scope.

(** ** Characters *)

Definition ord (c : ascii) : N := Stdlib.Strings.Ascii.N_of_ascii c.

Definition chr_eqb (a b : ascii) : bool := Stdlib.Strings.Ascii.eqb a b.

(** [c.isascii() and c.isalpha()] *)
Definition is_ascii_alpha (c : ascii) : bool :=
  ((65 <=? ord c) && (ord c <=? 90) || (97 <=? ord c) && (ord c <=? 122))%N.

Definition is_digit (c : ascii) : bool := ((48 <=? ord c) && (ord c <=? 57))%N.

(** [c in scheme_chars]: letters, digits and [+-.] *)
Definition in_scheme_chars (c : ascii) : bool :=
  is_ascii_alpha c || is_digit c
  || chr_eqb c "+" || chr_eqb c "-" || chr_eqb c ".".

(** [c in _WHATWG_C0_CONTROL_OR_SPACE]: the code points 0 to 0x20 *)
Definition is_c0_or_space (c : ascii) : bool := (ord c <=? 32)%N.

Definition TAB : ascii := Stdlib.Strings.Ascii.ascii_of_N 9.
Definition LF : ascii := Stdlib.Strings.Ascii.ascii_of_N 10.
Definition CR : ascii := Stdlib.Strings.Ascii.ascii_of_N 13.

(** [c.isspace()] for a code point below 256 *)
Definition is_space (c : ascii) : bool :=
  ((9 <=? ord c) && (ord c <=? 13) || (28 <=? ord c) && (ord c <=? 32)
   || (ord c =? 133) || (ord c =? 160))%N.

(** [c.lower()] for a code point below 256: A-Z, and the Latin-1 capitals
    U+00C0 to U+00DE except the multiplication sign U+00D7 *)
Definition chr_lower (c : ascii) : ascii :=
  if ((65 <=? ord c) && (ord c <=? 90)
      || (192 <=? ord c) && (ord c <=? 222) && negb (ord c =? 215))%N
  then Stdlib.Strings.Ascii.ascii_of_N (ord c + 32) else c.

(** ** Strings *)

Definition str_len (s : string) : nat := String.length s.

(** [bool(s)]: a non-empty string is truthy *)
Definition truthy (s : string) : bool :=
  match s with EmptyString => false | String _ _ => true end.

Definition str_eqb (a b : string) : bool := String.eqb a b.

(** [s in l] for a list of strings *)
Definition str_in (s : string) (l : list string) : bool := existsb (str_eqb s) l.

(** [c in s] *)
Fixpoint str_contains (c : ascii) (s : string) : bool :=
  match s with
  | EmptyString => false
  | String a s' => chr_eqb a c || str_contains c s'
  end.

(** [s.find(c)]; [None] is Python's -1 *)
Fixpoint str_find (c : ascii) (s : string) : option nat :=
  match s with
  | EmptyString => None
  | String a s' => if chr_eqb a c then Some O else S <$> str_find c s'
  end.

(** [s.find(c, start)] *)
Fixpoint str_find_from (c : ascii) (start : nat) (s : string) : option nat :=
  match start, s with
  | O, _ => str_find c s
  | S k, String _ s' => S <$> str_find_from c k s'
  | S _, EmptyString => None
  end.

(** [s.rfind(c)] *)
Fixpoint str_rfind (c : ascii) (s : string) : option nat :=
  match s with
  | EmptyString => None
  | String a s' =>
      match str_rfind c s' with
      | Some i => Some (S i)
      | None => if chr_eqb a c then Some O else None
      end
  end.

(** [s[:n]] *)
Fixpoint str_take (n : nat) (s : string) : string :=
  match n, s with
  | S k, String a s' => String a (str_take k s')
  | _, _ => EmptyString
  end.

(** [s[n:]] *)
Fixpoint str_drop (n : nat) (s : string) : string :=
  match n, s with
  | S k, String _ s' => str_drop k s'
  | _, _ => s
  end.

(** [s[i:j]] for [i <= j] *)
Definition str_slice (i j : nat) (s : string) : string :=
  str_take (j - i) (str_drop i s).

(** [s.replace(c, "")] *)
Fixpoint str_remove (c : ascii) (s : string) : string :=
  match s with
  | EmptyString => EmptyString
  | String a s' => if chr_eqb a c then str_remove c s' else String a (str_remove c s')
  end.

(** [s.lower()] *)
Fixpoint str_lower (s : string) : string :=
  match s with
  | EmptyString => EmptyString
  | String a s' => String (chr_lower a) (str_lower s')
  end.

(** [all(p(c) for c in s)] *)
Fixpoint str_forall (p : ascii -> bool) (s : string) : bool :=
  match s with
  | EmptyString => true
  | String a s' => p a && str_forall p s'
  end.

(** [s.startswith(p)] *)
Fixpoint str_startswith (p s : string) : bool :=
  match p, s with
  | EmptyString, _ => true
  | String a p', String b s' => chr_eqb a b && str_startswith p' s'
  | String _ _, EmptyString => false
  end.

(** [s.endswith(p)] *)
Definition str_endswith (p s : string) : bool :=
  (str_len p <=? str_len s)%nat && str_eqb (str_drop (str_len s - str_len p) s) p.

(** [s.lstrip(chars)] for a set of characters given by its membership test *)
Fixpoint str_lstrip (p : ascii -> bool) (s : string) : string :=
  match s with
  | EmptyString => EmptyString
  | String a s' => if p a then str_lstrip p s' else s
  end.

(** [s.rstrip(chars)] *)
Fixpoint str_rstrip (p : ascii -> bool) (s : string) : string :=
  match s with
  | EmptyString => EmptyString
  | String a s' =>
      match str_rstrip p s' with
      | EmptyString => if p a then EmptyString else String a EmptyString
      | r => String a r
      end
  end.

(** [s.strip(chars)] *)
Definition str_strip (p : ascii -> bool) (s : string) : string :=
  str_rstrip p (str_lstrip p s).

(** [s.split(c)]: never the empty list *)
Fixpoint str_split (c : ascii) (s : string) : list string :=
  match s with
  | EmptyString => [EmptyString]
  | String a s' =>
      if chr_eqb a c then EmptyString :: str_split c s'
      else match str_split c s' with
           | h :: t => String a h :: t
           | [] => [String a EmptyString]
           end
  end.

(** [sep.join(l)] *)
Fixpoint str_join (sep : string) (l : list string) : string :=
  match l with
  | [] => EmptyString
  | [x] => x
  | x :: rest => x +:+ sep +:+ str_join sep rest
  end.

(** [s.partition(c)]: the text before the first [c], whether [c] was found,
    and the text after it *)
Definition str_partition (c : ascii) (s : string) : string * bool * string :=
  match str_find c s with
  | Some i => (str_take i s, true, str_drop (S i) s)
  | None => (s, false, EmptyString)
  end.

(** [s.rpartition(c)[2]]: the text after the last [c] *)
Definition str_rpartition_tail (c : ascii) (s : string) : string :=
  match str_rfind c s with
  | Some i => str_drop (S i) s
  | None => s
  end.

(** ** urllib.parse *)

Module Urllib.

Definition uses_relative : list string :=
  [""; "ftp"; "http"; "gopher"; "nntp"; "imap"; "wais"; "file"; "https";
   "shttp"; "mms"; "prospero"; "rtsp"; "rtspu"; "sftp"; "svn"; "svn+ssh";
   "ws"; "wss"].

Definition uses_netloc : list string :=
  [""; "ftp"; "http"; "gopher"; "nntp"; "telnet"; "imap"; "wais"; "file";
   "mms"; "https"; "shttp"; "snews"; "prospero"; "rtsp"; "rtspu"; "rsync";
   "svn"; "svn+ssh"; "sftp"; "nfs"; "git"; "git+ssh"; "ws"; "wss"].

Definition uses_params : list string :=
  [""; "ftp"; "hdl"; "prospero"; "http"; "imap"; "https"; "shttp"; "rtsp";
   "rtspu"; "sip"; "sips"; "mms"; "sftp"; "tel"].

(** The five fields of [SplitResult] *)
Record SplitResult : Type := mkSplit {
  s_scheme : string; s_netloc : string; s_url : string;
  s_query : string; s_fragment : string }.

(** The six fields of [ParseResult] *)
Record ParseResult : Type := mkParse {
  scheme : string; netloc : string; path : string;
  params : string; query : string; fragment : string }.

(** [_splitparams] *)
Definition _splitparams (url : string) : string * string :=
  if str_contains "/" url then
    match str_find_from ";" (default O (str_rfind "/" url)) url with
    | None => (url, EmptyString)
    | Some i => (str_take i url, str_drop (S i) url)
    end
  else
    match str_find ";" url with
    | Some i => (str_take i url, str_drop (S i) url)
    | None => (str_take (str_len url - 1) url, url)   (* i = -1: url[:-1], url[0:] *)
    end.

(** [_splitnetloc]: the earliest of the delimiters [/?#] at or after [start] *)
Definition _splitnetloc (url : string) (start : nat) : string * string :=
  let delim :=
    fold_left (fun delim c =>
                 match str_find_from c start url with
                 | Some wdelim => Nat.min delim wdelim
                 | None => delim
                 end)
              ["/"%char; "?"%char; "#"%char] (str_len url) in
  (str_slice start delim url, str_drop delim url).

(** [_checknetloc] raises only when the NFKC form of a non-ASCII netloc holds
    one of [/?#@:].  No code point below 256 has such an NFKC form, so on the
    strings of this model the check always passes. *)
Definition _checknetloc (netloc : string) : bool := true.

(** [urlunsplit] *)
Definition urlunsplit (scheme netloc url query fragment : string) : string :=
  let url :=
    if truthy netloc
       || (truthy scheme && str_in scheme uses_netloc
           && negb (str_eqb (str_take 2 url) "//"))
    then
      let url :=
        if truthy url && negb (str_eqb (str_take 1 url) "/") then "/" +:+ url else url in
      "//" +:+ netloc +:+ url
    else url in
  let url := if truthy scheme then scheme +:+ ":" +:+ url else url in
  let url := if truthy query then url +:+ "?" +:+ query else url in
  let url := if truthy fragment then url +:+ "#" +:+ fragment else url in
  url.

(** [urlunparse] *)
Definition urlunparse (scheme netloc url params query fragment : string) : string :=
  let url := if truthy params then url +:+ ";" +:+ params else url in
  urlunsplit scheme netloc url query fragment.

Section Parse.

(** [_check_bracketed_host]: whether the text between the brackets of a netloc
    is accepted (an IPv6 or IPvFuture literal).  It is decided by the
    [ipaddress] and [re] modules and is left open here; interpreters before
    3.11.4 have no such check, which is the instance that accepts everything. *)
Variable _check_bracketed_host : string -> bool.

(** [_check_bracketed_netloc] *)
Definition _check_bracketed_netloc (netloc : string) : bool :=
  let hostname_and_port := str_rpartition_tail "@" netloc in
  let '(before_bracket, have_open_br, bracketed) := str_partition "[" hostname_and_port in
  if have_open_br then
    if truthy before_bracket then false
    else
      let '(hostname, _, port) := str_partition "]" bracketed in
      if truthy port && negb (str_startswith ":" port) then false
      else _check_bracketed_host hostname
  else
    let '(hostname, _, port) := str_partition ":" hostname_and_port in
    _check_bracketed_host hostname.

(** The bracket checks that [urlsplit] makes on a netloc; [false] is
    [ValueError]. *)
Definition netloc_brackets_ok (netloc : string) : bool :=
  let lb := str_contains "[" netloc in
  let rb := str_contains "]" netloc in
  if (lb && negb rb) || (rb && negb lb) then false
  else if lb && rb then _check_bracketed_netloc netloc
  else true.

(** Removal of the [_UNSAFE_URL_BYTES_TO_REMOVE] *)
Definition remove_unsafe (s : string) : string :=
  str_remove LF (str_remove CR (str_remove TAB s)).

(** [urlsplit(url, scheme)] with [allow_fragments=True] *)
Definition urlsplit (url scheme : string) : option SplitResult :=
  let url := str_lstrip is_c0_or_space url in
  let scheme := str_strip is_c0_or_space scheme in
  let url := remove_unsafe url in
  let scheme := remove_unsafe scheme in
  let '(scheme, url) :=
    match str_find ":" url, url with
    | Some (S i'), String c0 _ =>
        if is_ascii_alpha c0 && str_forall in_scheme_chars (str_take (S i') url)
        then (str_lower (str_take (S i') url), str_drop (S (S i')) url)
        else (scheme, url)
    | _, _ => (scheme, url)
    end in
  '(netloc, url) ←
    (if str_eqb (str_take 2 url) "//" then
       let '(netloc, url) := _splitnetloc url 2 in
       if netloc_brackets_ok netloc then Some (netloc, url) else None
     else Some (EmptyString, url));
  let '(url, fragment) :=
    match str_find "#" url with
    | Some i => (str_take i url, str_drop (S i) url)
    | None => (url, EmptyString)
    end in
  let '(url, query) :=
    match str_find "?" url with
    | Some i => (str_take i url, str_drop (S i) url)
    | None => (url, EmptyString)
    end in
  if _checknetloc netloc then Some (mkSplit scheme netloc url query fragment)
  else None.

(** [urlparse(url, scheme)] *)
Definition urlparse (url scheme : string) : option ParseResult :=
  r ← urlsplit url scheme;
  let '(url', params) :=
    if str_in (s_scheme r) uses_params && str_contains ";" (s_url r)
    then _splitparams (s_url r)
    else (s_url r, EmptyString) in
  Some (mkParse (s_scheme r) (s_netloc r) url' params (s_query r) (s_fragment r)).

(** [segments[1:-1] = filter(None, segments[1:-1])]: the empty strings
    strictly between the first and the last element are removed *)
Definition filter_middle (segments : list string) : list string :=
  match segments with
  | first :: (_ :: _) as rest =>
      first :: List.filter truthy (removelast rest) ++ [List.last rest EmptyString]
  | _ => segments
  end.

(** The loop of [urljoin] over the segments; [resolved_path] is kept reversed,
    so that [pop] takes its head and popping the empty list does nothing. *)
Fixpoint resolve_segments (segments : list string) (rev_resolved : list string)
  : list string :=
  match segments with
  | [] => rev rev_resolved
  | seg :: rest =>
      if str_eqb seg ".." then resolve_segments rest (tail rev_resolved)
      else if str_eqb seg "." then resolve_segments rest rev_resolved
      else resolve_segments rest (seg :: rev_resolved)
  end.

(** [urljoin(base, url)] *)
Definition urljoin (base url : string) : option string :=
  if negb (truthy base) then Some url
  else if negb (truthy url) then Some base
  else
    b ← urlparse base EmptyString;
    u ← urlparse url (scheme b);
    if negb (str_eqb (scheme u) (scheme b)) || negb (str_in (scheme u) uses_relative)
    then Some url
    else if str_in (scheme u) uses_netloc && truthy (netloc u)
    then Some (urlunparse (scheme u) (netloc u) (path u) (params u) (query u) (fragment u))
    else
      let netloc' := if str_in (scheme u) uses_netloc then netloc b else netloc u in
      if negb (truthy (path u)) && negb (truthy (params u))
      then
        let query' := if negb (truthy (query u)) then query b else query u in
        Some (urlunparse (scheme u) netloc' (path b) (params b) query' (fragment u))
      else
        let base_parts := str_split "/" (path b) in
        let base_parts :=
          if negb (str_eqb (List.last base_parts EmptyString) EmptyString)
          then removelast base_parts else base_parts in
        let segments :=
          if str_eqb (str_take 1 (path u)) "/" then str_split "/" (path u)
          else filter_middle (base_parts ++ str_split "/" (path u)) in
        let resolved_path := resolve_segments segments [] in
        let resolved_path :=
          if str_in (List.last segments EmptyString) ["."; ".."]
          then resolved_path ++ [EmptyString] else resolved_path in
        let joined := str_join "/" resolved_path in
        Some (urlunparse (scheme u) netloc'
                (if truthy joined then joined else "/")
                (params u) (query u) (fragment u)).

End Parse.

End Urllib.

(** ** text_extractor.py: the links of a page *)

Module TextExtractor.
Import Urllib.

Section Extractor.

Variable _check_bracketed_host : string -> bool.

(** [list(set(links))]: the order in which Python iterates over a set of
    strings is not specified; it is left open, and [list_of_set_elem] is the
    one thing assumed about it (where a proof needs it). *)
Variable list_of_set : list string -> list string.

Definition skipped_prefixes : list string := ["#"; "javascript:"; "mailto:"; "tel:"].

(** The loop of [_extract_links] over the [href] values of the anchors of the
    page, in document order.  The whole loop is inside one [try]: when
    [urljoin] raises, the loop is abandoned and the links collected so far are
    kept. *)
Fixpoint collect_links (base_url : string) (hrefs : list string) (links : list string)
  : list string :=
  match hrefs with
  | [] => links
  | raw :: rest =>
      let href := str_strip is_space raw in
      if truthy href && negb (existsb (fun p => str_startswith p href) skipped_prefixes)
      then match urljoin _check_bracketed_host base_url href with
           | Some absolute_url => collect_links base_url rest (links ++ [absolute_url])
           | None => links
           end
      else collect_links base_url rest links
  end.

(** [_extract_links] *)
Definition _extract_links (hrefs : list string) (base_url : string) : list string :=
  list_of_set (collect_links base_url hrefs []).

End Extractor.
End TextExtractor.

(** ** crawler.py: class WebCrawler *)

Module Crawler.
Import Urllib.

(** The fields of a [WebCrawler] that the crawl reads and writes.  [delay],
    the HTTP session and the logger act on time, the network and the log only
    and are not fields of the model. *)
Record WebCrawler : Type := mkCrawler {
  max_depth : Z;
  max_pages : Z;
  allow_external : bool;
  visited : gset string }.

(** [WebCrawler.__init__] *)
Definition __init__ (max_depth max_pages : Z) (allow_external : bool) : WebCrawler :=
  {| max_depth := max_depth; max_pages := max_pages;
     allow_external := allow_external; visited := ∅ |}.

(** The dictionary returned by [fetch_page] *)
Record PageData : Type := mkPageData {
  pd_url : string; pd_title : string; pd_content : string; pd_links : list string }.

(** The dictionary yielded by [crawl] *)
Record PageRecord : Type := mkRecord {
  r_url : string; r_title : string; r_content : string }.

(** What the network and the HTML parser answer to one request. *)
Inductive Reply : Type :=
| RequestFailed   (** [session.get] or [raise_for_status] raised, or another
                      exception was caught by [fetch_page] *)
| NotHtml         (** the content type does not contain [text/html] *)
| Html (title content : string) (anchors : option (list string)).
                  (** [extract_content] returned this title and content;
                      [Some hrefs]: the [href] values of the anchors of the page
                      in document order; [None]: [extract_content] took its
                      fallback, which returns no links *)

Definition excluded_extensions : list string :=
  [".pdf"; ".doc"; ".docx"; ".xls"; ".xlsx"; ".ppt"; ".pptx";
   ".zip"; ".rar"; ".tar"; ".gz"; ".mp3"; ".mp4"; ".avi";
   ".jpg"; ".jpeg"; ".png"; ".gif"; ".svg"; ".ico";
   ".css"; ".js"; ".xml"; ".json"].

Section Crawl.

Variable _check_bracketed_host : string -> bool.
Variable list_of_set : list string -> list string.

(** The world outside the program: the state of the network, and what a GET
    of a URL followed by [extract_content] gives in that state. *)
Variable World : Type.
Variable session_get : World -> string -> World * Reply.

Abbreviation urlparse := (Urllib.urlparse _check_bracketed_host).
Abbreviation urljoin := (Urllib.urljoin _check_bracketed_host).

(** [WebCrawler.is_valid_url]; any exception gives [False] *)
Definition is_valid_url (self : WebCrawler) (url base_domain : string) : bool :=
  match urlparse url EmptyString with
  | None => false
  | Some parsed =>
      if negb (str_in (scheme parsed) ["http"; "https"]) then false
      else if negb (allow_external self) && negb (str_eqb (netloc parsed) base_domain)
      then false
      else if existsb (fun ext => str_endswith ext (str_lower (path parsed)))
                excluded_extensions
      then false
      else if truthy (fragment parsed) then false
      else true
  end.

(** The URL that [normalize_url] rebuilds before it looks at the trailing
    slash: all components but the fragment *)
Definition rebuild (parsed : ParseResult) : string :=
  urlunparse (scheme parsed) (netloc parsed) (path parsed) (params parsed)
    (query parsed) EmptyString.

(** [WebCrawler.normalize_url]; [None] when [urlparse] raises *)
Definition normalize_url (url : string) : option string :=
  parsed ← urlparse url EmptyString;
  let normalized := rebuild parsed in
  Some (if str_endswith "/" normalized && (1 <? str_len (path parsed))%nat
        then str_take (str_len normalized - 1) normalized
        else normalized).

(** [WebCrawler.fetch_page] *)
Definition fetch_page (w : World) (url : string) : World * option PageData :=
  let '(w', reply) := session_get w url in
  (w',
   match reply with
   | RequestFailed => None
   | NotHtml => None
   | Html title content anchors =>
       if negb (truthy (str_strip is_space content)) then None
       else Some {| pd_url := url; pd_title := title; pd_content := content;
                    pd_links :=
                      match anchors with
                      | Some hrefs =>
                          TextExtractor._extract_links _check_bracketed_host
                            list_of_set hrefs url
                      | None => []
                      end |}
   end).

(** *** The generator [crawl] as a machine *)

(** Where the generator stands. *)
Inductive Pc : Type :=
| Created (start_url : string)   (** [crawl(start_url)] was called; the body has not started *)
| LoopHead                       (** about to test the [while] condition *)
| AtYield (current_url : string) (depth : Z) (links : list string)
                                 (** suspended at [yield], the links of the page still to be queued *)
| Returned                       (** the body ended: [StopIteration] *)
| Raised.                        (** an exception left the body: [ValueError] *)

(** The crawler object, the local variables of the generator, the world, and
    two histories kept for the statements: the calls of [fetch_page] (URL and
    depth of the entry, oldest first) and the records yielded. *)
Record State : Type := mkState {
  self : WebCrawler;
  base_domain : string;
  crawl_queue : list (string * Z);
  pages_crawled : Z;
  pc : Pc;
  world : World;
  fetch_log : list (string * Z);
  yielded : list PageRecord }.

(** [crawler.crawl(start_url)]: a new generator on the crawler object [self] *)
Definition crawl (self : WebCrawler) (start_url : string) (w : World) : State :=
  {| self := self; base_domain := EmptyString; crawl_queue := [];
     pages_crawled := 0; pc := Created start_url; world := w;
     fetch_log := []; yielded := [] |}.

Definition set_pc (st : State) (p : Pc) : State :=
  {| self := self st; base_domain := base_domain st; crawl_queue := crawl_queue st;
     pages_crawled := pages_crawled st; pc := p; world := world st;
     fetch_log := fetch_log st; yielded := yielded st |}.

(** The [for link in page_data['links']] loop; [None] when [urljoin] or
    [normalize_url] raises. *)
Fixpoint enqueue_links (self : WebCrawler) (base_domain current_url : string)
    (depth : Z) (links : list string) (crawl_queue : list (string * Z))
  : option (list (string * Z)) :=
  match links with
  | [] => Some crawl_queue
  | link :: rest =>
      absolute_url ← urljoin current_url link;
      normalized_url ← normalize_url absolute_url;
      enqueue_links self base_domain current_url depth rest
        (if negb (bool_decide (normalized_url ∈ visited self))
            && is_valid_url self normalized_url base_domain
         then crawl_queue ++ [(normalized_url, depth + 1)]
         else crawl_queue)
  end.

(** One step of the body: the prologue, one pass from the [while] test to the
    next [continue] or [yield], or the rest of the loop body after a [yield]. *)
Definition step (st : State) : State :=
  match pc st with
  | Created start_url =>
      match normalize_url start_url with
      | None => set_pc st Raised
      | Some start_url =>
          match urlparse start_url EmptyString with
          | None => set_pc st Raised
          | Some parsed =>
              {| self := self st; base_domain := netloc parsed;
                 crawl_queue := [(start_url, 0)]; pages_crawled := 0;
                 pc := LoopHead; world := world st;
                 fetch_log := fetch_log st; yielded := yielded st |}
          end
      end
  | LoopHead =>
      match crawl_queue st with
      | [] => set_pc st Returned
      | (current_url, depth) :: rest =>
          if negb (pages_crawled st <? max_pages (self st)) then set_pc st Returned
          else if bool_decide (current_url ∈ visited (self st)) then
            {| self := self st; base_domain := base_domain st; crawl_queue := rest;
               pages_crawled := pages_crawled st; pc := LoopHead; world := world st;
               fetch_log := fetch_log st; yielded := yielded st |}
          else if max_depth (self st) <? depth then
            {| self := self st; base_domain := base_domain st; crawl_queue := rest;
               pages_crawled := pages_crawled st; pc := LoopHead; world := world st;
               fetch_log := fetch_log st; yielded := yielded st |}
          else
            let self' :=
              {| max_depth := max_depth (self st); max_pages := max_pages (self st);
                 allow_external := allow_external (self st);
                 visited := visited (self st) ∪ {[current_url]} |} in
            let '(w', page_data) := fetch_page (world st) current_url in
            match page_data with
            | None =>
                {| self := self'; base_domain := base_domain st; crawl_queue := rest;
                   pages_crawled := pages_crawled st; pc := LoopHead; world := w';
                   fetch_log := fetch_log st ++ [(current_url, depth)];
                   yielded := yielded st |}
            | Some page_data =>
                {| self := self'; base_domain := base_domain st; crawl_queue := rest;
                   pages_crawled := pages_crawled st + 1;
                   pc := AtYield current_url depth (pd_links page_data); world := w';
                   fetch_log := fetch_log st ++ [(current_url, depth)];
                   yielded := yielded st ++
                     [{| r_url := pd_url page_data; r_title := pd_title page_data;
                         r_content := pd_content page_data |}] |}
            end
      end
  | AtYield current_url depth links =>
      if depth <? max_depth (self st) then
        match enqueue_links (self st) (base_domain st) current_url depth links
                (crawl_queue st) with
        | None => set_pc st Raised
        | Some queue' =>
            {| self := self st; base_domain := base_domain st; crawl_queue := queue';
               pages_crawled := pages_crawled st; pc := LoopHead; world := world st;
               fetch_log := fetch_log st; yielded := yielded st |}
        end
      else set_pc st LoopHead
  | Returned => st
  | Raised => st
  end.

(** [n] steps *)
Definition steps (n : nat) (st : State) : State := Nat.iter n step st.

End Crawl.

Arguments State World : clear implicits.
Arguments mkState {World}.
Arguments self {World}.
Arguments base_domain {World}.
Arguments crawl_queue {World}.
Arguments pages_crawled {World}.
Arguments pc {World}.
Arguments world {World}.
Arguments fetch_log {World}.
Arguments yielded {World}.
Arguments crawl {World}.
Arguments set_pc {World}.
Arguments fetch_page _ _ {World}.
Arguments step _ _ {World}.
Arguments steps _ _ {World}.

End Crawler.

(** ** app.py: the handler of the start button *)

Module App.
Import Urllib Crawler.

(** What the handler shows when it stops before the crawl. *)
Inductive Message : Type :=
| EnterUrl        (** "Please enter a starting URL" *)
| InvalidUrl      (** "Please enter a valid URL (including http:// or https://)" *)
| ErrorOccurred.  (** "An error occurred during crawling" *)

Section Main.

Variable _check_bracketed_host : string -> bool.

(** The body of [if st.button(...)] in [main] up to
    [crawler = WebCrawler(...)]: the checks on the seed.  [inl m]: the handler
    showed [m] and made no crawler; after [EnterUrl] and [InvalidUrl] it
    returns, and [ErrorOccurred] is its [except] branch, taken here when
    [urlparse] raised.  [inr crawler]: the seed passed and this crawler was
    made.  What the handler does after that (the analyzer, the loop over
    [crawler.crawl(start_url)] with the row and the display of each page,
    [display_results]) runs in the same [try] and is not modelled. *)
Definition start_crawling (start_url : string) (max_depth max_pages : Z)
    (include_external : bool) : Message + WebCrawler :=
  if negb (truthy start_url) then inl EnterUrl
  else
    match urlparse _check_bracketed_host start_url EmptyString with
    | None => inl ErrorOccurred
    | Some parsed_url =>
        if negb (truthy (scheme parsed_url)) || negb (truthy (netloc parsed_url))
        then inl InvalidUrl
        else inr (__init__ max_depth max_pages include_external)
    end.

End Main.

End App.

(** * Notions used in the statements and proofs *)

Module Notions.
Import Urllib Crawler.

(** ** Strings *)

(** Splitting at the first occurrence of a character, as [urlsplit] does for
    [#] and [?] *)
Definition cut (c : ascii) (s : string) : string * string :=
  match str_find c s with
  | Some i => (str_take i s, str_drop (S i) s)
  | None => (s, EmptyString)
  end.

(** No tab, carriage return or line feed *)
Definition safe (s : string) : Prop :=
  str_contains TAB s = false /\ str_contains CR s = false /\ str_contains LF s = false.

(** The first character, if any, is not in the set [p] *)
Definition head_not (p : ascii -> bool) (s : string) : Prop :=
  match s with EmptyString => True | String a _ => p a = false end.

(** A scheme as [urlsplit] returns it when it finds one *)
Definition scheme_ok (s : string) : Prop :=
  match s with
  | EmptyString => False
  | String c _ => is_ascii_alpha c = true
  end
  /\ str_forall in_scheme_chars s = true /\ str_lower s = s.

Definition is_delim (c : ascii) : bool := chr_eqb c "/" || chr_eqb c "?" || chr_eqb c "#".

Definition no_delims (n : string) : Prop :=
  str_contains "/" n = false /\ str_contains "?" n = false /\ str_contains "#" n = false.

(** Empty, or beginning with one of [/?#] *)
Definition head_delim (t : string) : Prop :=
  match t with EmptyString => True | String a _ => is_delim a = true end.

(** Empty, or beginning with [/] *)
Definition head_slash (p : string) : Prop :=
  match p with EmptyString => True | String a _ => a = "/"%char end.

(** The position that [_splitnetloc] computes, counted from the netloc *)
Definition first_delim (rest : string) : nat :=
  fold_left (fun delim c =>
               match str_find c rest with
               | Some wdelim => Nat.min delim wdelim
               | None => delim
               end)
            ["/"%char; "?"%char; "#"%char] (str_len rest).

(** ** The stages of [urlsplit] *)

Definition clean_scheme (dflt : string) : string :=
  remove_unsafe (str_strip is_c0_or_space dflt).

Definition clean_url (url : string) : string :=
  remove_unsafe (str_lstrip is_c0_or_space url).

Definition detect_scheme (dflt url : string) : string * string :=
  match str_find ":" url, url with
  | Some (S i'), String c0 _ =>
      if is_ascii_alpha c0 && str_forall in_scheme_chars (str_take (S i') url)
      then (str_lower (str_take (S i') url), str_drop (S (S i')) url)
      else (dflt, url)
  | _, _ => (dflt, url)
  end.

Definition detect_netloc (chk : string -> bool) (url : string) : option (string * string) :=
  if str_eqb (str_take 2 url) "//" then
    let '(netloc, url) := _splitnetloc url 2 in
    if netloc_brackets_ok chk netloc then Some (netloc, url) else None
  else Some (EmptyString, url).

Definition split_tail (url : string) : string * string * string :=
  let '(url, fragment) := cut "#" url in
  let '(url, query) := cut "?" url in
  (url, query, fragment).

(** The params step of [urlparse] *)
Definition split_params (s url : string) : string * string :=
  if str_in s uses_params && str_contains ";" url then _splitparams url
  else (url, EmptyString).

(** ** The pieces that [urlunparse] puts together *)

Definition opt_scheme (s : string) : string := if truthy s then s +:+ ":" else "".
Definition opt_params (b : string) : string := if truthy b then ";" +:+ b else "".
Definition opt_query (q : string) : string := if truthy q then "?" +:+ q else "".

(** The URL made of a scheme, a netloc, a path with its params, and a query *)
Definition assemble (s n pp q : string) : string :=
  opt_scheme s +:+ "//" +:+ n +:+ pp +:+ opt_query q.

(** A netloc as [urlsplit] returns it *)
Definition netloc_ok (chk : string -> bool) (n : string) : Prop :=
  no_delims n /\ safe n /\ netloc_brackets_ok chk n = true.

(** Components that [urlsplit] can return for a URL with a netloc *)
Record wf_parts (chk : string -> bool) (s n pp q : string) : Prop := mk_wf {
  wf_scheme : s = "" \/ scheme_ok s;
  wf_netloc : netloc_ok chk n;
  wf_head : head_slash pp;
  wf_pp_q : str_contains "?" pp = false;
  wf_pp_f : str_contains "#" pp = false;
  wf_pp_safe : safe pp;
  wf_q_f : str_contains "#" q = false;
  wf_q_safe : safe q }.

(** The trailing-slash rule of [normalize_url] *)
Definition strip_rule (normalized path : string) : string :=
  if str_endswith "/" normalized && (1 <? str_len path)%nat
  then str_take (str_len normalized - 1) normalized
  else normalized.

(** ** Links *)

(** A URL that [urlparse] reads as http or https with a host: the scheme is
    one of the two and the netloc is not empty *)
Definition fetchable (chk : string -> bool) (u : string) : Prop :=
  exists p, urlparse chk u "" = Some p
            /\ str_in (scheme p) ["http"; "https"] = true /\ netloc p <> "".

(** A link that [crawl] resolves against the page and normalizes without an
    exception *)
Definition link_ok (chk : string -> bool) (cur link : string) : Prop :=
  exists a, urljoin chk cur link = Some a /\ is_Some (normalize_url chk a).

(** [u] parses and its netloc is [b] *)
Definition has_netloc (chk : string -> bool) (u b : string) : Prop :=
  exists p, urlparse chk u EmptyString = Some p /\ netloc p = b.

(** [u] parses and has the netloc of the normalized seed *)
Definition same_authority (chk : string -> bool) (seed u : string) : Prop :=
  exists s' p q, normalize_url chk seed = Some s'
                 /\ urlparse chk s' EmptyString = Some p
                 /\ urlparse chk u EmptyString = Some q
                 /\ netloc q = netloc p.

(** The seed cannot be normalized, or its normal form cannot be parsed:
    [crawl] raises [ValueError] in its first lines *)
Definition seed_rejected (chk : string -> bool) (seed : string) : Prop :=
  match normalize_url chk seed with
  | None => True
  | Some s' => urlparse chk s' "" = None
  end.

(** ** What is assumed of the world, where a statement says so *)

(** The elements of [list(set(links))] are elements of [links]. *)
Definition list_of_set_sound (list_of_set : list string -> list string) : Prop :=
  forall (l : list string) (x : string), x ∈ list_of_set l -> x ∈ l.

(** ** Invariants of a crawl *)

(** The budgets: pages and depth *)
Definition budget_inv {World : Type} (st : State World) : Prop :=
  pages_crawled st <= max_pages (self st)
  /\ Z.of_nat (length (yielded st)) = pages_crawled st
  /\ Forall (fun e => e.2 <= max_depth (self st)) (fetch_log st)
  /\ Forall (fun r => exists d, (r_url r, d) ∈ fetch_log st) (yielded st).

(** No URL is fetched twice, and [visited] is what it was plus the URLs
    fetched *)
Definition dedup_inv {World : Type} (v0 : gset string) (st : State World) : Prop :=
  NoDup (fetch_log st).*1
  /\ visited (self st) = v0 ∪ list_to_set (fetch_log st).*1.

(** Everything queued, fetched or yielded has the netloc of the seed *)
Definition authority_inv (chk : string -> bool) {World : Type} (seed : string)
    (st : State World) : Prop :=
  match pc st with
  | Created s => s = seed /\ fetch_log st = [] /\ yielded st = [] /\ crawl_queue st = []
  | _ =>
      (fetch_log st = [] /\ yielded st = [] /\ crawl_queue st = [] /\ pc st = Raised
       \/ exists s' p, normalize_url chk seed = Some s'
                       /\ urlparse chk s' EmptyString = Some p
                       /\ base_domain st = netloc p)
      /\ Forall (fun e => has_netloc chk e.1 (base_domain st)) (crawl_queue st)
      /\ Forall (fun e => has_netloc chk e.1 (base_domain st)) (fetch_log st)
      /\ Forall (fun r => has_netloc chk (r_url r) (base_domain st)) (yielded st)
  end.

(** Every queued entry is the seed at depth 0 or a link that passed
    [is_valid_url] *)
Definition queue_filtered_inv (chk : string -> bool) {World : Type} (seed : string)
    (st : State World) : Prop :=
  match pc st with
  | Created s => s = seed /\ crawl_queue st = []
  | _ =>
      Forall (fun e => (e.2 = 0 /\ normalize_url chk seed = Some e.1)
                       \/ is_valid_url chk (self st) e.1 (base_domain st) = true)
             (crawl_queue st)
  end.

(** Where an exception can leave [crawl]: in its first lines, for a seed that
    cannot be parsed, or in the link loop of the page yielded last, and then
    the URL of that page is not one that [urlparse] reads as http or https with
    a host *)
Definition raise_inv (chk : string -> bool) {World : Type} (seed : string)
    (st : State World) : Prop :=
  match pc st with
  | Created s => s = seed /\ fetch_log st = [] /\ yielded st = []
  | AtYield cur d links =>
      (exists r, last (yielded st) = Some r /\ r_url r = cur)
      /\ last (fetch_log st) = Some (cur, d)
      /\ (fetchable chk cur -> Forall (link_ok chk cur) links)
  | Raised =>
      (seed_rejected chk seed /\ fetch_log st = [] /\ yielded st = [])
      \/ (exists r d, last (yielded st) = Some r
                      /\ last (fetch_log st) = Some (r_url r, d)
                      /\ ~ fetchable chk (r_url r))
  | _ => True
  end.

(** In a crawl that stays on the domain of the seed, every URL queued is read
    by [urlparse] as http or https with a host, when the normalized seed is *)
Definition same_domain_inv (chk : string -> bool) {World : Type} (seed : string)
    (st : State World) : Prop :=
  allow_external (self st) = false
  /\ match pc st with
     | Created s => s = seed
     | Raised => False
     | AtYield cur _ _ =>
         fetchable chk cur /\ base_domain st <> ""
         /\ Forall (fun e => fetchable chk e.1) (crawl_queue st)
     | _ =>
         base_domain st <> "" /\ Forall (fun e => fetchable chk e.1) (crawl_queue st)
     end.

End Notions.

(** * A small web, for the examples *)

Module Example.
Import Crawler.

(** The instance of [_check_bracketed_host] of an interpreter without the
    check *)
Definition accept_all (hostname : string) : bool := true.

(** One possible order of [list(set(links))]: every link once, where it occurs
    last *)
Definition one_order (links : list string) : list string := remove_dups links.

(** A site of two pages.  The home page links to [/x] three times under
    different spellings, to a page with a fragment, to another site and to an
    image. *)
Definition web (w : unit) (url : string) : unit * Reply :=
  (tt,
   if String.eqb url "http://a.com/" then
     Html "Home" "hello"
       (Some ["/x"; "/x/"; "/y#f"; "http://b.org/"; "/pic.JPG"; "x//"])
   else if String.eqb url "http://a.com/x" then
     Html "X" "x page" (Some ["/"; "/z"])
   else RequestFailed).

(** No network: every request fails. *)
Definition offline (w : unit) (url : string) : unit * Reply := (tt, RequestFailed).

(** U+00A0, the no-break space *)
Definition NBSP : ascii := Stdlib.Strings.Ascii.ascii_of_N 160.

(** The URL [http://a.com] after a no-break space.  [requests] strips the
    white space that a URL begins with, U+00A0 included, before it sends the
    request, so that a GET of this URL is a GET of [http://a.com]; [urlparse]
    strips the characters up to U+0020 only and finds no scheme and no netloc
    in it. *)
Definition nbsp_seed : string := String NBSP "http://a.com".

(** A site that answers the GET of [nbsp_seed] with a page that has one
    anchor, [<a href="////[">]. *)
Definition nbsp_web (w : unit) (url : string) : unit * Reply :=
  (tt,
   if String.eqb url nbsp_seed then Html "Home" "hello" (Some ["////["])
   else RequestFailed).

(** The crawl of that site from [nbsp_seed], after [n] steps *)
Definition nbsp_crawl (n : nat) : State unit :=
  steps accept_all one_order nbsp_web n (crawl (__init__ 2 10 false) nbsp_seed tt).

End Example.

(** * Notions for the order and the end of a crawl *)

Module CrawlNotions.
Import Urllib Crawler.

(** The generator has ended: it returned or it raised *)
Definition ended {World : Type} (st : State World) : Prop :=
  pc st = Returned \/ pc st = Raised.

(** Depths in non-decreasing order *)
Fixpoint nondecreasing (l : list Z) : Prop :=
  match l with
  | [] => True
  | x :: t => Forall (Z.le x) t /\ nondecreasing t
  end.

(** The depth of the last call of [fetch_page]; 0 before the first call *)
Definition last_depth {World : Type} (st : State World) : Z :=
  match last (fetch_log st) with Some e => e.2 | None => 0 end.

(** Breadth first: pages are fetched and queued in the order of their depths,
    and the queue holds entries of the depth being fetched and of the next
    one only *)
Definition bfs_inv {World : Type} (st : State World) : Prop :=
  nondecreasing (fetch_log st).*2
  /\ nondecreasing (crawl_queue st).*2
  /\ Forall (fun e => last_depth st <= e.2 <= last_depth st + 1) (crawl_queue st)
  /\ match pc st with
     | AtYield _ d _ => d = last_depth st
     | _ => True
     end.

(** Depths are never negative; an entry deeper than [max_depth] can only be
    the seed *)
Definition depth_inv {World : Type} (st : State World) : Prop :=
  Forall (fun e => e.2 = 0 \/ 0 < e.2 <= max_depth (self st)) (crawl_queue st)
  /\ Forall (fun e => 0 <= e.2) (fetch_log st)
  /\ match pc st with
     | AtYield _ d _ => 0 <= d
     | _ => True
     end.

(** The records yielded are, in this order, records of pages fetched, and
    there are [pages_crawled] of them *)
Definition yield_inv {World : Type} (st : State World) : Prop :=
  r_url <$> yielded st `sublist_of` (fetch_log st).*1
  /\ Z.of_nat (length (yielded st)) = pages_crawled st.

(** When the generator has returned, the queue is empty or the page budget is
    used up *)
Definition return_inv {World : Type} (st : State World) : Prop :=
  pc st = Returned ->
  crawl_queue st = [] \/ max_pages (self st) <= pages_crawled st.

(** A crawl that cannot fetch: nothing was fetched or yielded, and the queue
    holds at most the seed *)
Definition idle_inv {World : Type} (st : State World) : Prop :=
  fetch_log st = [] /\ yielded st = [] /\ pages_crawled st = 0
  /\ Forall (fun e => e.2 = 0) (crawl_queue st)
  /\ match pc st with AtYield _ _ _ => False | _ => True end.

(** What is left to do at the head of the loop: the pages that can still be
    yielded, then the entries that can still be dequeued *)
Definition pages_left {World : Type} (st : State World) : nat :=
  Z.to_nat (max_pages (self st) - pages_crawled st).

(** No URL that is queued, fetched or yielded holds a [#] *)
Definition hash_inv {World : Type} (st : State World) : Prop :=
  Forall (fun e => str_contains "#" e.1 = false) (crawl_queue st)
  /\ Forall (fun e => str_contains "#" e.1 = false) (fetch_log st)
  /\ Forall (fun r => str_contains "#" (r_url r) = false) (yielded st).

(** No record yielded has a blank content *)
Definition blank_inv {World : Type} (st : State World) : Prop :=
  Forall (fun r => truthy (str_strip is_space (r_content r)) = true) (yielded st).

(** An entry of depth 0, or one level below a page that was fetched and
    yielded *)
Definition has_parent {World : Type} (st : State World) (e : string * Z) : Prop :=
  e.2 = 0
  \/ exists r, r ∈ yielded st /\ (r_url r, e.2 - 1) ∈ fetch_log st.

(** Every entry but the seed has a parent *)
Definition parent_inv {World : Type} (st : State World) : Prop :=
  Forall (has_parent st) (crawl_queue st)
  /\ Forall (has_parent st) (fetch_log st)
  /\ match pc st with
     | AtYield cur d _ =>
         exists r, r ∈ yielded st /\ r_url r = cur /\ (cur, d) ∈ fetch_log st
     | _ => True
     end.

(** The first page fetched, if any, is the normalized seed at depth 0 *)
Definition seed_first_inv (chk : string -> bool) {World : Type} (seed : string)
    (st : State World) : Prop :=
  match pc st with
  | Created s => s = seed /\ fetch_log st = [] /\ crawl_queue st = []
  | AtYield _ _ _ =>
      exists s', normalize_url chk seed = Some s' /\ head (fetch_log st) = Some (s', 0)
  | _ =>
      (fetch_log st = []
       /\ (crawl_queue st = []
           \/ exists s', normalize_url chk seed = Some s' /\ crawl_queue st = [(s', 0)]))
      \/ exists s', normalize_url chk seed = Some s' /\ head (fetch_log st) = Some (s', 0)
  end.

Section Replay.

Variable _check_bracketed_host : string -> bool.
Variable list_of_set : list string -> list string.
Variable World : Type.
Variable session_get : World -> string -> World * Reply.

(** The network after [fetch_page] was called for [urls], in this order *)
Fixpoint replay (w : World) (urls : list string) : World :=
  match urls with
  | [] => w
  | u :: rest =>
      replay (fetch_page _check_bracketed_host list_of_set session_get w u).1 rest
  end.

(** The records of the pages that these calls of [fetch_page] return *)
Fixpoint records (w : World) (urls : list string) : list PageRecord :=
  match urls with
  | [] => []
  | u :: rest =>
      let '(w', page_data) :=
        fetch_page _check_bracketed_host list_of_set session_get w u in
      match page_data with
      | Some page_data =>
          {| r_url := pd_url page_data; r_title := pd_title page_data;
             r_content := pd_content page_data |} :: records w' rest
      | None => records w' rest
      end
  end.

(** The network is what the calls of the log made of it, and the records
    yielded are what these calls returned *)
Definition replay_inv (w0 : World) (st : State World) : Prop :=
  world st = replay w0 (fetch_log st).*1
  /\ yielded st = records w0 (fetch_log st).*1.

End Replay.

Arguments replay _ _ {World}.
Arguments records _ _ {World}.
Arguments replay_inv _ _ {World}.

End CrawlNotions.

(** * Regular expressions: the part of [re] that the program uses *)

Module Re.

(** [\w] for a code point below 256: letters, digits and the underscore *)
Definition is_word (c : ascii) : bool :=
  (is_ascii_alpha c || is_digit c || chr_eqb c "_"
   || (ord c =? 170) || (ord c =? 178) || (ord c =? 179) || (ord c =? 181)
   || (ord c =? 185) || (ord c =? 186) || (188 <=? ord c) && (ord c <=? 190)
   || (192 <=? ord c) && (ord c <=? 214) || (216 <=? ord c) && (ord c <=? 246)
   || (248 <=? ord c))%N.

(** A pattern, given by what the matcher does at one position: the length of
    the match that begins at the start of the string, [None] when no match
    begins there.  No pattern of the program looks behind that position. *)
Definition Pattern : Type := string -> option nat.

(** [re.sub(pattern, repl, text)] for a pattern that matches no empty string:
    the matches are looked for from left to right, each search beginning where
    the last match ended.  [skip] counts the characters of the current match
    that are still to be passed over. *)
Fixpoint sub_from (pattern : Pattern) (repl : string) (skip : nat) (text : string)
  : string :=
  match text with
  | EmptyString => EmptyString
  | String a rest =>
      match skip with
      | S k => sub_from pattern repl k rest
      | O =>
          match pattern text with
          | Some (S k) => repl +:+ sub_from pattern repl k rest
          | _ => String a (sub_from pattern repl O rest)
          end
      end
  end.

Definition sub (pattern : Pattern) (repl text : string) : string :=
  sub_from pattern repl O text.

(** The length of the longest prefix made of characters of the class [p] *)
Fixpoint span (p : ascii -> bool) (s : string) : nat :=
  match s with
  | EmptyString => O
  | String a s' => if p a then S (span p s') else O
  end.

(** [[class]{n,}], greedy *)
Definition at_least (n : nat) (p : ascii -> bool) : Pattern :=
  fun s => let k := span p s in if (n <=? k)%nat then Some k else None.

(** [[class]]: one character *)
Definition one_of (p : ascii -> bool) : Pattern :=
  fun s => match s with
           | String a _ => if p a then Some 1%nat else None
           | EmptyString => None
           end.

(** Whether [s] begins with the literal [lit] under [re.IGNORECASE]; [lit] is
    in lower case.  A character below 256 matches a letter of [lit] when it is
    that letter in either case. *)
Fixpoint istartswith (lit s : string) : bool :=
  match lit, s with
  | EmptyString, _ => true
  | String a lit', String b s' => chr_eqb (chr_lower b) a && istartswith lit' s'
  | String _ _, EmptyString => false
  end.

(** A literal under [re.IGNORECASE] *)
Definition literal (lit : string) : Pattern :=
  fun s => if istartswith lit s then Some (str_len lit) else None.

(** [.*?lit]: the shortest run of characters that [.] matches, followed by
    [lit]; the length counts [lit].  [dotall]: whether [.] matches the line
    feed. *)
Fixpoint lazy_until (dotall : bool) (lit : string) (s : string) : option nat :=
  if istartswith lit s then Some (str_len lit)
  else match s with
       | EmptyString => None
       | String a s' =>
           if negb dotall && chr_eqb a LF then None
           else S <$> lazy_until dotall lit s'
       end.

(** [open.*?close] under [re.IGNORECASE] *)
Definition between (opening closing : string) : Pattern :=
  fun s =>
    if istartswith opening s
    then (fun k => str_len opening + k)%nat
           <$> lazy_until false closing (str_drop (str_len opening) s)
    else None.

End Re.

(** * The patterns of text_extractor.py and sentiment_analyzer.py *)

Module Patterns.
Import Re.

(** [\s+] *)
Definition ws_run : Pattern := at_least 1 is_space.

(** [[^\w\s\.\,\!\?\;\:\-\(\)]] *)
Definition special_char : Pattern :=
  one_of (fun c => negb (is_word c || is_space c || str_contains c ".,!?;:-()")).

(** The characters of the group
    [(?:[a-zA-Z]|[0-9]|[$-_@.&+]|[!*\\(\\),]|(?:%[0-9a-fA-F][0-9a-fA-F]))]:
    the first four alternatives take one character each.  The last one begins
    with [%], which the third one takes (it is in the range from [$] to [_]),
    and nothing follows the group that could make the matcher come back to
    it. *)
Definition url_char (c : ascii) : bool :=
  is_ascii_alpha c || is_digit c
  || ((36 <=? ord c) && (ord c <=? 95))%N || str_contains c "@.&+"
  || str_contains c "!*\(),".

(** [://] and the group once or more, greedy *)
Definition url_tail (s : string) : option nat :=
  if str_startswith "://" s
  then match span url_char (str_drop 3 s) with
       | O => None
       | S k => Some (3 + S k)%nat
       end
  else None.

(** [http[s]?://(?:...)+]: the optional [s] is tried first *)
Definition url : Pattern :=
  fun s =>
    if str_startswith "http" s then
      let r := str_drop 4 s in
      match (if str_startswith "s" r then url_tail (str_drop 1 r) else None) with
      | Some k => Some (5 + k)%nat
      | None => (fun k => 4 + k)%nat <$> url_tail r
      end
    else None.

(** [\S+@\S+]: the first [\S+] takes the whole run of characters that are not
    whitespace, and gives characters back until an [@] follows it that is
    itself followed by such a character; the second [\S+] then takes the rest
    of the run. *)
Definition email : Pattern :=
  fun s =>
    let k := span (fun c => negb (is_space c)) s in
    match str_rfind "@" (str_take (k - 1) s) with
    | Some (S _) => Some k
    | _ => None
    end.

(** [[!]{2,}], [[?]{2,}] and [[.]{3,}] *)
Definition bangs : Pattern := at_least 2 (chr_eqb "!").
Definition questions : Pattern := at_least 2 (chr_eqb "?").
Definition dots : Pattern := at_least 3 (chr_eqb ".").

(** [patterns_to_remove] of [_clean_text], each under [re.IGNORECASE] *)
Definition patterns_to_remove : list Pattern :=
  [between "cookie" "policy"; between "privacy" "policy";
   between "terms" "service"; between "subscribe" "newsletter";
   between "follow" "social"; literal "advertisement";
   between "sponsored" "content"].

(** [<title[^>]*>(.*?)</title>] under [re.IGNORECASE | re.DOTALL], matched at
    the start of [s]: the text of the group *)
Definition title_at (s : string) : option string :=
  if istartswith "<title" s then
    let r := str_drop 6 s in
    let k := span (fun c => negb (chr_eqb c ">")) r in
    if str_startswith ">" (str_drop k r) then
      let body := str_drop (S k) r in
      (fun n => str_take (n - 8) body) <$> lazy_until true "</title>" body
    else None
  else None.

(** [re.search] of that pattern: the first position where it matches *)
Fixpoint search_title (html : string) : option string :=
  match title_at html with
  | Some group => Some group
  | None =>
      match html with
      | EmptyString => None
      | String _ html' => search_title html'
      end
  end.

End Patterns.

(** * text_extractor.py: text and title *)

Module Extractor.
Import Re Patterns.

(** [TextExtractor._clean_text] *)
Definition _clean_text (text : string) : string :=
  if negb (truthy text) then EmptyString
  else
    let text := sub ws_run " " text in
    let text :=
      fold_left (fun text pattern => sub pattern EmptyString text)
        patterns_to_remove text in
    let text := sub special_char " " text in
    str_strip is_space (sub ws_run " " text).

(** What one of the four [soup.find] calls of [_extract_title] gives. *)
Inductive TitleSource : Type :=
| FindRaised                       (** the call raised *)
| NoElement                        (** it returned [None] *)
| Element (text : option string).  (** it returned an element; [text] is what
                                       the loop reads from it, the [content]
                                       attribute of a [meta] and the stripped
                                       text of another element, [None] when the
                                       reading raises *)

Definition find_raised (source : TitleSource) : bool :=
  match source with FindRaised => true | _ => false end.

(** The [for source in title_sources] loop of [_extract_title] with the
    [return "Untitled"] after it; an element is read when the loop comes to it,
    and a reading that raises gives ["Untitled"]. *)
Fixpoint first_title (title_sources : list TitleSource) : string :=
  match title_sources with
  | [] => "Untitled"
  | Element (Some title) :: rest =>
      if truthy title then str_take 200 (_clean_text title)
      else first_title rest
  | Element None :: _ => "Untitled"
  | _ :: rest => first_title rest
  end.

(** [TextExtractor._extract_title]; [title_sources] holds the results of the
    [soup.find] calls in the order of the list of the function.  The list is
    built before the loop starts, inside the [try]: when one of the calls
    raises, no element is looked at and the title is ["Untitled"]. *)
Definition _extract_title (title_sources : list TitleSource) : string :=
  if existsb find_raised title_sources then "Untitled"
  else first_title title_sources.

(** [TextExtractor._extract_title_fallback] *)
Definition _extract_title_fallback (html : string) : string :=
  match search_title html with
  | Some group => str_take 200 (_clean_text group)
  | None => "Untitled"
  end.

(** What the libraries give for the HTML of one page. *)
Record Parsed : Type := mkParsed {
  trafilatura_extract : option (option string);
    (** [trafilatura.extract(html)]: [None] when it raised, [Some None] when
        it returned [None] *)
  bs_text : string;
    (** [_extract_with_beautifulsoup(html)], which catches what is raised and
        returns a string *)
  soup : option (list TitleSource * list string) }.
    (** [BeautifulSoup(html, 'html.parser')]: [None] when it raised, else what
        the [soup.find] calls of [_extract_title] give on it and the [href]
        values of its anchors in document order *)

(** The dictionary returned by [extract_content] *)
Record Extracted : Type := mkExtracted {
  e_content : string; e_title : string; e_links : list string }.

Section Content.

Variable _check_bracketed_host : string -> bool.
Variable list_of_set : list string -> list string.

(** [TextExtractor.extract_content] *)
Definition extract_content (lib : Parsed) (html url : string) : Extracted :=
  let fallback :=
    {| e_content := bs_text lib; e_title := _extract_title_fallback html;
       e_links := [] |} in
  match trafilatura_extract lib with
  | None => fallback
  | Some content =>
      let content :=
        match content with
        | Some c => if truthy c then c else bs_text lib
        | None => bs_text lib
        end in
      match soup lib with
      | None => fallback
      | Some (title_sources, hrefs) =>
          {| e_content := _clean_text content;
             e_title := _extract_title title_sources;
             e_links := TextExtractor._extract_links _check_bracketed_host
                          list_of_set hrefs url |}
      end
  end.

End Content.

End Extractor.

(** * sentiment_analyzer.py: the text given to the analysis *)

Module SentimentAnalyzer.
Import Re Patterns.

(** [SentimentAnalyzer._preprocess_text] *)
Definition _preprocess_text (text : string) : string :=
  let text := sub ws_run " " text in
  let text := sub url EmptyString text in
  let text := sub email EmptyString text in
  let text := sub bangs "!" text in
  let text := sub questions "?" text in
  let text := sub dots "..." text in
  let text := sub special_char " " text in
  str_strip is_space (sub ws_run " " text).

End SentimentAnalyzer.

(** * app.py: the row of a page *)

Module Rows.

(** [s.split()]: the runs of characters that are not whitespace; [word] is
    the run being read *)
Fixpoint split_from (word : string) (s : string) : list string :=
  match s with
  | EmptyString => if truthy word then [word] else []
  | String a s' =>
      if is_space a
      then (if truthy word then word :: split_from EmptyString s'
            else split_from EmptyString s')
      else split_from (word +:+ String a EmptyString) s'
  end.

Definition str_words (s : string) : list string := split_from EmptyString s.

(** ['Content Preview'] *)
Definition content_preview (content : string) : string :=
  if (300 <? str_len content)%nat then str_take 300 content +:+ "..." else content.

(** ['Word Count'] *)
Definition word_count (content : string) : nat := length (str_words content).

End Rows.

(** * Notions for the cleaned text *)

Module TextNotions.
Import Re Patterns.

(** The characters that the last two substitutions of [_clean_text] and
    [_preprocess_text] leave: word characters, the space and the punctuation
    [.,!?;:-()] *)
Definition kept_char (c : ascii) : bool :=
  is_word c || chr_eqb c " " || str_contains c ".,!?;:-()".

(** The characters that the substitution of [special_char] leaves *)
Definition not_special (c : ascii) : bool :=
  is_word c || is_space c || str_contains c ".,!?;:-()".

Definition head_is_space (s : string) : bool :=
  match s with
  | EmptyString => false
  | String a _ => is_space a
  end.

(** Every whitespace character is a space that no whitespace follows *)
Fixpoint ws_ok (s : string) : bool :=
  match s with
  | EmptyString => true
  | String a s' =>
      (negb (is_space a) || chr_eqb a " " && negb (head_is_space s')) && ws_ok s'
  end.

(** Every whitespace character is a space between two characters that are
    not whitespace, the first character apart *)
Fixpoint spaced (s : string) : bool :=
  match s with
  | EmptyString => true
  | String a s' =>
      (negb (is_space a) || chr_eqb a " " && truthy s' && negb (head_is_space s'))
      && spaced s'
  end.

(** Words of kept characters with one space between them *)
Definition tidy (s : string) : bool :=
  str_forall kept_char s && negb (head_is_space s) && spaced s.

(** Every run of the character [c] is shorter than [n] *)
Fixpoint runs_lt (c : ascii) (n : nat) (s : string) : bool :=
  match s with
  | EmptyString => true
  | String _ s' => (span (chr_eqb c) s <? n)%nat && runs_lt c n s'
  end.

(** Tidy, with no [!!], no [??] and no [....] *)
Definition settled (s : string) : bool :=
  tidy s && runs_lt "!" 2 s && runs_lt "?" 2 s && runs_lt "." 4 s.

(** [s.count(c)] *)
Fixpoint count_char (c : ascii) (s : string) : nat :=
  match s with
  | EmptyString => O
  | String a s' => if chr_eqb a c then S (count_char c s') else count_char c s'
  end.

(** [c * n] *)
Fixpoint rep (n : nat) (c : ascii) : string :=
  match n with
  | O => EmptyString
  | S k => String c (rep k c)
  end.

(** What holds of every suffix of a tidy text *)
Definition neat (s : string) : Prop :=
  str_forall kept_char s = true /\ ws_ok s = true.

(** What holds of every suffix of a settled text *)
Definition steady (s : string) : Prop :=
  str_forall kept_char s = true /\ ws_ok s = true
  /\ runs_lt "!" 2 s = true /\ runs_lt "?" 2 s = true /\ runs_lt "." 4 s = true.

(** A title as [_extract_title] returns it: at most 200 kept characters, the
    first of which is no space, with no two spaces in a row *)
Definition title_ok (t : string) : Prop :=
  (str_len t <= 200)%nat /\ str_forall kept_char t = true
  /\ head_is_space t = false /\ ws_ok t = true.

End TextNotions.

(** * Facts about strings and about [urlsplit] and [urlparse] *)

Module StrFacts.
Import Urllib Notions.
Local Close Scope Z_scope.

#[local] Arguments String.append : simpl nomatch.

Lemma chr_eqb_refl c : chr_eqb c c = true.
Proof. apply Stdlib.Strings.Ascii.eqb_refl. Qed.

Lemma chr_eqb_eq a b : chr_eqb a b = true <-> a = b.
Proof. apply Stdlib.Strings.Ascii.eqb_eq. Qed.

Lemma chr_eqb_neq a b : chr_eqb a b = false <-> a <> b.
Proof. apply Stdlib.Strings.Ascii.eqb_neq. Qed.

Lemma str_eqb_eq a b : str_eqb a b = true <-> a = b.
Proof. apply String.eqb_eq. Qed.

Lemma str_eqb_refl a : str_eqb a a = true.
Proof. by apply str_eqb_eq. Qed.

Lemma str_eqb_neq a b : str_eqb a b = false <-> a <> b.
Proof. apply String.eqb_neq. Qed.

Lemma app_nil_r s : s +:+ "" = s.
Proof. induction s as [|a s IH]; simpl; [done|by rewrite IH]. Qed.

Lemma app_assoc a b c : (a +:+ b) +:+ c = a +:+ b +:+ c.
Proof. induction a as [|x a IH]; simpl; [done|by rewrite IH]. Qed.

Lemma len_app a b : str_len (a +:+ b) = (str_len a + str_len b)%nat.
Proof. induction a as [|x a IH]; simpl; [done|]. unfold str_len in *. simpl. by rewrite IH. Qed.

Lemma truthy_false s : truthy s = false <-> s = "".
Proof. destruct s; simpl; split; congruence. Qed.

Lemma truthy_true s : truthy s = true <-> s <> "".
Proof. destruct s; simpl; split; congruence. Qed.

Lemma take_app a b : str_take (str_len a) (a +:+ b) = a.
Proof. induction a as [|x a IH]; simpl; [by destruct b|]. by rewrite IH. Qed.

Lemma drop_app a b : str_drop (str_len a) (a +:+ b) = b.
Proof. induction a as [|x a IH]; simpl; [done|]. by rewrite IH. Qed.

Lemma take_drop n s : str_take n s +:+ str_drop n s = s.
Proof.
  revert s. induction n as [|n IH]; intros [|a s]; simpl; try done.
  by rewrite IH.
Qed.

Lemma take_all s : str_take (str_len s) s = s.
Proof. rewrite <- (app_nil_r s) at 2. apply take_app. Qed.

Lemma contains_app c a b :
  str_contains c (a +:+ b) = str_contains c a || str_contains c b.
Proof. induction a as [|x a IH]; simpl; [done|]. rewrite IH. by rewrite orb_assoc. Qed.

Lemma contains_take c n s : str_contains c s = false -> str_contains c (str_take n s) = false.
Proof.
  revert s. induction n as [|n IH]; intros [|a s]; simpl; try done.
  intros [? ?]%orb_false_iff. apply orb_false_iff. auto.
Qed.

Lemma contains_drop c n s : str_contains c s = false -> str_contains c (str_drop n s) = false.
Proof.
  revert s. induction n as [|n IH]; intros [|a s]; simpl; try done.
  intros [? ?]%orb_false_iff. auto.
Qed.

(** [find] *)
Lemma find_none c s : str_find c s = None <-> str_contains c s = false.
Proof.
  induction s as [|a s IH]; simpl; [done|].
  destruct (chr_eqb a c); simpl; [done|].
  rewrite <- IH. destruct (str_find c s); simpl; split; congruence.
Qed.

Lemma find_some c s i :
  str_find c s = Some i ->
  s = str_take i s +:+ String c (str_drop (S i) s)
  /\ str_contains c (str_take i s) = false /\ str_len (str_take i s) = i.
Proof.
  revert i. induction s as [|a s IH]; simpl; [done|].
  destruct (chr_eqb a c) eqn:E.
  - intros i [= <-]. apply chr_eqb_eq in E as ->. simpl. by destruct s.
  - destruct (str_find c s) as [j|]; simpl; [|done].
    intros i [= <-]. destruct (IH j eq_refl) as (H1 & H2 & H3).
    simpl. rewrite E, H2. unfold str_len in *. simpl. rewrite H3.
    split_and!; try done. f_equal. exact H1.
Qed.

Lemma find_app c a b :
  str_contains c a = false -> str_find c (a +:+ String c b) = Some (str_len a).
Proof.
  induction a as [|x a IH]; simpl.
  - by rewrite chr_eqb_refl.
  - intros [-> H]%orb_false_iff. by rewrite (IH H).
Qed.

Lemma find_app_none c a b :
  str_contains c a = false ->
  str_find c (a +:+ b) = (fun j => (str_len a + j)%nat) <$> str_find c b.
Proof.
  induction a as [|x a IH]; simpl.
  - by destruct (str_find c b).
  - intros [-> H]%orb_false_iff. rewrite (IH H).
    by destruct (str_find c b).
Qed.

Lemma cut_app c a b : str_contains c a = false -> cut c (a +:+ String c b) = (a, b).
Proof.
  intros H. unfold cut. rewrite (find_app _ _ _ H).
  rewrite take_app. change (S (str_len a)) with (str_len (String c "") + str_len a)%nat.
  replace (str_len (String c "") + str_len a)%nat with (str_len (a +:+ String c "")).
  2:{ rewrite len_app. simpl. unfold str_len. simpl. lia. }
  replace (a +:+ String c b) with ((a +:+ String c "") +:+ b).
  2:{ by rewrite app_assoc. }
  by rewrite drop_app.
Qed.

Lemma cut_none c s : str_contains c s = false -> cut c s = (s, "").
Proof. intros H. unfold cut. apply find_none in H. by rewrite H. Qed.

Lemma cut_sound c s a b :
  cut c s = (a, b) ->
  str_contains c a = false
  /\ (s = a /\ b = "" \/ s = a +:+ String c b).
Proof.
  unfold cut. destruct (str_find c s) as [i|] eqn:E.
  - intros [= <- <-]. destruct (find_some _ _ _ E) as (H1 & H2 & H3). auto.
  - intros [= <- <-]. apply find_none in E. auto.
Qed.


(** [replace(c, "")] and the unsafe characters *)
Lemma remove_none c s : str_contains c s = false -> str_remove c s = s.
Proof.
  induction s as [|a s IH]; simpl; [done|].
  intros [-> H]%orb_false_iff. by rewrite (IH H).
Qed.

Lemma remove_app c a b : str_remove c (a +:+ b) = str_remove c a +:+ str_remove c b.
Proof.
  induction a as [|x a IH]; simpl; [done|].
  destruct (chr_eqb x c); simpl; by rewrite IH.
Qed.

Lemma contains_remove d c s :
  str_contains d (str_remove c s) = str_contains d s && negb (chr_eqb d c).
Proof.
  induction s as [|a s IH]; simpl; [done|].
  destruct (chr_eqb a c) eqn:E1; simpl; rewrite IH.
  - apply chr_eqb_eq in E1 as ->.
    destruct (chr_eqb c d) eqn:E2; simpl; [|done].
    apply chr_eqb_eq in E2 as ->. rewrite chr_eqb_refl. simpl.
    by destruct (str_contains d s).
  - destruct (chr_eqb a d) eqn:E2; simpl; [|done].
    apply chr_eqb_eq in E2 as ->. by rewrite E1.
Qed.

Lemma safe_remove_unsafe s : safe (remove_unsafe s).
Proof.
  unfold safe, remove_unsafe. rewrite !contains_remove.
  rewrite !chr_eqb_refl. change (chr_eqb TAB CR) with false.
  change (chr_eqb TAB LF) with false. change (chr_eqb CR LF) with false.
  simpl. by rewrite !andb_false_r.
Qed.

Lemma remove_unsafe_safe s : safe s -> remove_unsafe s = s.
Proof.
  intros (H1 & H2 & H3). unfold remove_unsafe.
  rewrite (remove_none TAB), (remove_none CR), (remove_none LF); done.
Qed.

Lemma remove_unsafe_app a b : remove_unsafe (a +:+ b) = remove_unsafe a +:+ remove_unsafe b.
Proof. unfold remove_unsafe. by rewrite !remove_app. Qed.

Lemma safe_app a b : safe (a +:+ b) <-> safe a /\ safe b.
Proof.
  unfold safe. rewrite !contains_app, !orb_false_iff. tauto.
Qed.

Lemma safe_take n s : safe s -> safe (str_take n s).
Proof. intros (?&?&?). unfold safe. auto using contains_take. Qed.

Lemma safe_drop n s : safe s -> safe (str_drop n s).
Proof. intros (?&?&?). unfold safe. auto using contains_drop. Qed.

Lemma safe_cons a s : safe (String a s) <-> safe (String a "") /\ safe s.
Proof. apply (safe_app (String a "") s). Qed.

(** [lstrip] *)
Lemma lstrip_head p s : head_not p (str_lstrip p s).
Proof.
  induction s as [|a s IH]; simpl; [done|].
  destruct (p a) eqn:E; simpl; done.
Qed.

Lemma lstrip_id p s : head_not p s -> str_lstrip p s = s.
Proof. destruct s as [|a s]; simpl; [done|]. by intros ->. Qed.

Lemma head_not_remove p c s :
  p c = true -> head_not p s -> head_not p (str_remove c s).
Proof.
  destruct s as [|a s]; simpl; [done|].
  intros Hc Ha. destruct (chr_eqb a c) eqn:E; simpl; [|done].
  apply chr_eqb_eq in E as ->. congruence.
Qed.

Lemma head_not_remove_unsafe s :
  head_not is_c0_or_space s -> head_not is_c0_or_space (remove_unsafe s).
Proof.
  intros H. unfold remove_unsafe. by repeat apply head_not_remove.
Qed.

(** [lower] *)
Lemma lower_app a b : str_lower (a +:+ b) = str_lower a +:+ str_lower b.
Proof. induction a as [|x a IH]; simpl; [done|]. by rewrite IH. Qed.

Lemma len_lower s : str_len (str_lower s) = str_len s.
Proof. induction s as [|a s IH]; simpl; [done|]. unfold str_len in *. simpl. by rewrite IH. Qed.

(** Characters of a scheme *)
Ltac by_char c := destruct c as [[] [] [] [] [] [] [] []]; vm_compute; try done; auto.

Lemma scheme_char_lower c : in_scheme_chars c = true -> in_scheme_chars (chr_lower c) = true.
Proof. by_char c. Qed.

Lemma alpha_lower c : is_ascii_alpha c = true -> is_ascii_alpha (chr_lower c) = true.
Proof. by_char c. Qed.

Lemma scheme_char_lower_idem c :
  in_scheme_chars c = true -> chr_lower (chr_lower c) = chr_lower c.
Proof. by_char c. Qed.

Lemma scheme_char_plain c :
  in_scheme_chars c = true ->
  chr_eqb c ":" = false /\ chr_eqb c TAB = false /\ chr_eqb c CR = false
  /\ chr_eqb c LF = false /\ is_c0_or_space c = false.
Proof. by_char c. Qed.

Lemma alpha_scheme_char c : is_ascii_alpha c = true -> in_scheme_chars c = true.
Proof. by_char c. Qed.

Lemma forall_lower_scheme s :
  str_forall in_scheme_chars s = true ->
  str_forall in_scheme_chars (str_lower s) = true
  /\ str_lower (str_lower s) = str_lower s.
Proof.
  induction s as [|a s IH]; simpl; [done|].
  intros [Ha Hs]%andb_true_iff. destruct (IH Hs) as [-> ->].
  by rewrite scheme_char_lower, scheme_char_lower_idem.
Qed.

Lemma scheme_no_colon s :
  str_forall in_scheme_chars s = true -> str_contains ":" s = false /\ safe s.
Proof.
  induction s as [|a s IH]; simpl; [done|].
  intros [Ha Hs]%andb_true_iff. destruct (IH Hs) as [-> (?&?&?)].
  destruct (scheme_char_plain _ Ha) as (-> & ? & ? & ? & _).
  unfold safe. simpl. split_and!; try done; apply orb_false_iff; done.
Qed.

Lemma forall_take p n s : str_forall p s = true -> str_forall p (str_take n s) = true.
Proof.
  revert s. induction n as [|n IH]; intros [|a s]; simpl; try done.
  intros [-> ?]%andb_true_iff. simpl. auto.
Qed.

(** [_splitnetloc] *)
Lemma drop_all s : str_drop (str_len s) s = "".
Proof. rewrite <- (app_nil_r s) at 2. apply drop_app. Qed.

Lemma len_take_le n s : (n <= str_len s)%nat -> str_len (str_take n s) = n.
Proof.
  revert s. induction n as [|n IH]; intros [|a s]; unfold str_len in *; simpl; try done; try lia.
  intros H. rewrite IH; lia.
Qed.

Lemma drop_find c s i : str_find c s = Some i -> str_drop i s = String c (str_drop (S i) s).
Proof.
  intros H. destruct (find_some _ _ _ H) as (H1 & _ & H3).
  rewrite H1 at 1. rewrite <- H3 at 1. apply drop_app.
Qed.

Lemma find_lt_len c s i : str_find c s = Some i -> (i < str_len s)%nat.
Proof.
  intros H. destruct (find_some _ _ _ H) as (H1 & _ & H3).
  rewrite H1, len_app, H3. unfold str_len. simpl. lia.
Qed.

Lemma contains_take_find c s m :
  (forall w, str_find c s = Some w -> (m <= w)%nat) ->
  str_contains c (str_take m s) = false.
Proof.
  revert s. induction m as [|m IH]; intros [|a s]; simpl; try done.
  intros H. destruct (chr_eqb a c) eqn:E; simpl.
  - specialize (H O eq_refl). lia.
  - apply IH. intros w Hw. rewrite Hw in H. simpl in H.
    specialize (H _ eq_refl). lia.
Qed.

Lemma splitnetloc_2 a b rest :
  _splitnetloc (String a (String b rest)) 2
  = (str_take (first_delim rest) rest, str_drop (first_delim rest) rest).
Proof.
  unfold _splitnetloc, first_delim, str_slice. simpl.
  unfold str_len. simpl.
  destruct (str_find "/" rest) as [i|]; simpl;
  destruct (str_find "?" rest) as [j|]; simpl;
  destruct (str_find "#" rest) as [k|]; simpl;
  rewrite ?Nat.sub_0_r; reflexivity.
Qed.

Lemma first_delim_sound rest :
  no_delims (str_take (first_delim rest) rest)
  /\ head_delim (str_drop (first_delim rest) rest).
Proof.
  unfold first_delim. simpl.
  destruct (str_find "/" rest) as [i|] eqn:E1;
  destruct (str_find "?" rest) as [j|] eqn:E2;
  destruct (str_find "#" rest) as [k|] eqn:E3; simpl.
  all: split; [unfold no_delims; split_and!; apply contains_take_find; intros w Hw;
                 rewrite ?E1, ?E2, ?E3 in Hw; try done; injection Hw as <-; lia|].
  all: try pose proof (find_lt_len _ _ _ E1); try pose proof (find_lt_len _ _ _ E2);
       try pose proof (find_lt_len _ _ _ E3).
  all: repeat match goal with
       | |- context [Nat.min ?a ?b] =>
           destruct (Nat.min_spec a b) as [[_ ->]|[_ ->]]
       end.
  all: first [ by rewrite drop_all
             | by rewrite (drop_find _ _ _ E1)
             | by rewrite (drop_find _ _ _ E2)
             | by rewrite (drop_find _ _ _ E3) ].
Qed.

Lemma first_delim_build n t :
  no_delims n -> head_delim t -> first_delim (n +:+ t) = str_len n.
Proof.
  intros (H1 & H2 & H3) Ht. unfold first_delim. simpl.
  rewrite !find_app_none, len_app by done.
  destruct t as [|d t]; simpl; [lia|].
  simpl in Ht. unfold is_delim in Ht.
  destruct (chr_eqb d "/") eqn:D1; simpl;
  destruct (chr_eqb d "?") eqn:D2; simpl;
  destruct (chr_eqb d "#") eqn:D3; simpl; try done.
  all: repeat match goal with
       | |- context [str_find ?c ?t0] => destruct (str_find c t0); simpl
       end; unfold str_len; simpl; lia.
Qed.

Lemma splitnetloc_build n t :
  no_delims n -> head_delim t ->
  _splitnetloc ("//" +:+ n +:+ t) 2 = (n, t).
Proof.
  intros Hn Ht. simpl. rewrite splitnetloc_2, first_delim_build by done.
  by rewrite take_app, drop_app.
Qed.

Lemma cut_cons_eq c t : cut c (String c t) = ("", t).
Proof. unfold cut. simpl. by rewrite chr_eqb_refl. Qed.

Lemma cut_cons_ne c d t :
  chr_eqb d c = false -> cut c (String d t) = (String d (cut c t).1, (cut c t).2).
Proof.
  intros H. unfold cut. simpl. rewrite H.
  destruct (str_find c t); simpl; done.
Qed.

Lemma head_slash_startswith p : head_slash p -> p = "" \/ str_take 1 p = "/".
Proof. destruct p as [|a p]; simpl; [by left|]. intros ->. right. by destruct p. Qed.

Lemma head_delim_remove c t :
  is_delim c = false -> head_delim t -> head_delim (str_remove c t).
Proof.
  destruct t as [|a t]; simpl; [done|].
  intros Hc Ha. destruct (chr_eqb a c) eqn:E; simpl; [|done].
  apply chr_eqb_eq in E as ->. congruence.
Qed.

Lemma head_delim_remove_unsafe t : head_delim t -> head_delim (remove_unsafe t).
Proof. intros H. unfold remove_unsafe. by repeat apply head_delim_remove. Qed.

Lemma split_tail_sound t :
  str_contains "?" (split_tail t).1.1 = false
  /\ str_contains "#" (split_tail t).1.1 = false
  /\ str_contains "#" (split_tail t).1.2 = false
  /\ (safe t -> safe (split_tail t).1.1 /\ safe (split_tail t).1.2 /\ safe (split_tail t).2)
  /\ (head_delim t -> head_slash (split_tail t).1.1).
Proof.
  unfold split_tail.
  destruct (cut "#" t) as [a f] eqn:E1. destruct (cut "?" a) as [p q] eqn:E2. simpl.
  destruct (cut_sound _ _ _ _ E1) as [Ha Ht].
  destruct (cut_sound _ _ _ _ E2) as [Hp Hq].
  assert (Hpa : str_contains "#" p = false /\ str_contains "#" q = false).
  { destruct Hq as [[-> ->]| ->]; [done|].
    rewrite contains_app in Ha. simpl in Ha. by apply orb_false_iff in Ha. }
  split_and!; try tauto.
  - intros Hs.
    assert (safe a /\ safe f) as [Hsa Hsf].
    { destruct Ht as [[-> ->]| ->]; [done|].
      apply safe_app in Hs as [? Hs]. by apply safe_cons in Hs as [_ ?]. }
    destruct Hq as [[-> ->]| ->]; [done|].
    apply safe_app in Hsa as [? Hsa]. by apply safe_cons in Hsa as [_ ?].
  - destruct t as [|d t']; simpl.
    + rewrite cut_none in E1 by done. injection E1 as <- <-.
      rewrite cut_none in E2 by done. by injection E2 as <- <-.
    + unfold is_delim. intros Hd.
      destruct (chr_eqb d "#") eqn:D3.
      { apply chr_eqb_eq in D3 as ->. rewrite cut_cons_eq in E1. injection E1 as <- <-.
        rewrite cut_none in E2 by done. by injection E2 as <- <-. }
      rewrite cut_cons_ne in E1 by done. injection E1 as <- <-.
      destruct (chr_eqb d "?") eqn:D2.
      { apply chr_eqb_eq in D2 as ->. rewrite cut_cons_eq in E2. by injection E2 as <- <-. }
      rewrite cut_cons_ne in E2 by done. injection E2 as <- <-.
      rewrite !orb_false_r in Hd. by apply chr_eqb_eq in Hd.
Qed.

Lemma split_tail_build p q :
  str_contains "?" p = false -> str_contains "#" p = false ->
  str_contains "#" q = false ->
  split_tail (p +:+ opt_query q) = (p, q, "").
Proof.
  intros H1 H2 H3. unfold split_tail, opt_query.
  destruct q as [|c q]; simpl.
  - rewrite app_nil_r, !cut_none; done.
  - rewrite (cut_none "#").
    2:{ rewrite contains_app. simpl. simpl in H3. by rewrite H2, H3. }
    by rewrite cut_app.
Qed.

Lemma drop_app_cons a c b : str_drop (S (str_len a)) (a +:+ String c b) = b.
Proof. induction a as [|x a IH]; simpl; [done|]. exact IH. Qed.

Lemma detect_scheme_build s rest dflt :
  scheme_ok s -> detect_scheme dflt (s +:+ String ":" rest) = (s, rest).
Proof.
  intros (Hh & Hf & Hl). unfold detect_scheme.
  destruct (scheme_no_colon _ Hf) as [Hc _].
  rewrite (find_app _ _ _ Hc).
  destruct s as [|c s']; [done|].
  assert (Hlen : str_len (String c s') = S (str_len s')) by reflexivity.
  rewrite Hlen.
  change (String c s' +:+ String ":" rest) with (String c (s' +:+ String ":" rest)).
  cbv iota beta. rewrite Hh.
  change (String c (s' +:+ String ":" rest)) with (String c s' +:+ String ":" rest).
  rewrite <- Hlen.
  rewrite take_app, Hf, Hl, drop_app_cons. reflexivity.
Qed.

Lemma detect_scheme_slash rest dflt :
  detect_scheme dflt (String "/" rest) = (dflt, String "/" rest).
Proof.
  unfold detect_scheme. destruct (str_find ":" (String "/" rest)) as [[|i]|]; done.
Qed.

Lemma alpha_not_c0 c : is_ascii_alpha c = true -> is_c0_or_space c = false.
Proof. by_char c. Qed.

Section Split.

Variable chk : string -> bool.

Lemma urlsplit_eq url dflt :
  urlsplit chk url dflt =
  match detect_netloc chk (detect_scheme (clean_scheme dflt) (clean_url url)).2 with
  | None => None
  | Some (n, t) =>
      Some (mkSplit (detect_scheme (clean_scheme dflt) (clean_url url)).1 n
              (split_tail t).1.1 (split_tail t).1.2 (split_tail t).2)
  end.
Proof.
  unfold urlsplit. cbv zeta.
  fold (clean_url url). fold (clean_scheme dflt).
  fold (detect_scheme (clean_scheme dflt) (clean_url url)).
  destruct (detect_scheme (clean_scheme dflt) (clean_url url)) as [s rest].
  cbn [fst snd]. unfold detect_netloc, _checknetloc.
  destruct (str_eqb (str_take 2 rest) "//").
  - destruct (_splitnetloc rest 2) as [n t].
    destruct (netloc_brackets_ok chk n); [|reflexivity].
    cbn [mbind option_bind]. unfold split_tail, cut.
    destruct (str_find "#" t); destruct (str_find "?" _); reflexivity.
  - cbn [mbind option_bind]. unfold split_tail, cut.
    destruct (str_find "#" rest); destruct (str_find "?" _); reflexivity.
Qed.

Lemma detect_netloc_build n t :
  netloc_ok chk n -> head_delim t -> detect_netloc chk ("//" +:+ n +:+ t) = Some (n, t).
Proof.
  intros (Hn & _ & Hb) Ht. unfold detect_netloc.
  change (str_take 2 ("//" +:+ n +:+ t)) with "//".
  change (str_eqb "//" "//") with true. cbv iota.
  rewrite splitnetloc_build by done. by rewrite Hb.
Qed.

(** [urlsplit] of a URL that begins with a scheme and [//] and a netloc, or
    with [//] and a netloc *)
Lemma urlsplit_build s n t dflt :
  s = "" \/ scheme_ok s -> netloc_ok chk n -> head_delim t ->
  urlsplit chk (opt_scheme s +:+ "//" +:+ n +:+ t) dflt
  = Some (mkSplit (if truthy s then s else clean_scheme dflt) n
            (split_tail (remove_unsafe t)).1.1 (split_tail (remove_unsafe t)).1.2
            (split_tail (remove_unsafe t)).2).
Proof.
  intros Hs Hn Ht. rewrite urlsplit_eq.
  assert (Hclean : clean_url (opt_scheme s +:+ "//" +:+ n +:+ t)
                   = opt_scheme s +:+ "//" +:+ n +:+ remove_unsafe t).
  { unfold clean_url. rewrite lstrip_id.
    - rewrite !remove_unsafe_app.
      destruct Hn as (_ & Hsn & _). rewrite (remove_unsafe_safe n) by done.
      f_equal. destruct Hs as [->|Hs]; [done|].
      unfold opt_scheme. destruct Hs as (Hh & Hf & _).
      destruct s; [done|]. simpl truthy. cbv iota.
      rewrite remove_unsafe_app. f_equal.
      apply remove_unsafe_safe. by apply scheme_no_colon.
    - destruct Hs as [->|(Hh & _)]; [done|].
      destruct s as [|c s']; [done|]. simpl. by apply alpha_not_c0. }
  rewrite Hclean.
  assert (Hd : detect_scheme (clean_scheme dflt)
                 (opt_scheme s +:+ "//" +:+ n +:+ remove_unsafe t)
               = (if truthy s then s else clean_scheme dflt,
                  "//" +:+ n +:+ remove_unsafe t)).
  { destruct Hs as [->|Hs].
    - simpl. apply detect_scheme_slash.
    - unfold opt_scheme. destruct s as [|c s'] eqn:Es; [by destruct Hs|].
      simpl truthy. cbv iota. rewrite app_assoc.
      change (":" +:+ "//" +:+ n +:+ remove_unsafe t)
        with (String ":" ("//" +:+ n +:+ remove_unsafe t)).
      by apply detect_scheme_build. }
  rewrite Hd. cbn [fst snd].
  rewrite detect_netloc_build; [done|done|by apply head_delim_remove_unsafe].
Qed.

End Split.

(** [find] from an index, [rfind] *)
Lemma find_from_spec c r s i :
  str_find_from c r s = Some i ->
  (r <= i)%nat /\ str_drop i s = String c (str_drop (S i) s).
Proof.
  revert s i. induction r as [|r IH]; intros s i; simpl.
  - intros H. split; [lia|]. by apply drop_find.
  - destruct s as [|a s]; [done|].
    destruct (str_find_from c r s) as [j|] eqn:E; simpl; [|done].
    intros [= <-]. destruct (IH _ _ E) as [? ?]. split; [lia|done].
Qed.

Lemma find_app_some c a b j : str_find c a = Some j -> str_find c (a +:+ b) = Some j.
Proof.
  revert j. induction a as [|x a IH]; simpl; [done|].
  destruct (chr_eqb x c); [done|].
  destruct (str_find c a) as [k|]; simpl; [|done].
  intros j [= <-]. by rewrite (IH k).
Qed.

Lemma find_from_app_self c r a b :
  str_find_from c r (a +:+ String c b) = Some (str_len a) ->
  str_find_from c r a = None.
Proof.
  revert a. induction r as [|r IH]; intros a; simpl.
  - intros H. destruct (str_find c a) as [j|] eqn:E; [|done].
    rewrite (find_app_some _ _ _ _ E) in H. injection H as ->.
    apply find_lt_len in E. lia.
  - destruct a as [|x a]; simpl; [done|].
    destruct (str_find_from c r (a +:+ String c b)) as [j|] eqn:E; simpl; [|done].
    intros [= Hj]. unfold str_len in Hj. simpl in Hj.
    rewrite IH; [done|]. rewrite E. f_equal. unfold str_len. lia.
Qed.

Lemma rfind_none c s : str_rfind c s = None <-> str_contains c s = false.
Proof.
  induction s as [|a s IH]; simpl; [done|].
  destruct (str_rfind c s) as [i|]; simpl.
  - split; [done|]. intros [_ H]%orb_false_iff. by apply IH in H.
  - destruct (chr_eqb a c); simpl; [done|]. by rewrite <- IH.
Qed.

Lemma rfind_app_notin c a b :
  str_contains c b = false -> str_rfind c (a +:+ b) = str_rfind c a.
Proof.
  intros H. induction a as [|x a IH]; simpl.
  - by apply rfind_none.
  - by rewrite IH.
Qed.

Lemma rfind_spec c s r :
  str_rfind c s = Some r ->
  str_drop r s = String c (str_drop (S r) s)
  /\ forall i, (r <= i)%nat -> str_contains c (str_drop (S i) s) = false.
Proof.
  revert r. induction s as [|a s IH]; simpl; [done|].
  destruct (str_rfind c s) as [k|] eqn:E.
  - intros r [= <-]. destruct (IH _ eq_refl) as [H1 H2]. split; [done|].
    intros [|i] Hi; [lia|]. apply H2. lia.
  - destruct (chr_eqb a c) eqn:Ea; [|done]. intros r [= <-].
    apply chr_eqb_eq in Ea as ->. split; [done|].
    intros i _. apply contains_drop. by apply rfind_none.
Qed.

Lemma contains_take_at c s r t i :
  str_drop r s = String c t -> (r < i)%nat -> str_contains c (str_take i s) = true.
Proof.
  revert s i. induction r as [|r IH]; intros s i; simpl.
  - intros -> Hi. destruct i; [lia|]. simpl. by rewrite chr_eqb_refl.
  - destruct s as [|a s]; [done|]. intros H Hi. destruct i; [lia|]. simpl.
    rewrite (IH s i); [by rewrite orb_true_r|done|lia].
Qed.

(** The params *)
Lemma take_pos_head a u i : (0 < i)%nat -> str_take i (String a u) = String a (str_take (i - 1) u).
Proof. destruct i; [lia|]. simpl. by rewrite Nat.sub_0_r. Qed.

Lemma splitparams_cases url a b :
  str_contains ";" url = true -> _splitparams url = (a, b) ->
  (a = url /\ b = ""
   /\ str_find_from ";" (default O (str_rfind "/" url)) url = None
   /\ str_contains "/" url = true)
  \/ exists i, a = str_take i url /\ b = str_drop (S i) url
        /\ str_drop i url = String ";" b
        /\ (str_contains "/" url = false /\ str_contains ";" a = false
            \/ exists r, str_rfind "/" url = Some r /\ (r < i)%nat
                 /\ str_find_from ";" r url = Some i).
Proof.
  intros Hsemi. unfold _splitparams.
  destruct (str_contains "/" url) eqn:Hs.
  - destruct (str_rfind "/" url) as [r|] eqn:Hr.
    2:{ apply rfind_none in Hr. congruence. }
    simpl. destruct (str_find_from ";" r url) as [i|] eqn:Hf.
    + intros [= <- <-]. right. exists i.
      destruct (find_from_spec _ _ _ _ Hf) as [Hle Hd].
      split_and!; try done. right. exists r. split_and!; try done.
      destruct (rfind_spec _ _ _ Hr) as [Hdr _].
      destruct (decide (r = i)) as [->|]; [|lia]. congruence.
    + intros [= <- <-]. left. done.
  - destruct (str_find ";" url) as [i|] eqn:Hf.
    + intros [= <- <-]. right. exists i.
      destruct (find_some _ _ _ Hf) as (_ & Hc & _).
      split_and!; try done; [by apply drop_find | by left].
    + apply find_none in Hf. congruence.
Qed.

Lemma split_params_app s url a b :
  split_params s url = (a, b) ->
  url = a +:+ opt_params b \/ (b = "" /\ url = a +:+ ";").
Proof.
  unfold split_params.
  destruct (str_in s uses_params && str_contains ";" url) eqn:E.
  - apply andb_true_iff in E as [_ E]. intros H.
    destruct (splitparams_cases _ _ _ E H) as [(-> & -> & _)|(i & -> & Hb & Hd & _)].
    + left. by rewrite app_nil_r.
    + assert (Hurl : url = str_take i url +:+ String ";" b).
      { rewrite <- Hd. symmetry. apply take_drop. }
      unfold opt_params. destruct b; [right; done | left; exact Hurl].
  - intros [= <- <-]. left. by rewrite app_nil_r.
Qed.

Lemma split_params_slash s url a b :
  split_params s url = (a, b) ->
  str_contains "/" b = false
  /\ (head_slash url -> head_slash a /\ (b <> "" -> a <> "")).
Proof.
  unfold split_params.
  destruct (str_in s uses_params && str_contains ";" url) eqn:E.
  - apply andb_true_iff in E as [_ E]. intros H.
    destruct (splitparams_cases _ _ _ E H)
      as [(-> & -> & _)|(i & -> & Hb & Hd & Hcase)]; [done|].
    split.
    + destruct Hcase as [[Hn _]|(r & Hr & Hlt & _)].
      * rewrite Hb. by apply contains_drop.
      * rewrite Hb. destruct (rfind_spec _ _ _ Hr) as [_ Hall]. apply Hall. lia.
    + destruct url as [|x u]; [by destruct i|]. simpl. intros ->.
      destruct i as [|i]; [simpl in Hd; congruence|]. simpl. done.
  - intros [= <- <-]. done.
Qed.

Lemma split_params_keep s url a b :
  split_params s url = (a, b) ->
  (forall c, str_contains c url = false -> str_contains c a = false /\ str_contains c b = false)
  /\ (safe url -> safe a /\ safe b).
Proof.
  intros H.
  assert (Hc : forall c, str_contains c url = false ->
                 str_contains c a = false /\ str_contains c b = false).
  { intros c Hc. destruct (split_params_app _ _ _ _ H) as [->|[-> ->]].
    - rewrite contains_app in Hc. apply orb_false_iff in Hc as [? Hc]. split; [done|].
      unfold opt_params in Hc. destruct b; [done|]. simpl in Hc. simpl.
      by apply orb_false_iff in Hc as [_ ?].
    - rewrite contains_app in Hc. by apply orb_false_iff in Hc as [? _]. }
  split; [done|]. intros (H1 & H2 & H3). unfold safe.
  destruct (Hc _ H1), (Hc _ H2), (Hc _ H3). done.
Qed.

(** Dropping the params when they are empty and splitting again changes
    nothing. *)
Lemma split_params_again s url a :
  split_params s url = (a, "") -> split_params s a = (a, "").
Proof.
  unfold split_params.
  destruct (str_in s uses_params) eqn:Es; simpl; [|by intros [= <-]].
  destruct (str_contains ";" url) eqn:E; [|by intros [= <-]; rewrite E].
  intros H. destruct (str_contains ";" a) eqn:Ea; [|done].
  destruct (splitparams_cases _ _ _ E H)
    as [(-> & _ & Hnone & Hsl)|(i & Ha & Hb & Hd & Hcase)].
  - unfold _splitparams. by rewrite Hsl, Hnone.
  - destruct Hcase as [[_ Hn]|(r & Hr & Hlt & Hf)]; [congruence|].
    assert (Hurl : url = a +:+ String ";" "").
    { rewrite <- (take_drop i url), Hd, <- Ha. done. }
    assert (Hra : str_rfind "/" a = Some r).
    { rewrite <- Hr, Hurl. symmetry. by apply rfind_app_notin. }
    unfold _splitparams.
    destruct (rfind_spec _ _ _ Hr) as [Hdr _].
    rewrite Ha at 1. rewrite (contains_take_at _ _ _ _ _ Hdr Hlt).
    rewrite Hra. simpl.
    rewrite (find_from_app_self ";" r a ""); [done|].
    rewrite <- Hurl, Hf. f_equal. rewrite Ha.
    apply find_from_spec in Hf as [_ Hf].
    symmetry. apply len_take_le.
    assert (i < str_len url)%nat; [|lia].
    clear -Hf. revert Hf. generalize (str_drop (S i) url). revert url.
    induction i as [|i IH]; intros [|x u] t; simpl; try done.
    + intros _. unfold str_len. simpl. lia.
    + intros H. specialize (IH _ _ H). unfold str_len in *. simpl. lia.
Qed.

(** Last characters *)
Lemma snoc_cases s : s = "" \/ exists a d, s = a +:+ String d "".
Proof.
  induction s as [|x s IH]; [by left|]. right.
  destruct IH as [->|(a & d & ->)].
  - by exists "", x.
  - by exists (String x a), d.
Qed.

Lemma endswith_snoc c a d : str_endswith (String c "") (a +:+ String d "") = chr_eqb d c.
Proof.
  unfold str_endswith. rewrite len_app.
  replace (str_len (String c "")) with 1%nat by done.
  replace (str_len (String d "")) with 1%nat by done.
  replace (str_len a + 1 - 1)%nat with (str_len a) by lia.
  rewrite drop_app.
  replace (1 <=? str_len a + 1)%nat with true by (symmetry; apply Nat.leb_le; lia).
  simpl. unfold str_eqb. simpl. unfold chr_eqb.
  by destruct (Stdlib.Strings.Ascii.eqb d c).
Qed.

Lemma endswith_nil c : str_endswith (String c "") "" = false.
Proof. done. Qed.

Lemma take_snoc a d : str_take (str_len (a +:+ String d "") - 1) (a +:+ String d "") = a.
Proof.
  rewrite len_app. replace (str_len a + str_len (String d "") - 1)%nat with (str_len a).
  - apply take_app.
  - unfold str_len. simpl. lia.
Qed.

Lemma endswith_app c x y :
  y <> "" -> str_endswith (String c "") (x +:+ y) = str_endswith (String c "") y.
Proof.
  intros Hy. destruct (snoc_cases y) as [->|(a & d & ->)]; [done|].
  rewrite <- app_assoc. by rewrite !endswith_snoc.
Qed.

Lemma endswith_contains c s : str_endswith (String c "") s = true -> str_contains c s = true.
Proof.
  destruct (snoc_cases s) as [->|(a & d & ->)]; [done|].
  rewrite endswith_snoc, contains_app. intros ->%chr_eqb_eq. simpl.
  by rewrite chr_eqb_refl, orb_true_r.
Qed.

Lemma app_snoc_inj a b d e : a +:+ String d "" = b +:+ String e "" -> a = b /\ d = e.
Proof.
  revert b. induction a as [|x a IH]; intros [|y b]; simpl.
  - by intros [= ->].
  - destruct b; simpl; intros [=].
  - destruct a; simpl; intros [=].
  - intros [= -> H]. by destruct (IH _ H) as [-> ->].
Qed.

Section Parse.

Variable chk : string -> bool.

Lemma detect_scheme_sound d w s rest :
  detect_scheme d w = (s, rest) -> safe w ->
  (s = d \/ scheme_ok s) /\ safe rest.
Proof.
  unfold detect_scheme. intros H Hw.
  destruct (str_find ":" w) as [[|i]|]; [by injection H as <- <-; auto| |by injection H as <- <-; auto].
  destruct w as [|c0 w']; [by injection H as <- <-; auto|].
  match type of H with context [if ?b then _ else _] => destruct b eqn:Hf end;
    [|by injection H as <- <-; auto].
  apply pair_equal_spec in H as [<- <-]. split; [|by apply safe_drop].
  right. apply andb_true_iff in Hf as [Ha Hf].
  change (str_take (S i) (String c0 w')) with (String c0 (str_take i w')) in *.
  destruct (forall_lower_scheme _ Hf) as [Hf1 Hf2].
  unfold scheme_ok. split_and!; [|done|done].
  simpl. by apply alpha_lower.
Qed.

Lemma detect_scheme_rest d1 d2 w : (detect_scheme d1 w).2 = (detect_scheme d2 w).2.
Proof.
  unfold detect_scheme. repeat case_match; done.
Qed.

Lemma netloc_ok_nil : netloc_ok chk "".
Proof. done. Qed.

Lemma detect_netloc_sound rest n t :
  detect_netloc chk rest = Some (n, t) -> safe rest ->
  netloc_ok chk n /\ safe t /\ (n <> "" -> head_delim t).
Proof.
  unfold detect_netloc. intros H Hs.
  destruct (str_eqb (str_take 2 rest) "//") eqn:E.
  - destruct rest as [|a [|b rest']];
      [done|by apply str_eqb_eq in E|].
    rewrite splitnetloc_2 in H.
    destruct (netloc_brackets_ok chk _) eqn:Hb; [|done].
    injection H as <- <-.
    apply safe_cons in Hs as [_ Hs]. apply safe_cons in Hs as [_ Hs].
    destruct (first_delim_sound rest') as [Hn Ht].
    split_and!; auto using safe_take, safe_drop.
    split_and!; auto using safe_take.
  - injection H as <- <-. split_and!; auto using netloc_ok_nil. done.
Qed.

Lemma urlsplit_sound url dflt r :
  urlsplit chk url dflt = Some r ->
  (s_scheme r = clean_scheme dflt \/ scheme_ok (s_scheme r))
  /\ netloc_ok chk (s_netloc r)
  /\ (s_netloc r <> "" -> head_slash (s_url r))
  /\ str_contains "?" (s_url r) = false /\ str_contains "#" (s_url r) = false
  /\ str_contains "#" (s_query r) = false
  /\ safe (s_url r) /\ safe (s_query r).
Proof.
  rewrite urlsplit_eq.
  destruct (detect_scheme (clean_scheme dflt) (clean_url url)) as [s rest] eqn:Ed.
  cbn [fst snd].
  destruct (detect_netloc chk rest) as [[n t]|] eqn:En; [|done].
  intros [= <-]. cbn [s_scheme s_netloc s_url s_query].
  destruct (detect_scheme_sound _ _ _ _ Ed (safe_remove_unsafe _)) as [Hs Hrest].
  destruct (detect_netloc_sound _ _ _ En Hrest) as (Hn & Ht & Hh).
  destruct (split_tail_sound t) as (H1 & H2 & H3 & H4 & H5).
  destruct (H4 Ht) as (? & ? & _).
  split_and!; auto.
Qed.

Lemma urlsplit_default url d1 d2 :
  is_Some (urlsplit chk url d1) -> is_Some (urlsplit chk url d2).
Proof.
  rewrite !urlsplit_eq, (detect_scheme_rest (clean_scheme d1) (clean_scheme d2)).
  destruct (detect_netloc chk _) as [[n t]|]; [eauto|]. by intros [? ?].
Qed.

Lemma urlparse_eq url dflt :
  urlparse chk url dflt =
  match urlsplit chk url dflt with
  | None => None
  | Some r =>
      Some (mkParse (s_scheme r) (s_netloc r)
              (split_params (s_scheme r) (s_url r)).1
              (split_params (s_scheme r) (s_url r)).2
              (s_query r) (s_fragment r))
  end.
Proof.
  unfold urlparse, split_params. destruct (urlsplit chk url dflt) as [r|]; [|done].
  simpl. repeat case_match; simplify_eq/=; done.
Qed.

Lemma urlparse_default url d1 d2 :
  is_Some (urlparse chk url d1) -> is_Some (urlparse chk url d2).
Proof.
  rewrite !urlparse_eq. intros H.
  destruct (urlsplit_default url d1 d2) as [r Hr].
  - destruct (urlsplit chk url d1); [eauto|]. by destruct H.
  - rewrite Hr. eauto.
Qed.

Lemma safe_opt_query q : safe q -> safe (opt_query q).
Proof.
  unfold opt_query. destruct q; [done|]. intros H. cbn [truthy].
  change ("?" +:+ String a q) with (String "?" (String a q)).
  apply safe_cons. done.
Qed.

Lemma urlparse_assemble s n pp q :
  wf_parts chk s n pp q ->
  urlparse chk (assemble s n pp q) ""
  = Some (mkParse s n (split_params s pp).1 (split_params s pp).2 q "").
Proof.
  intros [Hs Hn Hh H1 H2 H3 H4 H5]. rewrite urlparse_eq. unfold assemble.
  rewrite urlsplit_build; [|done|done|].
  2:{ destruct pp as [|x pp]; simpl in *.
      - unfold opt_query. by destruct q.
      - by subst x. }
  rewrite remove_unsafe_safe.
  2:{ apply safe_app. split; [done|]. by apply safe_opt_query. }
  rewrite split_tail_build by done. cbn [fst snd s_scheme s_netloc s_url s_query s_fragment].
  by destruct s.
Qed.

Lemma urlunparse_assemble s n a b q :
  n <> "" -> head_slash a -> (b <> "" -> a <> "") ->
  urlunparse s n a b q "" = assemble s n (a +:+ opt_params b) q.
Proof.
  intros Hn Ha Hb. unfold urlunparse, urlunsplit, assemble, opt_params, opt_scheme, opt_query.
  apply truthy_true in Hn. rewrite Hn. cbn [orb].
  assert (Hhead : forall x, head_slash x ->
            (if truthy x && negb (str_eqb (str_take 1 x) "/") then "/" +:+ x else x) = x).
  { intros [|c x]; simpl; [done|]. intros ->. by destruct x. }
  destruct (truthy b) eqn:Eb.
  - rewrite Hhead.
    2:{ destruct a as [|c a]; [|done]. apply truthy_true in Eb. by destruct Hb. }
    destruct (truthy s), (truthy q); cbn [truthy]; rewrite ?app_assoc, ?app_nil_r; done.
  - rewrite Hhead by done.
    destruct (truthy s), (truthy q); cbn [truthy]; rewrite ?app_assoc, ?app_nil_r; done.
Qed.

(** What a successful [urlparse] with a non-empty netloc returns. *)
Lemma urlparse_wf u p :
  urlparse chk u "" = Some p -> netloc p <> "" ->
  wf_parts chk (scheme p) (netloc p) (path p +:+ opt_params (params p)) (query p)
  /\ split_params (scheme p) (path p +:+ opt_params (params p)) = (path p, params p)
  /\ head_slash (path p) /\ (params p <> "" -> path p <> "")
  /\ str_contains "/" (params p) = false.
Proof.
  rewrite urlparse_eq. destruct (urlsplit chk u "") as [r|] eqn:Er; [|done].
  intros [= <-]. cbn [scheme netloc path params query]. intros Hne.
  destruct (urlsplit_sound _ _ _ Er) as (Hs & Hn & Hh & H1 & H2 & H3 & H4 & H5).
  destruct (split_params (s_scheme r) (s_url r)) as [a b] eqn:Esp. cbn [fst snd].
  destruct (split_params_slash _ _ _ _ Esp) as [Hb Hsl].
  destruct (Hsl (Hh Hne)) as [Ha Hab].
  destruct (split_params_keep _ _ _ _ Esp) as [Hk Hsafe].
  destruct (Hk _ H1) as [Hqa Hqb]. destruct (Hk _ H2) as [Hfa Hfb].
  destruct (Hsafe H4) as [Hsa Hsb].
  assert (Hsplit : split_params (s_scheme r) (a +:+ opt_params b) = (a, b)).
  { destruct b as [|c b].
    - simpl. rewrite app_nil_r. by apply (split_params_again _ (s_url r)).
    - destruct (split_params_app _ _ _ _ Esp) as [<-|[? _]]; done. }
  assert (Hopt : forall c, chr_eqb ";" c = false -> str_contains c b = false ->
                   str_contains c (a +:+ opt_params b) = str_contains c a).
  { intros c Hc Hcb. rewrite contains_app. unfold opt_params.
    destruct b as [|y b]; [by rewrite orb_false_r|]. cbn [truthy].
    change (";" +:+ String y b) with (String ";" (String y b)).
    change (str_contains c (String ";" (String y b)))
      with (chr_eqb ";" c || str_contains c (String y b)).
    by rewrite Hc, Hcb, orb_false_r. }
  split_and!; try done.
  split; try done.
  - destruct a as [|x a]; [|done]. destruct b; [done|]. by destruct Hab.
  - by rewrite Hopt.
  - by rewrite Hopt.
  - apply safe_app. split; [done|]. unfold opt_params. destruct b as [|y b]; [done|].
    cbn [truthy]. change (";" +:+ String y b) with (String ";" (String y b)).
    by apply safe_cons.
Qed.

End Parse.
End StrFacts.

(** * Facts about [normalize_url] *)

Module NormalizeFacts.
Import Urllib Crawler Notions StrFacts.
Local Close Scope Z_scope.
#[local] Arguments String.append : simpl nomatch.

Section Normalize.

Variable chk : string -> bool.

Abbreviation urlparse := (Urllib.urlparse chk).
Abbreviation normalize_url := (Crawler.normalize_url chk).

Lemma normalize_eq u :
  normalize_url u = (fun p => strip_rule (rebuild p) (path p)) <$> urlparse u "".
Proof. unfold Crawler.normalize_url. by destruct (urlparse u ""). Qed.

Lemma rebuild_assemble u p :
  urlparse u "" = Some p -> netloc p <> "" ->
  rebuild p = assemble (scheme p) (netloc p) (path p +:+ opt_params (params p)) (query p).
Proof.
  intros Hp Hn. destruct (urlparse_wf chk _ _ Hp Hn) as (_ & _ & Hh & Hb & _).
  unfold rebuild. by apply urlunparse_assemble.
Qed.

(** The rebuilt URL parses into the components it was built from. *)
Lemma urlparse_rebuild u p :
  urlparse u "" = Some p -> netloc p <> "" ->
  urlparse (rebuild p) ""
  = Some (mkParse (scheme p) (netloc p) (path p) (params p) (query p) "").
Proof.
  intros Hp Hn. rewrite (rebuild_assemble _ _ Hp Hn).
  destruct (urlparse_wf chk _ _ Hp Hn) as (Hwf & Hsp & _).
  rewrite (urlparse_assemble chk _ _ _ _ Hwf), Hsp. done.
Qed.

Lemma normalize_rebuilt u p :
  urlparse u "" = Some p -> netloc p <> "" ->
  normalize_url (rebuild p) = Some (strip_rule (rebuild p) (path p)).
Proof.
  intros Hp Hn. rewrite normalize_eq, (urlparse_rebuild _ _ Hp Hn). done.
Qed.

Lemma strip_rule_fired r pth v :
  strip_rule r pth = v -> v <> r ->
  r = v +:+ "/" /\ (1 < str_len pth)%nat.
Proof.
  unfold strip_rule. destruct (str_endswith "/" r) eqn:E; simpl; [|congruence].
  destruct (1 <? str_len pth)%nat eqn:E2; [|congruence].
  intros <- _. apply Nat.ltb_lt in E2. split; [|done].
  destruct (snoc_cases r) as [->|(a & d & ->)]; [by cbv in E|].
  rewrite endswith_snoc in E. apply chr_eqb_eq in E as ->. by rewrite take_snoc.
Qed.

Lemma strip_rule_keep r pth : str_endswith "/" r = false -> strip_rule r pth = r.
Proof. unfold strip_rule. by intros ->. Qed.

Lemma assemble_snoc_path s n pp c : assemble s n (pp +:+ String c "") "" = assemble s n pp "" +:+ String c "".
Proof.
  unfold assemble, opt_query. cbn [truthy]. by rewrite !app_nil_r, !app_assoc.
Qed.

Lemma assemble_snoc_query s n pp q c :
  q <> "" -> assemble s n pp (q +:+ String c "") = assemble s n pp q +:+ String c "".
Proof.
  intros Hq. unfold assemble, opt_query. destruct q as [|y q]; [done|].
  cbn [truthy String.append]. rewrite !app_assoc. simpl. by rewrite !app_assoc.
Qed.

Lemma assemble_nil s n : assemble s n "" "" = (opt_scheme s +:+ "//") +:+ n.
Proof.
  unfold assemble, opt_query. cbn [truthy]. change ("" +:+ "") with "".
  by rewrite app_nil_r, app_assoc.
Qed.

Lemma head_slash_prefix a b : head_slash (a +:+ b) -> a = "" \/ head_slash a.
Proof. destruct a; simpl; auto. Qed.

Theorem normalize_idem_cases u p v :
  urlparse u "" = Some p -> netloc p <> "" ->
  normalize_url u = Some v ->
  v = rebuild p
  \/ (str_endswith "/" v = false /\ str_endswith "?" v = false
      /\ str_endswith ";" v = false) ->
  normalize_url v = Some v.
Proof.
  intros Hp Hn Hv Hcase. rewrite normalize_eq, Hp in Hv. simpl in Hv.
  injection Hv as Hv.
  destruct (decide (v = rebuild p)) as [->|Hne].
  { rewrite (normalize_rebuilt _ _ Hp Hn). by rewrite Hv. }
  destruct Hcase as [?|(Hv1 & Hv2 & Hv3)]; [done|].
  destruct (strip_rule_fired _ _ _ Hv Hne) as [Hr Hlen].
  destruct (urlparse_wf chk _ _ Hp Hn) as (Hwf & Hsp & Hhp & Hparams & Hpsl).
  rewrite (rebuild_assemble _ _ Hp Hn) in Hr.
  destruct Hwf as [Hs Hnok Hh Hq1 Hf1 Hsafe1 Hf2 Hsafe2].
  destruct (query p) as [|qc q0] eqn:Eq.
  - (* no query: the slash ends the path *)
    set (pp := path p +:+ opt_params (params p)) in *.
    destruct (snoc_cases pp) as [Hpp|(pp' & d & Hpp)].
    { exfalso. rewrite Hpp, assemble_nil in Hr.
      assert (Hend : str_endswith "/" ((opt_scheme (scheme p) +:+ "//") +:+ netloc p) = true).
      { rewrite Hr. apply (endswith_snoc "/" v "/"). }
      rewrite endswith_app in Hend by done.
      apply endswith_contains in Hend. destruct Hnok as ((Hc & _) & _). congruence. }
    rewrite Hpp, assemble_snoc_path in Hr.
    apply (app_snoc_inj _ v) in Hr as [Hr ->]. clear Hv Hne. subst v.
    assert (Hwf' : wf_parts chk (scheme p) (netloc p) pp' "").
    { rewrite Hpp in Hh, Hq1, Hf1, Hsafe1.
      rewrite contains_app in Hq1, Hf1. apply orb_false_iff in Hq1 as [? _].
      apply orb_false_iff in Hf1 as [? _]. apply safe_app in Hsafe1 as [? _].
      split; try done.
      destruct (head_slash_prefix _ _ Hh) as [->|?]; done. }
    rewrite normalize_eq, (urlparse_assemble chk _ _ _ _ Hwf'). simpl. f_equal.
    destruct (split_params (scheme p) pp') as [a' b'] eqn:Esp'. cbn [fst snd].
    destruct (split_params_slash _ _ _ _ Esp') as [_ Hsl].
    destruct (Hsl (wf_head _ _ _ _ _ Hwf')) as [Ha' Hb'].
    unfold rebuild. cbn [scheme netloc path params query].
    rewrite urlunparse_assemble by done.
    destruct (split_params_app _ _ _ _ Esp') as [<-|[-> Hsemi]].
    + by apply strip_rule_keep.
    + exfalso. rewrite Hsemi, assemble_snoc_path, endswith_snoc in Hv3. done.
  - (* a query: the slash ends the query *)
    set (pp := path p +:+ opt_params (params p)) in *.
    destruct (snoc_cases (String qc q0)) as [?|(q' & d & Hq)]; [done|].
    rewrite Hq in *.
    destruct q' as [|y q'].
    { exfalso. simpl in Hr. unfold assemble, opt_query in Hr. simpl in Hr.
      assert (v = (opt_scheme (scheme p) +:+ "//" +:+ netloc p +:+ pp) +:+ "?").
      { apply (app_snoc_inj _ _ "/" d).
        rewrite <- Hr. by rewrite !app_assoc. }
      clear Hv Hne Hr. subst v. by rewrite endswith_snoc in Hv2. }
    rewrite assemble_snoc_query in Hr by done.
    apply (app_snoc_inj _ v) in Hr as [Hr ->]. clear Hv Hne. subst v.
    assert (Hwf' : wf_parts chk (scheme p) (netloc p) pp (String y q')).
    { rewrite contains_app in Hf2. apply orb_false_iff in Hf2 as [? _].
      apply safe_app in Hsafe2 as [? _]. split; done. }
    rewrite normalize_eq, (urlparse_assemble chk _ _ _ _ Hwf'). simpl. f_equal.
    rewrite Hsp. cbn [fst snd]. unfold rebuild. cbn [scheme netloc path params query].
    rewrite urlunparse_assemble by done.
    by apply strip_rule_keep.
Qed.

End Normalize.
End NormalizeFacts.

(** * Facts about [urljoin] *)

Module JoinFacts.
Import Urllib Crawler Notions StrFacts NormalizeFacts.
Local Close Scope Z_scope.
#[local] Arguments String.append : simpl nomatch.

Lemma http_cases s : str_in s ["http"; "https"] = true -> s = "http" \/ s = "https".
Proof.
  unfold str_in. simpl. rewrite orb_false_r.
  intros [H|H]%orb_true_iff; apply str_eqb_eq in H; auto.
Qed.

Lemma http_scheme_ok s : str_in s ["http"; "https"] = true ->
  scheme_ok s /\ str_in s uses_relative = true /\ str_in s uses_netloc = true.
Proof. intros [->| ->]%http_cases; done. Qed.

(** The shape of what [urlunparse] returns for a non-empty netloc *)
Lemma urlunparse_shape s n pth prm q f :
  n <> "" ->
  exists t, head_delim t /\ urlunparse s n pth prm q f = opt_scheme s +:+ "//" +:+ n +:+ t.
Proof.
  intros Hn. unfold urlunparse, urlunsplit, opt_scheme.
  apply truthy_true in Hn. rewrite Hn. cbn [orb].
  set (X := if truthy prm then pth +:+ ";" +:+ prm else pth).
  set (Y := if truthy X && negb (str_eqb (str_take 1 X) "/") then "/" +:+ X else X).
  assert (HY : head_slash Y).
  { subst Y. destruct X as [|c X]; [done|]. cbn [truthy andb].
    destruct (str_eqb (str_take 1 (String c X)) "/") eqn:E; [|done].
    apply str_eqb_eq in E. simpl in E. destruct X; simpl in E; by injection E as ->. }
  exists (Y +:+ (if truthy q then "?" +:+ q else "") +:+ (if truthy f then "#" +:+ f else "")).
  split.
  - destruct Y as [|c Y]; [|by simpl in *; subst c].
    destruct q; [|done]. by destruct f.
  - destruct (truthy s), (truthy q), (truthy f); cbn [truthy];
      rewrite ?app_assoc, ?app_nil_r; simpl; rewrite ?app_assoc, ?app_nil_r; done.
Qed.

Section Join.

Variable chk : string -> bool.

Abbreviation urlparse := (Urllib.urlparse chk).
Abbreviation urljoin := (Urllib.urljoin chk).
Abbreviation normalize_url := (Crawler.normalize_url chk).

Lemma urlparse_urlunparse s n pth prm q f dflt :
  scheme_ok s -> netloc_ok chk n -> n <> "" ->
  exists p', urlparse (urlunparse s n pth prm q f) dflt = Some p'
             /\ scheme p' = s /\ netloc p' = n.
Proof.
  intros Hs Hn Hne. destruct (urlunparse_shape s n pth prm q f Hne) as (t & Ht & ->).
  rewrite urlparse_eq, urlsplit_build by auto.
  eexists. split; [done|]. cbn [scheme netloc s_scheme s_netloc].
  destruct s; [by destruct Hs|done].
Qed.

Lemma urlparse_netloc_ok url dflt p : urlparse url dflt = Some p -> netloc_ok chk (netloc p).
Proof.
  rewrite urlparse_eq. destruct (urlsplit chk url dflt) as [r|] eqn:E; [|done].
  intros [= <-]. apply (urlsplit_sound chk _ _ _ E).
Qed.

Lemma normalize_is_Some a : is_Some (urlparse a "") -> is_Some (normalize_url a).
Proof. rewrite normalize_eq. intros [p ->]. by eexists. Qed.

Lemma truthy_urlunparse s n pth prm q f :
  n <> "" -> truthy (urlunparse s n pth prm q f) = true.
Proof.
  intros Hn. destruct (urlunparse_shape s n pth prm q f Hn) as (t & _ & ->).
  unfold opt_scheme. destruct s; done.
Qed.

Lemma urlparse_found_scheme u p d :
  urlparse u "" = Some p -> scheme p <> "" -> urlparse u d = Some p.
Proof.
  rewrite !urlparse_eq, !urlsplit_eq.
  rewrite (detect_scheme_rest (clean_scheme d) (clean_scheme "")).
  destruct (detect_netloc chk _) as [[n t]|]; [|done].
  intros [= <-]. cbn [scheme]. intros Hs.
  assert (E : (detect_scheme (clean_scheme d) (clean_url u)).1
              = (detect_scheme (clean_scheme "") (clean_url u)).1).
  { revert Hs. unfold detect_scheme. repeat case_match; simpl; try done. }
  cbn [s_scheme s_netloc s_url s_query s_fragment]. by rewrite E.
Qed.

(** Joining the current URL with a URL that [urlunparse] made from its scheme
    and a netloc that parsed gives a URL that parses. *)
Lemma rejoin cur b n pth prm q f :
  urlparse cur "" = Some b -> str_in (scheme b) ["http"; "https"] = true ->
  cur <> "" -> netloc_ok chk n -> n <> "" ->
  link_ok chk cur (urlunparse (scheme b) n pth prm q f).
Proof.
  intros Hb Hhttp Hcur Hn Hne.
  destruct (http_scheme_ok _ Hhttp) as (Hs & Hrel & Hnl).
  destruct (urlparse_urlunparse (scheme b) n pth prm q f (scheme b) Hs Hn Hne)
    as (p' & Hp' & Hs' & Hn').
  unfold link_ok, Urllib.urljoin.
  apply truthy_true in Hcur. rewrite Hcur, truthy_urlunparse by done.
  cbn [negb]. rewrite Hb. cbn [mbind option_bind]. rewrite Hp'. cbn [mbind option_bind].
  rewrite Hs', str_eqb_refl, Hrel, Hnl, Hn'. cbn [negb orb andb].
  apply truthy_true in Hne. rewrite Hne. eexists. split; [done|].
  apply normalize_is_Some. apply truthy_true in Hne.
  destruct (urlparse_urlunparse (scheme b) n (path p') (params p') (query p')
              (fragment p') "" Hs Hn Hne) as (p2 & -> & _). by eexists.
Qed.

Lemma fetchable_nonempty cur : fetchable chk cur -> cur <> "".
Proof. intros (p & Hp & _ & Hn) ->. apply Hn. by injection Hp as <-. Qed.

(** What [urljoin] returns for a fetched page and any link can be resolved
    against that page again and normalized. *)
Lemma urljoin_output_ok cur href L :
  fetchable chk cur -> urljoin cur href = Some L -> link_ok chk cur L.
Proof.
  intros Hf. pose proof (fetchable_nonempty _ Hf) as Hcur.
  destruct Hf as (b & Hb & Hhttp & Hbn).
  destruct (http_scheme_ok _ Hhttp) as (Hs & Hrel & Hnl).
  pose proof (urlparse_netloc_ok _ _ _ Hb) as Hbok.
  unfold Urllib.urljoin at 1. apply truthy_true in Hcur as Hcur'. rewrite Hcur'.
  cbn [negb].
  destruct (truthy href) eqn:Hhref; cbn [negb].
  2:{ (* an empty link: the page itself *)
    intros [= <-]. unfold link_ok, Urllib.urljoin. rewrite Hcur'. cbn [negb].
    rewrite Hb. cbn [mbind option_bind].
    rewrite (urlparse_found_scheme _ _ (scheme b) Hb) by (by destruct (scheme b), Hs).
    cbn [mbind option_bind]. rewrite str_eqb_refl, Hrel, Hnl.
    apply truthy_true in Hbn as Hbn'. rewrite Hbn'. cbn [negb orb andb].
    eexists. split; [done|]. apply normalize_is_Some.
    destruct (urlparse_urlunparse (scheme b) (netloc b) (path b) (params b) (query b)
                (fragment b) "" Hs Hbok Hbn) as (p2 & -> & _). by eexists. }
  rewrite Hb. cbn [mbind option_bind].
  destruct (urlparse href (scheme b)) as [u|] eqn:Hu; [|done]. cbn [mbind option_bind].
  destruct (negb (str_eqb (scheme u) (scheme b)) || negb (str_in (scheme u) uses_relative))
    eqn:Hdiff.
  { (* another scheme: the link is returned as it is *)
    intros [= <-]. exists href. split.
    - unfold Urllib.urljoin. rewrite Hcur', Hhref. cbn [negb]. rewrite Hb. cbn [mbind option_bind].
      rewrite Hu. cbn [mbind option_bind]. by rewrite Hdiff.
    - apply normalize_is_Some. apply (urlparse_default chk href (scheme b)). by eexists. }
  apply orb_false_iff in Hdiff as [Heq _]. apply negb_false_iff, str_eqb_eq in Heq.
  rewrite Heq, Hnl. cbn [andb].
  pose proof (urlparse_netloc_ok _ _ _ Hu) as Huok.
  destruct (truthy (netloc u)) eqn:Hun.
  { intros [= <-]. apply truthy_true in Hun. by eapply rejoin. }
  destruct (negb (truthy (path u)) && negb (truthy (params u))).
  { intros [= <-]. by eapply rejoin. }
  intros [= <-]. by eapply rejoin.
Qed.

End Join.
End JoinFacts.

(** * Facts about the steps of a crawl *)

Module CrawlFacts.
Import Urllib Crawler Notions.
Section Facts.

Variable _check_bracketed_host : string -> bool.
Variable list_of_set : list string -> list string.
Variable World : Type.
Variable session_get : World -> string -> World * Reply.

Abbreviation urlparse := (Urllib.urlparse _check_bracketed_host).
Abbreviation normalize_url := (Crawler.normalize_url _check_bracketed_host).
Abbreviation is_valid_url := (Crawler.is_valid_url _check_bracketed_host).
Abbreviation fetch_page := (Crawler.fetch_page _check_bracketed_host list_of_set session_get).
Abbreviation step := (Crawler.step _check_bracketed_host list_of_set session_get).
Abbreviation steps := (Crawler.steps _check_bracketed_host list_of_set session_get).

Implicit Types st : State World.

Lemma steps_S n st : steps (S n) st = step (steps n st).
Proof. reflexivity. Qed.

Lemma fetch_page_url w u w' pd :
  fetch_page w u = (w', Some pd) -> pd_url pd = u.
Proof.
  unfold Crawler.fetch_page. destruct (session_get w u) as [w1 [| |t c a]]; try discriminate.
  destruct (negb _); [discriminate|]. intros [= _ <-]. reflexivity.
Qed.

(** The configuration of the crawler object never changes. *)
Lemma step_config st :
  max_depth (self (step st)) = max_depth (self st)
  /\ max_pages (self (step st)) = max_pages (self st)
  /\ allow_external (self (step st)) = allow_external (self st).
Proof.
  unfold Crawler.step. repeat case_match; simpl; auto.
Qed.

Lemma steps_config n st :
  max_depth (self (steps n st)) = max_depth (self st)
  /\ max_pages (self (steps n st)) = max_pages (self st)
  /\ allow_external (self (steps n st)) = allow_external (self st).
Proof.
  induction n as [|n IH]; [done|]. rewrite steps_S.
  destruct (step_config (steps n st)) as (-> & -> & ->). exact IH.
Qed.

(** *** Budgets *)

Lemma budget_inv_step st :
  0 <= max_pages (self st) ->
  (forall s, pc st = Created s -> yielded st = [] /\ fetch_log st = []) ->
  budget_inv st -> budget_inv (step st).
Proof.
  intros Hmax Hcr (Hp & Hy & Hf & Hr). unfold budget_inv, Crawler.step.
  repeat case_match; simpl; try (split_and!; done).
  - destruct (Hcr _ eq_refl) as [-> ->]. split_and!; auto.
  - (* fetched *)
    match goal with H : Crawler.fetch_page _ _ _ _ _ = _ |- _ => apply fetch_page_url in H as Hurl end.
    rewrite negb_false_iff in *.
    repeat match goal with H : (_ <? _) = _ |- _ => first [apply Z.ltb_lt in H | apply Z.ltb_ge in H] end.
    split_and!.
    + lia.
    + rewrite length_app. simpl. lia.
    + apply Forall_app; split; [done|]. constructor; [simpl; lia | constructor].
    + apply Forall_app; split.
      * eapply Forall_impl; [exact Hr|]. intros r [d Hd]. exists d. apply elem_of_app. by left.
      * constructor; [|constructor]. simpl. rewrite Hurl. exists z. apply elem_of_app. right. by apply list_elem_of_singleton.
  - (* fetch failed *)
    repeat match goal with H : (_ <? _) = _ |- _ => first [apply Z.ltb_lt in H | apply Z.ltb_ge in H] end.
    split_and!; auto.
    + apply Forall_app; split; [done|]. constructor; [simpl; lia | constructor].
    + eapply Forall_impl; [exact Hr|]. intros r [d Hd]. exists d. apply elem_of_app. by left.
Qed.

Lemma created_logs_steps n (self0 : WebCrawler) seed w :
  let st := steps n (crawl self0 seed w) in
  forall s, pc st = Created s -> yielded st = [] /\ fetch_log st = [].
Proof.
  induction n as [|n IH]; simpl; [done|].
  intros s. fold (steps n (crawl self0 seed w)). simpl in IH.
  unfold Crawler.step. repeat case_match; simpl; try done.
  all: intros; congruence.
Qed.

Lemma budget_inv_steps n (self0 : WebCrawler) seed w :
  0 <= max_pages self0 ->
  budget_inv (steps n (crawl self0 seed w)).
Proof.
  intros Hmax. induction n as [|n IH].
  - simpl. unfold budget_inv; simpl. split_and!; auto.
  - rewrite steps_S. apply budget_inv_step; auto.
    + destruct (steps_config n (crawl self0 seed w)) as (_ & -> & _). done.
    + apply created_logs_steps.
Qed.

(** *** Each URL is fetched once *)

Lemma dedup_inv_step v0 st : dedup_inv v0 st -> dedup_inv v0 (step st).
Proof.
  intros [Hnd Hv]. unfold dedup_inv, Crawler.step.
  repeat case_match; simpl; try done.
  all: rewrite fmap_app; simpl; split;
    [ apply NoDup_app; split_and!; [done | | apply NoDup_singleton];
      intros x Hx ->%list_elem_of_singleton;
      match goal with H : bool_decide _ = false |- _ =>
        apply bool_decide_eq_false in H; apply H end;
      rewrite Hv; apply elem_of_union_r, elem_of_list_to_set; done
    | rewrite Hv, list_to_set_app_L; simpl;
      rewrite (right_id_L ∅ (∪)), (assoc_L (∪)); reflexivity ].
Qed.

Lemma dedup_inv_steps n (self0 : WebCrawler) seed w :
  dedup_inv (visited self0) (steps n (crawl self0 seed w)).
Proof.
  induction n as [|n IH].
  - split; simpl; [constructor | by rewrite (right_id_L ∅ (∪))].
  - rewrite steps_S. by apply dedup_inv_step.
Qed.

(** A dequeued entry whose URL is in [visited] is dropped: nothing is fetched,
    nothing is yielded, and [visited] stays as it is. *)
Lemma step_discard_visited st u d rest :
  pc st = LoopHead -> crawl_queue st = (u, d) :: rest ->
  pages_crawled st < max_pages (self st) ->
  u ∈ visited (self st) ->
  step st = mkState (self st) (base_domain st) rest (pages_crawled st) LoopHead
              (world st) (fetch_log st) (yielded st).
Proof.
  intros Hpc Hq Hp Hu. unfold Crawler.step. rewrite Hpc, Hq.
  apply Z.ltb_lt in Hp. rewrite Hp. simpl.
  rewrite bool_decide_eq_true_2 by done. reflexivity.
Qed.

(** A dequeued entry that is deeper than [max_depth] is dropped as well. *)
Lemma step_discard_deep st u d rest :
  pc st = LoopHead -> crawl_queue st = (u, d) :: rest ->
  pages_crawled st < max_pages (self st) ->
  max_depth (self st) < d ->
  step st = mkState (self st) (base_domain st) rest (pages_crawled st) LoopHead
              (world st) (fetch_log st) (yielded st).
Proof.
  intros Hpc Hq Hp Hd. unfold Crawler.step. rewrite Hpc, Hq.
  apply Z.ltb_lt in Hp. rewrite Hp. simpl.
  apply Z.ltb_lt in Hd. rewrite Hd. by case_match.
Qed.

(** A dequeued entry that is new and within the depth is put into [visited]
    and fetched. *)
Lemma step_fetch st u d rest :
  pc st = LoopHead -> crawl_queue st = (u, d) :: rest ->
  pages_crawled st < max_pages (self st) ->
  u ∉ visited (self st) -> d <= max_depth (self st) ->
  visited (self (step st)) = visited (self st) ∪ {[u]}
  /\ fetch_log (step st) = fetch_log st ++ [(u, d)]
  /\ crawl_queue (step st) = rest.
Proof.
  intros Hpc Hq Hp Hu Hd. unfold Crawler.step. rewrite Hpc, Hq.
  apply Z.ltb_lt in Hp. rewrite Hp. simpl.
  rewrite bool_decide_eq_false_2 by done.
  apply Z.ltb_ge in Hd. rewrite Hd.
  destruct (Crawler.fetch_page _ _ _ _ _) as [w' [pd|]]; simpl; done.
Qed.

(** Queueing the links of a page leaves the crawler object as it is. *)
Lemma step_resume_self st u d links :
  pc st = AtYield u d links ->
  self (step st) = self st /\ fetch_log (step st) = fetch_log st
  /\ yielded (step st) = yielded st.
Proof.
  intros Hpc. unfold Crawler.step. rewrite Hpc.
  repeat case_match; simpl; done.
Qed.

(** *** The first steps of a crawl *)

Lemma step_created (self0 : WebCrawler) seed w s' p :
  normalize_url seed = Some s' -> urlparse s' EmptyString = Some p ->
  step (crawl self0 seed w) = mkState self0 (netloc p) [(s', 0)] 0 LoopHead w [] [].
Proof.
  intros Hn Hp. unfold Crawler.step. simpl. rewrite Hn, Hp. reflexivity.
Qed.

Lemma first_fetch (self0 : WebCrawler) seed w s' p :
  normalize_url seed = Some s' -> urlparse s' EmptyString = Some p ->
  0 < max_pages self0 -> 0 <= max_depth self0 -> s' ∉ visited self0 ->
  fetch_log (steps 2 (crawl self0 seed w)) = [(s', 0)].
Proof.
  intros Hn Hp Hmp Hmd Hv.
  change (steps 2 (crawl self0 seed w)) with (step (step (crawl self0 seed w))).
  rewrite (step_created _ _ _ _ _ Hn Hp).
  edestruct (step_fetch (mkState self0 (netloc p) [(s', 0)] 0 LoopHead w [] []))
    as (_ & -> & _); simpl; eauto.
Qed.

(** *** Same-authority crawls *)

Lemma is_valid_url_netloc (self0 : WebCrawler) u b :
  allow_external self0 = false -> is_valid_url self0 u b = true -> has_netloc _check_bracketed_host u b.
Proof.
  intros Hae. unfold Crawler.is_valid_url. rewrite Hae. simpl.
  destruct (urlparse u EmptyString) as [p|] eqn:Hp; [|done].
  destruct (str_eqb (netloc p) b) eqn:E.
  - intros _. exists p. split; [done|]. by apply String.eqb_eq.
  - simpl. by case_match.
Qed.

Lemma enqueue_links_elem (self0 : WebCrawler) b cur d links q q' e :
  enqueue_links _check_bracketed_host self0 b cur d links q = Some q' ->
  e ∈ q' -> e ∈ q \/ (e.2 = d + 1 /\ is_valid_url self0 e.1 b = true
                      /\ e.1 ∉ visited self0).
Proof.
  revert q. induction links as [|l links IH]; intros q; simpl.
  - intros [= ->]. auto.
  - destruct (Urllib.urljoin _ cur l) as [a|]; [|done]. simpl.
    destruct (normalize_url a) as [n|]; [|done]. simpl.
    intros H He. destruct (IH _ H He) as [Hin|?]; [|by right].
    destruct (negb (bool_decide _) && _) eqn:E; [|by left].
    apply elem_of_app in Hin as [?| ->%list_elem_of_singleton]; [by left|].
    right. apply andb_true_iff in E as [E1 E2]. simpl. split_and!; auto.
    apply negb_true_iff, bool_decide_eq_false in E1. done.
Qed.

Lemma authority_inv_step seed st :
  allow_external (self st) = false ->
  authority_inv _check_bracketed_host seed st -> authority_inv _check_bracketed_host seed (step st).
Proof.
  intros Hae. unfold authority_inv, Crawler.step.
  destruct (pc st) eqn:Hpc.
  - intros (-> & Hf & Hy & Hq). unfold set_pc.
    destruct (normalize_url seed) as [s'|] eqn:Hn; simpl.
    + destruct (urlparse s' EmptyString) as [p|] eqn:Hp; simpl.
      * rewrite Hf, Hy. split_and!; auto.
        -- right. eauto.
        -- constructor; [|constructor]. by exists p.
      * rewrite Hf, Hy, Hq. split_and!; auto.
    + rewrite Hf, Hy, Hq. split_and!; auto.
  - intros (Hs & Hq & Hf & Hy).
    destruct Hs as [(?&?&?&?)|Hs]; [congruence|].
    destruct (crawl_queue st) as [|[u d] rest] eqn:Hqe; simpl.
    { rewrite Hqe. split_and!; auto. }
    pose proof Hq as Hq0. apply Forall_cons in Hq as [Hu Hq]. simpl in Hu.
    unfold set_pc.
    destruct (negb (pages_crawled st <? max_pages (self st))); simpl.
    { rewrite Hqe. split_and!; auto. }
    destruct (bool_decide (u ∈ visited (self st))); simpl.
    { split_and!; auto. }
    destruct (max_depth (self st) <? d); simpl.
    { split_and!; auto. }
    destruct (Crawler.fetch_page _ _ _ _ _) as [w' [pd|]] eqn:Hfp; simpl.
    + apply fetch_page_url in Hfp as Hurl.
      split_and!; auto.
      * apply Forall_app; split; [done|]. by constructor.
      * apply Forall_app; split; [done|]. constructor; [|done]. simpl. by rewrite Hurl.
    + split_and!; auto.
      apply Forall_app; split; [done|]. by constructor.
  - intros (Hs & Hq & Hf & Hy).
    destruct Hs as [(?&?&?&?)|Hs]; [congruence|].
    unfold set_pc.
    destruct (depth <? max_depth (self st)); simpl; [|split_and!; by auto].
    destruct (enqueue_links _ _ _ _ _ _ _) as [q'|] eqn:Henq; simpl;
      [|split_and!; by auto].
    split_and!; auto.
    apply Forall_forall. intros e He.
    destruct (enqueue_links_elem _ _ _ _ _ _ _ _ Henq He) as [Hin|(_ & Hv & _)].
    + rewrite Forall_forall in Hq. by apply Hq.
    + by eapply is_valid_url_netloc.
  - rewrite Hpc. done.
  - rewrite Hpc. done.
Qed.

Lemma authority_inv_steps n (self0 : WebCrawler) seed w :
  allow_external self0 = false ->
  authority_inv _check_bracketed_host seed (steps n (crawl self0 seed w)).
Proof.
  intros Hae. induction n as [|n IH].
  - simpl. unfold authority_inv. simpl. auto.
  - rewrite steps_S. apply authority_inv_step; [|done].
    destruct (steps_config n (crawl self0 seed w)) as (_ & _ & ->). done.
Qed.

End Facts.
End CrawlFacts.

(** * Exceptions in a crawl *)

Module NoRaise.
Import Urllib Crawler Notions CrawlFacts StrFacts NormalizeFacts JoinFacts.
Section Raise.

Variable _check_bracketed_host : string -> bool.
Variable list_of_set : list string -> list string.
Variable World : Type.
Variable session_get : World -> string -> World * Reply.

Abbreviation urlparse := (Urllib.urlparse _check_bracketed_host).
Abbreviation urljoin := (Urllib.urljoin _check_bracketed_host).
Abbreviation normalize_url := (Crawler.normalize_url _check_bracketed_host).
Abbreviation is_valid_url := (Crawler.is_valid_url _check_bracketed_host).
Abbreviation fetch_page := (Crawler.fetch_page _check_bracketed_host list_of_set session_get).
Abbreviation step := (Crawler.step _check_bracketed_host list_of_set session_get).
Abbreviation steps := (Crawler.steps _check_bracketed_host list_of_set session_get).
Abbreviation fetchable := (Notions.fetchable _check_bracketed_host).
Abbreviation link_ok := (Notions.link_ok _check_bracketed_host).

Implicit Types st : State World.

Lemma is_valid_url_unparsable (self0 : WebCrawler) u b :
  urlparse u "" = None -> is_valid_url self0 u b = false.
Proof. intros H. unfold Crawler.is_valid_url. by rewrite H. Qed.

Lemma is_valid_url_parses (self0 : WebCrawler) u b :
  is_valid_url self0 u b = true -> is_Some (urlparse u "").
Proof.
  unfold Crawler.is_valid_url. destruct (urlparse u ""); [eauto|done].
Qed.

Lemma collect_links_elem base hrefs acc L :
  L ∈ TextExtractor.collect_links _check_bracketed_host base hrefs acc ->
  L ∈ acc \/ exists href, urljoin base href = Some L.
Proof.
  revert acc. induction hrefs as [|raw hrefs IH]; intros acc; simpl; [auto|].
  destruct (truthy _ && negb _); [|by apply IH].
  destruct (urljoin base (str_strip is_space raw)) as [a|] eqn:E; [|auto].
  intros [Hin|?]%IH; [|by right].
  apply elem_of_app in Hin as [?| ->%list_elem_of_singleton]; [by left|].
  right. eauto.
Qed.

Lemma fetch_page_links w u w' pd :
  list_of_set_sound list_of_set -> fetchable u ->
  fetch_page w u = (w', Some pd) ->
  Forall (link_ok u) (pd_links pd).
Proof.
  intros Hset Hu. unfold Crawler.fetch_page.
  destruct (session_get w u) as [w1 [| |t c a]] eqn:Hs; try done.
  destruct (negb _); [done|]. intros [= _ <-]. simpl.
  destruct a as [hrefs|]; [|constructor].
  apply Forall_forall. intros L HL.
  apply Hset in HL. apply collect_links_elem in HL as [HL|[href HL]].
  - by apply elem_of_nil in HL.
  - by eapply urljoin_output_ok.
Qed.

Lemma enqueue_links_ok (self0 : WebCrawler) b cur d links q :
  Forall (link_ok cur) links ->
  is_Some (enqueue_links _check_bracketed_host self0 b cur d links q).
Proof.
  intros H. revert q. induction H as [|l links (a & Ha & n & Hn) _ IH]; intros q; simpl.
  - by eexists.
  - rewrite Ha. simpl. rewrite Hn. simpl. apply IH.
Qed.

(** A link that passed [is_valid_url] in a crawl that stays on a domain with a
    name *)
Lemma is_valid_url_fetchable (self0 : WebCrawler) u b :
  allow_external self0 = false -> b <> "" ->
  is_valid_url self0 u b = true -> fetchable u.
Proof.
  intros Hae Hb. unfold Crawler.is_valid_url. rewrite Hae.
  destruct (urlparse u "") as [p|] eqn:Hp; [|done].
  destruct (str_in (scheme p) ["http"; "https"]) eqn:Hs; cbn [negb andb]; [|done].
  destruct (str_eqb (netloc p) b) eqn:E; cbn [negb]; [|done].
  intros _. exists p. split_and!; [done|done|].
  apply String.eqb_eq in E. by rewrite E.
Qed.

Lemma raise_inv_step seed st :
  list_of_set_sound list_of_set ->
  raise_inv _check_bracketed_host seed st ->
  raise_inv _check_bracketed_host seed (step st).
Proof.
  intros Hset Hpc. unfold raise_inv in *. unfold Crawler.step, set_pc.
  destruct (pc st) eqn:Epc.
  - destruct Hpc as (-> & Hf & Hy). unfold seed_rejected.
    destruct (normalize_url seed) as [s'|] eqn:Hn; simpl; [|by left].
    destruct (urlparse s' "") as [p|] eqn:Hp; simpl; [done|by left].
  - destruct (crawl_queue st) as [|[u d] rest] eqn:Hqe; simpl; [done|].
    destruct (negb _); simpl; [done|].
    destruct (bool_decide _); simpl; [done|].
    destruct (_ <? _); simpl; [done|].
    destruct (Crawler.fetch_page _ _ _ _ _) as [w' [pd|]] eqn:Hfp; simpl; [|done].
    rewrite !last_snoc. split_and!; [|done|].
    + eexists. split; [done|]. simpl. by eapply fetch_page_url.
    + intros Hu. by eapply fetch_page_links.
  - destruct Hpc as ((r & Hr & Hcur) & Hlog & Hlinks).
    destruct (depth <? max_depth (self st)); simpl; [|done].
    destruct (enqueue_links _ _ _ _ _ _ _) as [q'|] eqn:Hq'; simpl; [done|].
    right. exists r, depth. rewrite Hcur. split_and!; [done|done|].
    intros Hu.
    destruct (enqueue_links_ok (self st) (base_domain st) current_url depth links
                (crawl_queue st) (Hlinks Hu)) as [q' Hq''].
    by rewrite Hq' in Hq''.
  - by rewrite Epc.
  - by rewrite Epc.
Qed.

Lemma raise_inv_steps n (self0 : WebCrawler) seed w :
  list_of_set_sound list_of_set ->
  raise_inv _check_bracketed_host seed (steps n (crawl self0 seed w)).
Proof.
  intros Hset. induction n as [|n IH].
  - unfold raise_inv. simpl. done.
  - by apply raise_inv_step.
Qed.

(** The link loop of a page whose URL is an http or https URL with a host
    ends without an exception *)
Lemma resume_ok seed st cur d links :
  raise_inv _check_bracketed_host seed st ->
  pc st = AtYield cur d links -> fetchable cur ->
  Forall (link_ok cur) links /\ pc (step st) = LoopHead.
Proof.
  unfold raise_inv. intros Hpc E Hu. rewrite E in Hpc.
  destruct Hpc as (_ & _ & Hlinks). split; [auto|].
  unfold Crawler.step. rewrite E.
  destruct (d <? max_depth (self st)); [|done].
  by destruct (enqueue_links_ok (self st) (base_domain st) cur d links
                 (crawl_queue st) (Hlinks Hu)) as [q' ->].
Qed.

Lemma same_domain_inv_step seed s' st :
  list_of_set_sound list_of_set ->
  normalize_url seed = Some s' -> fetchable s' ->
  raise_inv _check_bracketed_host seed st ->
  same_domain_inv _check_bracketed_host seed st ->
  same_domain_inv _check_bracketed_host seed (step st).
Proof.
  intros Hset Hn Hs' Hr [Hae Hpc]. split.
  { destruct (step_config _check_bracketed_host list_of_set World session_get st)
      as (_ & _ & ->). exact Hae. }
  destruct (pc st) eqn:Epc.
  - subst start_url. destruct Hs' as (p & Hp & Hsch & Hnl).
    unfold Crawler.step. rewrite Epc, Hn, Hp. simpl.
    split; [done|]. constructor; [|done]. simpl. by exists p.
  - destruct Hpc as [Hb Hq]. unfold Crawler.step, set_pc. rewrite Epc.
    destruct (crawl_queue st) as [|[u d] rest] eqn:Hqe; simpl; [done|].
    apply Forall_cons in Hq as [Hu Hrest]. simpl in Hu.
    destruct (negb _); simpl. { split; [done|]. by constructor. }
    destruct (bool_decide _); simpl; [done|].
    destruct (_ <? _); simpl; [done|].
    by destruct (Crawler.fetch_page _ _ _ _ _) as [w' [pd|]].
  - destruct Hpc as (Hcur & Hb & Hq).
    destruct (resume_ok seed st _ _ _ Hr Epc Hcur) as [Hlinks Hstep].
    rewrite Hstep. revert Hstep. unfold Crawler.step, set_pc. rewrite Epc.
    destruct (depth <? max_depth (self st)); simpl; [|done].
    destruct (enqueue_links _ _ _ _ _ _ _) as [q'|] eqn:Hq'; simpl; [|done].
    intros _. split; [done|].
    apply Forall_forall. intros e He.
    destruct (enqueue_links_elem _ _ _ _ _ _ _ _ _ Hq' He) as [Hin|(_ & Hv & _)].
    + rewrite Forall_forall in Hq. by apply Hq.
    + by eapply is_valid_url_fetchable.
  - unfold Crawler.step. by rewrite Epc, Epc.
  - done.
Qed.

Lemma same_domain_inv_steps n (self0 : WebCrawler) seed s' w :
  list_of_set_sound list_of_set ->
  allow_external self0 = false ->
  normalize_url seed = Some s' -> fetchable s' ->
  same_domain_inv _check_bracketed_host seed (steps n (crawl self0 seed w)).
Proof.
  intros Hset Hae Hn Hs'. induction n as [|n IH].
  - split; simpl; done.
  - eapply same_domain_inv_step; eauto. by apply raise_inv_steps.
Qed.

(** A crawl that stays on the domain of an http or https seed with a host
    never raises *)
Lemma same_domain_no_raise n (self0 : WebCrawler) seed s' w :
  list_of_set_sound list_of_set ->
  allow_external self0 = false ->
  normalize_url seed = Some s' -> fetchable s' ->
  pc (steps n (crawl self0 seed w)) <> Raised.
Proof.
  intros Hset Hae Hn Hs' E.
  destruct (same_domain_inv_steps n self0 seed s' w Hset Hae Hn Hs') as [_ H].
  by rewrite E in H.
Qed.

End Raise.
End NoRaise.

(** * Further facts used by the claims *)

Module MoreFacts.
Import Urllib Crawler Notions CrawlFacts StrFacts NormalizeFacts JoinFacts NoRaise.
#[local] Arguments String.append : simpl nomatch.

Lemma endswith_suffix p a : str_endswith p (a +:+ p) = true.
Proof.
  unfold str_endswith. rewrite len_app.
  replace (str_len a + str_len p - str_len p)%nat with (str_len a) by lia.
  rewrite drop_app, str_eqb_refl, andb_true_r. apply Nat.leb_le. lia.
Qed.

Section More.

Variable chk : string -> bool.
Variable list_of_set : list string -> list string.
Variable World : Type.
Variable session_get : World -> string -> World * Reply.

Abbreviation urlparse := (Urllib.urlparse chk).
Abbreviation normalize_url := (Crawler.normalize_url chk).
Abbreviation is_valid_url := (Crawler.is_valid_url chk).
Abbreviation step := (Crawler.step chk list_of_set session_get).
Abbreviation steps := (Crawler.steps chk list_of_set session_get).

Implicit Types st : State World.

Lemma is_valid_url_config (s1 s2 : WebCrawler) u b :
  allow_external s1 = allow_external s2 -> is_valid_url s1 u b = is_valid_url s2 u b.
Proof. intros H. unfold Crawler.is_valid_url. by rewrite H. Qed.

Lemma is_valid_url_external (self0 : WebCrawler) u b q :
  allow_external self0 = false -> urlparse u "" = Some q -> netloc q <> b ->
  is_valid_url self0 u b = false.
Proof.
  intros Hae Hq Hn. unfold Crawler.is_valid_url. rewrite Hq, Hae.
  apply str_eqb_neq in Hn. rewrite Hn. simpl. by case_match.
Qed.

Lemma is_valid_url_extension (self0 : WebCrawler) url b p stem e ext :
  urlparse url "" = Some p -> path p = stem +:+ e -> str_lower e = ext ->
  In ext excluded_extensions ->
  is_valid_url self0 url b = false.
Proof.
  intros Hp Hpath He Hin. unfold Crawler.is_valid_url. rewrite Hp.
  destruct (negb (str_in _ _)); [done|].
  destruct (negb (allow_external self0) && _); [done|].
  assert (E : existsb (fun ext0 => str_endswith ext0 (str_lower (path p)))
                excluded_extensions = true).
  { apply existsb_exists. exists ext. split; [done|].
    rewrite Hpath, lower_app, He. apply endswith_suffix. }
  by rewrite E.
Qed.

Lemma queue_filtered_inv_step seed st :
  queue_filtered_inv chk seed st -> queue_filtered_inv chk seed (step st).
Proof.
  unfold queue_filtered_inv, Crawler.step, set_pc.
  destruct (pc st) eqn:Epc.
  - intros [-> Hq].
    destruct (normalize_url seed) as [s'|] eqn:Hn; simpl; [|by rewrite Hq].
    destruct (urlparse s' "") as [p|]; simpl; [|by rewrite Hq].
    constructor; [|done]. by left.
  - intros Hq.
    destruct (crawl_queue st) as [|[u d] rest] eqn:Hqe; simpl; [done|].
    pose proof Hq as Hq0. apply Forall_cons in Hq as [_ Hq].
    destruct (negb _); simpl; [done|].
    destruct (bool_decide _); simpl; [done|].
    destruct (_ <? _); simpl; [done|].
    destruct (Crawler.fetch_page _ _ _ _ _) as [w' [pd|]]; simpl; exact Hq.
  - intros Hq.
    destruct (depth <? max_depth (self st)); simpl; [|done].
    destruct (enqueue_links _ _ _ _ _ _ _) as [q'|] eqn:Henq; simpl; [|done].
    apply Forall_forall. intros e He.
    destruct (enqueue_links_elem _ _ _ _ _ _ _ _ _ Henq He) as [Hin|(_ & Hv & _)].
    + rewrite Forall_forall in Hq. by apply Hq.
    + by right.
  - by rewrite Epc.
  - by rewrite Epc.
Qed.

Lemma queue_filtered_inv_steps n (self0 : WebCrawler) seed w :
  queue_filtered_inv chk seed (steps n (crawl self0 seed w)).
Proof.
  induction n as [|n IH]; [done|]. by apply queue_filtered_inv_step.
Qed.

Lemma created_only_at_start n (self0 : WebCrawler) seed w s :
  pc (steps (S n) (crawl self0 seed w)) <> Created s.
Proof.
  rewrite steps_S. unfold Crawler.step, set_pc.
  repeat case_match; simpl; congruence.
Qed.

(** *** One trailing slash *)

Lemma normalize_strip_path u p stem :
  urlparse u "" = Some p -> netloc p <> "" -> params p = "" -> query p = "" ->
  path p = stem +:+ "/" -> stem <> "" ->
  normalize_url u = Some (urlunparse (scheme p) (netloc p) stem "" "" "").
Proof.
  intros Hp Hn Hprm Hq Hpath Hstem.
  destruct (urlparse_wf chk _ _ Hp Hn) as (_ & _ & Hh & _).
  rewrite normalize_eq, Hp. simpl. f_equal.
  rewrite (rebuild_assemble chk _ _ Hp Hn), Hprm, Hq, Hpath.
  change (opt_params "") with "". rewrite app_nil_r, assemble_snoc_path.
  unfold strip_rule. rewrite endswith_snoc, chr_eqb_refl.
  replace (1 <? str_len (stem +:+ "/"))%nat with true.
  2:{ symmetry. apply Nat.ltb_lt. rewrite len_app. destruct stem; [done|].
      unfold str_len. simpl. lia. }
  cbn [andb]. rewrite take_snoc.
  rewrite urlunparse_assemble; [|done| |done].
  - change (opt_params "") with "". by rewrite app_nil_r.
  - rewrite Hpath in Hh. by destruct (head_slash_prefix _ _ Hh).
Qed.

Lemma normalize_short_path u p :
  urlparse u "" = Some p -> (str_len (path p) <= 1)%nat ->
  normalize_url u = Some (rebuild p).
Proof.
  intros Hp Hlen. rewrite normalize_eq, Hp. simpl. f_equal.
  unfold strip_rule. replace (1 <? str_len (path p))%nat with false.
  - by rewrite andb_false_r.
  - symmetry. apply Nat.ltb_ge. lia.
Qed.

Lemma normalize_no_slash u p :
  urlparse u "" = Some p -> netloc p <> "" -> params p = "" -> query p = "" ->
  str_endswith "/" (path p) = false ->
  normalize_url u = Some (rebuild p).
Proof.
  intros Hp Hn Hprm Hq Hend.
  destruct (urlparse_wf chk _ _ Hp Hn) as (Hwf & _).
  rewrite normalize_eq, Hp. simpl. f_equal. apply strip_rule_keep.
  rewrite (rebuild_assemble chk _ _ Hp Hn), Hprm, Hq.
  change (opt_params "") with "". rewrite app_nil_r.
  destruct (path p) as [|c pth] eqn:Epath.
  - rewrite assemble_nil, endswith_app by done.
    destruct (str_endswith "/" (netloc p)) eqn:E; [|done].
    apply endswith_contains in E. destruct Hwf as [_ ((Hc & _) & _) _ _ _ _ _ _].
    congruence.
  - unfold assemble, opt_query. cbn [truthy]. rewrite app_nil_r.
    rewrite <- !app_assoc. by rewrite endswith_app.
Qed.

Lemma step_base_domain st :
  (forall s, pc st <> Created s) -> base_domain (step st) = base_domain st.
Proof.
  intros Hpc. unfold Crawler.step, set_pc.
  destruct (pc st) eqn:Epc; [by destruct (Hpc start_url)| | |done|done];
    repeat case_match; done.
Qed.

Lemma base_domain_steps n (self0 : WebCrawler) seed w s' p :
  normalize_url seed = Some s' -> urlparse s' "" = Some p ->
  base_domain (steps (S n) (crawl self0 seed w)) = netloc p.
Proof.
  intros Hn Hp. induction n as [|n IH].
  - change (steps 1 (crawl self0 seed w)) with (step (crawl self0 seed w)).
    by rewrite (step_created chk list_of_set World session_get _ _ _ _ _ Hn Hp).
  - rewrite steps_S, step_base_domain; [done|].
    intros s. apply created_only_at_start.
Qed.

(** Under [authority_inv], whatever was yielded, fetched or queued has the
    netloc of the normalized seed. *)
Lemma authority_inv_same seed st u :
  authority_inv chk seed st ->
  (exists r, r ∈ yielded st /\ r_url r = u)
  \/ (exists d, (u, d) ∈ fetch_log st) \/ (exists d, (u, d) ∈ crawl_queue st) ->
  same_authority chk seed u.
Proof.
  unfold authority_inv. intros Hinv Hu.
  assert (Hnil : fetch_log st = [] -> yielded st = [] -> crawl_queue st = [] -> False).
  { intros Hf Hy Hq. rewrite Hf, Hy, Hq in Hu.
    destruct Hu as [(r & Hr & _)|[(d & Hd)|(d & Hd)]];
      by (apply elem_of_nil in Hr || apply elem_of_nil in Hd). }
  assert (Hmain :
    (fetch_log st = [] /\ yielded st = [] /\ crawl_queue st = [] /\ pc st = Raised
     \/ exists s' p, normalize_url seed = Some s' /\ urlparse s' "" = Some p
                     /\ base_domain st = netloc p)
    /\ Forall (fun e => has_netloc chk e.1 (base_domain st)) (crawl_queue st)
    /\ Forall (fun e => has_netloc chk e.1 (base_domain st)) (fetch_log st)
    /\ Forall (fun r => has_netloc chk (r_url r) (base_domain st)) (yielded st)
    -> same_authority chk seed u).
  { intros (Hs & Hq & Hf & Hy).
    rewrite Forall_forall in Hq. rewrite Forall_forall in Hf. rewrite Forall_forall in Hy.
    destruct Hs as [(Hf0 & Hy0 & Hq0 & _)|(s' & p & Hn & Hp & Hb)]; [by destruct Hnil|].
    assert (Hnet : has_netloc chk u (base_domain st)).
    { destruct Hu as [(r & Hr & <-)|[(d & Hd)|(d & Hd)]];
        [by apply Hy | apply (Hf _ Hd) | apply (Hq _ Hd)]. }
    destruct Hnet as (q & Hq' & Hnq). exists s', p, q. by rewrite Hnq, Hb. }
  destruct (pc st); [|by apply Hmain..].
  destruct Hinv as (_ & Hf & Hy & Hq). by destruct Hnil.
Qed.

(** *** The netloc of a normalized URL *)

Lemma head_delim_prefix a b : head_delim (a +:+ b) -> head_delim a.
Proof. by destruct a. Qed.

Lemma normalize_keeps_netloc u p v :
  urlparse u "" = Some p -> netloc p <> "" -> normalize_url u = Some v ->
  exists p', urlparse v "" = Some p' /\ netloc p' = netloc p /\ scheme p' = scheme p.
Proof.
  intros Hp Hn Hv. rewrite normalize_eq, Hp in Hv. simpl in Hv. injection Hv as Hv.
  destruct (decide (v = rebuild p)) as [->|Hne].
  { rewrite (urlparse_rebuild chk _ _ Hp Hn). by eexists. }
  destruct (strip_rule_fired _ _ _ Hv Hne) as [Hr _]. clear Hv Hne.
  destruct (urlparse_wf chk _ _ Hp Hn) as (Hwf & _).
  destruct Hwf as [Hs Hnok Hh _ _ _ _ _].
  rewrite (rebuild_assemble chk _ _ Hp Hn) in Hr. unfold assemble in Hr.
  set (pp := path p +:+ opt_params (params p)) in *.
  assert (Ht0 : head_delim (pp +:+ opt_query (query p))).
  { destruct pp as [|c pp']; simpl in *.
    - unfold opt_query. by destruct (query p).
    - by subst c. }
  destruct (snoc_cases (pp +:+ opt_query (query p))) as [E|(t' & d & E)].
  - exfalso. rewrite E, app_nil_r, <- app_assoc in Hr.
    assert (Hend : str_endswith "/" ((opt_scheme (scheme p) +:+ "//") +:+ netloc p) = true).
    { rewrite Hr. apply (endswith_snoc "/" v "/"). }
    rewrite endswith_app in Hend by done.
    apply endswith_contains in Hend. destruct Hnok as ((Hc & _) & _). congruence.
  - rewrite E in Hr, Ht0. apply head_delim_prefix in Ht0.
    assert (Hv : v = opt_scheme (scheme p) +:+ "//" +:+ netloc p +:+ t').
    { apply (app_snoc_inj _ _ "/" d). rewrite <- Hr. by rewrite !app_assoc. }
    rewrite Hv, urlparse_eq, urlsplit_build by done.
    eexists. split; [done|]. cbn [netloc scheme s_netloc s_scheme]. split; [done|].
    by destruct (scheme p).
Qed.

(** A seed that [crawl] rejects: the exception leaves the generator at its
    first step, and nothing comes after *)
Lemma rejected_seed_raises (self0 : WebCrawler) seed w n :
  seed_rejected chk seed ->
  steps (S n) (crawl self0 seed w) = set_pc (crawl self0 seed w) Raised.
Proof.
  intros H. induction n as [|n IH].
  - unfold seed_rejected in H. change (step (crawl self0 seed w) = set_pc (crawl self0 seed w) Raised).
    unfold Crawler.step. simpl.
    destruct (normalize_url seed) as [s'|]; [|done]. by rewrite H.
  - change (step (steps (S n) (crawl self0 seed w)) = set_pc (crawl self0 seed w) Raised).
    by rewrite IH.
Qed.

End More.
End MoreFacts.

Import Urllib Crawler App Notions Example.
Import CrawlFacts StrFacts NormalizeFacts JoinFacts NoRaise MoreFacts.

(** * The example web *)

Lemma one_order_sound : list_of_set_sound one_order.
Proof. intros l x Hx. unfold one_order in Hx. by rewrite elem_of_remove_dups in Hx. Qed.

(** * The claims *)

(** C1. At every step of every crawl, the number of records yielded is at most
    [max_pages] (for a [max_pages] that is not negative), every call of
    [fetch_page] is for an entry of depth at most [max_depth], every record
    yielded comes from such a call, and an entry deeper than [max_depth] is
    dropped when it is dequeued: nothing is fetched or yielded for it. *)
Theorem crawl_within_budgets :
  forall (chk : string -> bool) (list_of_set : list string -> list string)
         (World : Type) (session_get : World -> string -> World * Reply)
         (self0 : WebCrawler) (seed : string) (w : World) (n : nat),
    0 <= max_pages self0 ->
    let st := steps chk list_of_set session_get n (crawl self0 seed w) in
    Z.of_nat (length (yielded st)) <= max_pages self0
    /\ (forall u d, (u, d) ∈ fetch_log st -> d <= max_depth self0)
    /\ (forall r, r ∈ yielded st ->
          exists d, (r_url r, d) ∈ fetch_log st /\ d <= max_depth self0)
    /\ (forall u d rest,
          pc st = LoopHead -> crawl_queue st = (u, d) :: rest ->
          pages_crawled st < max_pages self0 -> max_depth self0 < d ->
          step chk list_of_set session_get st
          = mkState (self st) (base_domain st) rest (pages_crawled st) LoopHead
              (world st) (fetch_log st) (yielded st)).
Proof.
  intros chk los World get self0 seed w n Hmax st.
  destruct (budget_inv_steps chk los World get n self0 seed w Hmax)
    as (Hp & Hy & Hf & Hr).
  destruct (steps_config chk los World get n (crawl self0 seed w)) as (Hd & Hm & _).
  fold st in Hp, Hy, Hf, Hr, Hd, Hm. simpl in Hd, Hm.
  rewrite Hd in Hf. rewrite Hm in Hp.
  rewrite Forall_forall in Hf. rewrite Forall_forall in Hr.
  split_and!.
  - lia.
  - intros u d Hin. apply (Hf _ Hin).
  - intros r Hin. destruct (Hr _ Hin) as [d Hd']. exists d. split; [done|].
    apply (Hf _ Hd').
  - intros u d rest Hpc Hq Hlt Hdeep.
    apply (step_discard_deep chk los World get st u d rest); [done|done| |];
      by rewrite ?Hm, ?Hd.
Qed.

Lemma crawl_within_budgets_witness :
  Z.of_nat (length (yielded (steps accept_all one_order web 4
                               (crawl (__init__ 2 10 false) "http://a.com/" tt)))) <= 10.
Proof.
  refine (proj1 (crawl_within_budgets accept_all one_order unit web
                   (__init__ 2 10 false) "http://a.com/" tt 4 _)).
  simpl. lia.
Defined.

(** C2. In every crawl no URL is fetched twice.  A URL enters [visited] when it
    is dequeued and fetched, not when it is queued: [visited] is what the
    crawler object held before plus the URLs fetched, queueing the links of a
    page leaves it as it is, and a dequeued entry whose URL is in [visited] is
    dropped without a fetch.  The same URL can be in the queue twice at the
    same time (third step of the example crawl). *)
Theorem url_fetched_at_most_once :
  (forall (chk : string -> bool) (list_of_set : list string -> list string)
          (World : Type) (session_get : World -> string -> World * Reply)
          (self0 : WebCrawler) (seed : string) (w : World) (n : nat),
     let st := steps chk list_of_set session_get n (crawl self0 seed w) in
     let st' := step chk list_of_set session_get st in
     NoDup (fetch_log st).*1
     /\ visited (self st) = visited self0 ∪ list_to_set (fetch_log st).*1
     /\ (forall u d links, pc st = AtYield u d links -> self st' = self st)
     /\ (forall u d rest,
           pc st = LoopHead -> crawl_queue st = (u, d) :: rest ->
           pages_crawled st < max_pages (self st) -> u ∈ visited (self st) ->
           st' = mkState (self st) (base_domain st) rest (pages_crawled st) LoopHead
                   (world st) (fetch_log st) (yielded st))
     /\ (forall u d rest,
           pc st = LoopHead -> crawl_queue st = (u, d) :: rest ->
           pages_crawled st < max_pages (self st) -> u ∉ visited (self st) ->
           d <= max_depth (self st) ->
           visited (self st') = visited (self st) ∪ {[u]}
           /\ fetch_log st' = fetch_log st ++ [(u, d)]))
  /\ crawl_queue (steps accept_all one_order web 3
                    (crawl (__init__ 2 10 false) "http://a.com/" tt))
     = [("http://a.com/x", 1); ("http://a.com/y", 1); ("http://a.com/x", 1)].
Proof.
  split; [|by vm_compute].
  intros chk los World get self0 seed w n st st'.
  destruct (dedup_inv_steps chk los World get n self0 seed w) as [Hnd Hv].
  split_and!; try done.
  - intros u d links Hpc. by destruct (step_resume_self chk los World get st u d links Hpc).
  - intros u d rest Hpc Hq Hlt Hin. by apply (step_discard_visited chk los World get st u d rest).
  - intros u d rest Hpc Hq Hlt Hin Hd.
    by destruct (step_fetch chk los World get st u d rest Hpc Hq Hlt Hin Hd) as (? & ? & _).
Qed.

Lemma url_fetched_at_most_once_witness :
  NoDup (fetch_log (steps accept_all one_order web 12
                      (crawl (__init__ 2 10 false) "http://a.com/" tt))).*1.
Proof.
  exact (proj1 (proj1 url_fetched_at_most_once accept_all one_order unit web
                  (__init__ 2 10 false) "http://a.com/" tt 12%nat)).
Defined.




(** C4 (as amended). For a URL that parses with a non-empty netloc,
    normalizing the normalized URL changes nothing when the trailing-slash rule
    did not fire (the result is the rebuilt URL), or when the result ends in
    none of [/], [?] and [;]. *)
Theorem normalize_idempotent_when_settled :
  forall (chk : string -> bool) (u : string) (p : ParseResult) (v : string),
    urlparse chk u "" = Some p -> netloc p <> "" ->
    normalize_url chk u = Some v ->
    v = rebuild p
    \/ (str_endswith "/" v = false /\ str_endswith "?" v = false
        /\ str_endswith ";" v = false) ->
    normalize_url chk v = Some v.
Proof. exact normalize_idem_cases. Qed.

Lemma normalize_idempotent_when_settled_witness :
  normalize_url accept_all "http://a.com/x" = Some "http://a.com/x".
Proof.
  refine (normalize_idempotent_when_settled accept_all "http://a.com/x/#top"
            (mkParse "http" "a.com" "/x/" "" "" "top") "http://a.com/x" _ _ _ _).
  - vm_compute. reflexivity.
  - simpl. discriminate.
  - vm_compute. reflexivity.
  - right. vm_compute. repeat split.
Defined.

(** C4, as stated, fails: one slash is stripped at a time. *)
Lemma normalize_not_idempotent :
  ~ (forall (chk : string -> bool) (u : string),
       normalize_url chk u ≫= normalize_url chk = normalize_url chk u).
Proof.
  intros H. specialize (H accept_all "http://a.com/x//").
  vm_compute in H. discriminate H.
Qed.

(** C5 (as amended). For a URL that parses with a non-empty netloc, no params
    and no query: when the path is longer than [/] and ends in [/], the result
    is the URL made of the same scheme (as [urlparse] returns it), netloc and
    path without that one slash; when the path is [/], or does not end in [/],
    the result is the URL rebuilt from the components without the fragment; and
    the rebuilt URL parses into the same scheme, netloc, path, params and
    query. *)
Theorem normalize_strips_one_slash :
  forall (chk : string -> bool) (u : string) (p : ParseResult),
    urlparse chk u "" = Some p -> netloc p <> "" ->
    params p = "" -> query p = "" ->
    (forall stem, path p = stem +:+ "/" -> stem <> "" ->
       normalize_url chk u = Some (urlunparse (scheme p) (netloc p) stem "" "" ""))
    /\ (path p = "/" -> normalize_url chk u = Some (rebuild p))
    /\ (str_endswith "/" (path p) = false -> normalize_url chk u = Some (rebuild p))
    /\ urlparse chk (rebuild p) ""
       = Some (mkParse (scheme p) (netloc p) (path p) (params p) (query p) "").
Proof.
  intros chk u p Hp Hn Hprm Hq. split_and!.
  - intros stem Hpath Hstem. by apply normalize_strip_path.
  - intros Hroot. apply normalize_short_path; [done|]. by rewrite Hroot.
  - intros Hend. by apply normalize_no_slash.
  - by apply (urlparse_rebuild chk u).
Qed.

Lemma normalize_strips_one_slash_witness :
  normalize_url accept_all "http://a.com/x//#top" = Some "http://a.com/x/".
Proof.
  refine (proj1 (normalize_strips_one_slash accept_all "http://a.com/x//#top"
                   (mkParse "http" "a.com" "/x//" "" "" "top") _ _ _ _) "/x/" _ _).
  - vm_compute. reflexivity.
  - simpl. discriminate.
  - reflexivity.
  - reflexivity.
  - reflexivity.
  - discriminate.
Defined.

(** C5, as stated, fails: the scheme is case-folded. *)
Lemma normalize_folds_scheme :
  normalize_url accept_all "HTTP://a.com/x/" = Some "http://a.com/x"
  /\ normalize_url accept_all "HTTP://a.com/x/" <> Some "HTTP://a.com/x".
Proof. split; [by vm_compute|]. vm_compute. discriminate. Qed.

(** C6 (as amended). A seed without scheme or without netloc is turned down by
    the handler of the start button, which then makes no crawler: nothing is
    fetched and nothing is yielded.  [crawl] itself does not look at the scheme
    or netloc of the seed.  It normalizes the seed and parses the result.  When
    that parse raises, the exception leaves [crawl] and nothing is fetched or
    yielded; otherwise the normalized seed is queued at depth 0 and, on a
    crawler that has not visited it and has room for one page, [fetch_page] is
    called on it. *)
Theorem seed_checked_by_the_caller :
  forall (chk : string -> bool) (list_of_set : list string -> list string)
         (World : Type) (session_get : World -> string -> World * Reply)
         (start_url : string) (p : ParseResult) (w : World),
    start_url <> "" ->
    urlparse chk start_url "" = Some p ->
    scheme p = "" \/ netloc p = "" ->
    (forall max_depth max_pages include_external,
       start_crawling chk start_url max_depth max_pages include_external
       = inl InvalidUrl)
    /\ (forall self0 : WebCrawler,
          let run n := steps chk list_of_set session_get n (crawl self0 start_url w) in
          exists s', normalize_url chk start_url = Some s'
            /\ ((urlparse chk s' "" = None
                 /\ forall n, pc (run (S n)) = Raised
                              /\ fetch_log (run (S n)) = []
                              /\ yielded (run (S n)) = [])
                \/ (exists p', urlparse chk s' "" = Some p'
                      /\ pc (run 1%nat) = LoopHead
                      /\ crawl_queue (run 1%nat) = [(s', 0)]
                      /\ (0 < max_pages self0 -> 0 <= max_depth self0 ->
                          s' ∉ visited self0 ->
                          fetch_log (run 2%nat) = [(s', 0)])))).
Proof.
  intros chk los World get start_url p w Hne Hp Hmiss. split.
  - intros md mp ie. unfold start_crawling.
    apply truthy_true in Hne. rewrite Hne, Hp. cbn [negb].
    destruct Hmiss as [-> | ->]; cbn [truthy negb orb]; [done|].
    by rewrite orb_true_r.
  - intros self0 run.
    destruct (normalize_is_Some chk start_url) as [s' Hn]; [by eexists|].
    exists s'. split; [done|].
    destruct (urlparse chk s' "") as [p'|] eqn:Hp'.
    + right. exists p'. split; [done|]. subst run. cbv beta.
      change (steps chk los get 1 (crawl self0 start_url w))
        with (step chk los get (crawl self0 start_url w)).
      rewrite (step_created chk los World get _ _ _ _ _ Hn Hp').
      split_and!; [done|done|].
      intros Hmp Hmd Hv.
      by apply (first_fetch chk los World get self0 start_url w s' p').
    + left. split; [done|]. intros n. subst run. cbv beta.
      rewrite (rejected_seed_raises chk los World get self0 start_url w n); [done|].
      unfold seed_rejected. by rewrite Hn.
Qed.

Lemma seed_checked_by_the_caller_witness :
  start_crawling accept_all "http:////[" 2 10 false = inl InvalidUrl
  /\ pc (steps accept_all one_order offline 1
           (crawl (__init__ 2 10 false) "http:////[" tt)) = Raised.
Proof.
  destruct (seed_checked_by_the_caller accept_all one_order unit offline
              "http:////[" (mkParse "http" "" "//[" "" "" "") tt) as [H1 H2].
  - discriminate.
  - vm_compute. reflexivity.
  - right. reflexivity.
  - split; [apply H1|].
    destruct (H2 (__init__ 2 10 false)) as (s' & Hn & [[_ Hr]|(p' & Hp' & _)]).
    + apply (Hr 0%nat).
    + exfalso. vm_compute in Hn. injection Hn as <-.
      vm_compute in Hp'. discriminate.
Defined.

(** C6, as stated, fails: [crawl] raises nothing for a seed without scheme and
    netloc, and calls [fetch_page] on it. *)
Lemma crawl_accepts_seed_without_scheme :
  urlparse accept_all "example.com/page" ""
  = Some (mkParse "" "" "example.com/page" "" "" "")
  /\ let st := steps accept_all one_order offline 3
                 (crawl (__init__ 2 10 false) "example.com/page" tt) in
     pc st = Returned /\ fetch_log st = [("example.com/page", 0)] /\ yielded st = [].
Proof. vm_compute. repeat split. Qed.

(** C7 (as amended). The first step of every crawl sets the queue to the
    normalized seed at depth 0 and the page count to 0, and leaves [visited] as
    the crawler object holds it; a newly made crawler holds the empty set. *)
Theorem crawl_starts_from_the_crawler_state :
  forall (chk : string -> bool) (list_of_set : list string -> list string)
         (World : Type) (session_get : World -> string -> World * Reply)
         (self0 : WebCrawler) (seed : string) (w : World) (s' : string)
         (p : ParseResult),
    normalize_url chk seed = Some s' -> urlparse chk s' "" = Some p ->
    step chk list_of_set session_get (crawl self0 seed w)
    = mkState self0 (netloc p) [(s', 0)] 0 LoopHead w [] []
    /\ forall max_depth max_pages allow_external,
         visited (__init__ max_depth max_pages allow_external) = ∅.
Proof.
  intros chk los World get self0 seed w s' p Hn Hp. split; [|done].
  by apply step_created.
Qed.

Lemma crawl_starts_from_the_crawler_state_witness :
  step accept_all one_order web (crawl (__init__ 2 10 false) "http://a.com/#top" tt)
  = mkState (__init__ 2 10 false) "a.com" [("http://a.com/", 0)] 0 LoopHead tt [] [].
Proof.
  refine (proj1 (crawl_starts_from_the_crawler_state accept_all one_order unit web
                   (__init__ 2 10 false) "http://a.com/#top" tt "http://a.com/"
                   (mkParse "http" "a.com" "/" "" "" "") _ _)).
  - vm_compute. reflexivity.
  - vm_compute. reflexivity.
Defined.

(** C7, as stated, fails: a second crawl on the same crawler object starts with
    the [visited] set that the first one left, and yields nothing for the same
    seed. *)
Lemma second_crawl_shares_visited :
  let first := steps accept_all one_order web 12
                 (crawl (__init__ 2 10 false) "http://a.com/" tt) in
  let second := steps accept_all one_order web 12
                  (crawl (self first) "http://a.com/" tt) in
  pc first = Returned /\ length (yielded first) = 2%nat
  /\ "http://a.com/" ∈ visited (self (step accept_all one_order web
                                        (crawl (self first) "http://a.com/" tt)))
  /\ pc second = Returned /\ yielded second = [] /\ fetch_log second = [].
Proof.
  vm_compute. split_and!; reflexivity.
Qed.

(** C8. In a crawl with [allow_external] false, every record yielded, every
    URL fetched and every queued entry has the netloc of the normalized seed,
    which is the netloc of the seed when the seed has one; [is_valid_url] is
    false for a URL whose netloc is not [base_domain]. *)
Theorem same_authority_only :
  forall (chk : string -> bool) (list_of_set : list string -> list string)
         (World : Type) (session_get : World -> string -> World * Reply)
         (self0 : WebCrawler) (seed : string) (w : World) (n : nat),
    allow_external self0 = false ->
    let st := steps chk list_of_set session_get n (crawl self0 seed w) in
    (forall r, r ∈ yielded st -> same_authority chk seed (r_url r))
    /\ (forall u d, (u, d) ∈ fetch_log st -> same_authority chk seed u)
    /\ (forall u d, (u, d) ∈ crawl_queue st -> same_authority chk seed u)
    /\ (forall u b q, urlparse chk u "" = Some q -> netloc q <> b ->
          is_valid_url chk self0 u b = false)
    /\ (forall p0 u, urlparse chk seed "" = Some p0 -> netloc p0 <> "" ->
          same_authority chk seed u -> has_netloc chk u (netloc p0)).
Proof.
  intros chk los World get self0 seed w n Hae st.
  pose proof (authority_inv_steps chk los World get n self0 seed w Hae) as Hinv.
  fold st in Hinv.
  pose proof (fun u => authority_inv_same chk World seed st u Hinv) as Hall.
  split_and!.
  - intros r Hr. apply Hall. left. eauto.
  - intros u d Hd. apply Hall. right. left. eauto.
  - intros u d Hd. apply Hall. right. right. eauto.
  - intros u b q. by apply is_valid_url_external.
  - intros p0 u Hp0 Hn0 (s' & p & q & Hn & Hp & Hq & Hnet).
    destruct (normalize_keeps_netloc chk seed p0 s' Hp0 Hn0 Hn) as (p' & Hp' & Hn' & _).
    exists q. split; [done|]. rewrite Hnet. congruence.
Qed.

Lemma same_authority_only_witness :
  same_authority accept_all "http://a.com/" "http://a.com/x".
Proof.
  refine (proj1 (same_authority_only accept_all one_order unit web
                   (__init__ 2 10 false) "http://a.com/" tt 12 _)
            (mkRecord "http://a.com/x" "X" "x page") _).
  - reflexivity.
  - apply list_elem_of_In. vm_compute. right. left. reflexivity.
Defined.

(** C9. [is_valid_url] is false for every URL whose path ends, whatever the
    case of its letters, in one of the excluded extensions. *)
Theorem excluded_extension_is_invalid :
  forall (chk : string -> bool) (self0 : WebCrawler) (url base_domain : string)
         (p : ParseResult) (stem e ext : string),
    urlparse chk url "" = Some p ->
    path p = stem +:+ e -> str_lower e = ext -> In ext excluded_extensions ->
    is_valid_url chk self0 url base_domain = false.
Proof. intros chk self0 url b p stem e ext. apply is_valid_url_extension. Qed.

Lemma excluded_extension_is_invalid_witness :
  is_valid_url accept_all (__init__ 2 10 false) "http://a.com/pic.JPG" "a.com" = false.
Proof.
  refine (excluded_extension_is_invalid accept_all (__init__ 2 10 false)
            "http://a.com/pic.JPG" "a.com" (mkParse "http" "a.com" "/pic.JPG" "" "" "")
            "/pic" ".JPG" ".jpg" _ _ _ _).
  - vm_compute. reflexivity.
  - reflexivity.
  - vm_compute. reflexivity.
  - simpl. tauto.
Defined.



(** * The end, the order and the depths of a crawl *)

Module CrawlMore.
Import Urllib Crawler Notions CrawlNotions CrawlFacts.
Section More.

Variable _check_bracketed_host : string -> bool.
Variable list_of_set : list string -> list string.
Variable World : Type.
Variable session_get : World -> string -> World * Reply.

Abbreviation urlparse := (Urllib.urlparse _check_bracketed_host).
Abbreviation normalize_url := (Crawler.normalize_url _check_bracketed_host).
Abbreviation is_valid_url := (Crawler.is_valid_url _check_bracketed_host).
Abbreviation fetch_page := (Crawler.fetch_page _check_bracketed_host list_of_set session_get).
Abbreviation step := (Crawler.step _check_bracketed_host list_of_set session_get).
Abbreviation steps := (Crawler.steps _check_bracketed_host list_of_set session_get).

Implicit Types st : State World.

Lemma steps_add n m st : steps (n + m) st = steps n (steps m st).
Proof. apply Nat.iter_add. Qed.

Lemma steps_succ_r n st : steps (S n) st = steps n (step st).
Proof. apply Nat.iter_succ_r. Qed.

(** *** The end of a crawl *)

Lemma step_ended st : ended st -> step st = st.
Proof. unfold Crawler.step. by intros [-> | ->]. Qed.

Lemma steps_ended n st : ended st -> steps n st = st.
Proof.
  intros H. induction n as [|n IH]; [done|].
  rewrite steps_S, IH. by apply step_ended.
Qed.

(** One pass from the head of the loop ends the crawl, shortens the queue, or
    yields a page *)
Lemma step_loop_cases st :
  pc st = LoopHead ->
  ended (step st)
  \/ (pc (step st) = LoopHead
      /\ max_pages (self (step st)) = max_pages (self st)
      /\ pages_crawled (step st) = pages_crawled st
      /\ (length (crawl_queue (step st)) < length (crawl_queue st))%nat)
  \/ (exists u d l, pc (step st) = AtYield u d l
      /\ max_pages (self (step st)) = max_pages (self st)
      /\ pages_crawled (step st) = pages_crawled st + 1
      /\ pages_crawled st < max_pages (self st)).
Proof.
  intros Hpc. unfold Crawler.step, ended, set_pc. rewrite Hpc.
  destruct (crawl_queue st) as [|[u d] rest]; simpl; [by left; left|].
  destruct (pages_crawled st <? max_pages (self st)) eqn:Hlt; simpl;
    [|by left; left].
  apply Z.ltb_lt in Hlt.
  destruct (bool_decide (u ∈ visited (self st))); simpl.
  { right; left. split_and!; auto. }
  destruct (max_depth (self st) <? d); simpl.
  { right; left. split_and!; auto. }
  destruct (Crawler.fetch_page _ _ _ _ _) as [w' [pd|]]; simpl.
  - right; right. exists u, d, (pd_links pd). split_and!; auto.
  - right; left. split_and!; auto.
Qed.

(** The rest of the loop body after a [yield] raises or goes back to the head
    of the loop *)
Lemma step_yield_cases st u d l :
  pc st = AtYield u d l ->
  pc (step st) = Raised
  \/ (pc (step st) = LoopHead /\ self (step st) = self st
      /\ pages_crawled (step st) = pages_crawled st).
Proof.
  intros Hpc. unfold Crawler.step, set_pc. rewrite Hpc.
  destruct (d <? max_depth (self st)); simpl; [|by right].
  destruct (enqueue_links _ _ _ _ _ _ _); simpl; [by right|by left].
Qed.

Lemma loop_ends (b : nat) :
  forall (k : nat) st,
    pc st = LoopHead -> pages_left st = b -> length (crawl_queue st) = k ->
    exists n, ended (steps n st).
Proof.
  induction b as [b IHb] using lt_wf_ind.
  induction k as [k IHk] using lt_wf_ind.
  intros st Hpc Hb Hk.
  destruct (step_loop_cases st Hpc) as [He|[(Hpc' & Hmp & Hpg & Hlen)|(u & d & l & Hpc' & Hmp & Hpg & Hlt)]].
  - exists 1%nat. exact He.
  - destruct (IHk (length (crawl_queue (step st))) ltac:(lia) (step st)) as [n Hn]; auto.
    { unfold pages_left. rewrite Hmp, Hpg. exact Hb. }
    exists (S n). by rewrite steps_succ_r.
  - destruct (step_yield_cases (step st) u d l Hpc') as [Hr|(Hpc2 & Hs2 & Hpg2)].
    + exists 2%nat. right. exact Hr.
    + destruct (IHb (pages_left (step (step st)))) with
        (k := length (crawl_queue (step (step st)))) (st := step (step st))
        as [n Hn]; auto.
      { unfold pages_left in *. rewrite Hs2, Hpg2, Hmp, Hpg. lia. }
      exists (S (S n)). by rewrite !steps_succ_r.
Qed.

Lemma crawl_ends (self0 : WebCrawler) seed w :
  exists n, ended (steps n (crawl self0 seed w)).
Proof.
  destruct (pc (step (crawl self0 seed w))) eqn:Hpc.
  - exfalso. revert Hpc. unfold Crawler.step, set_pc. simpl.
    repeat case_match; done.
  - destruct (loop_ends _ _ (step (crawl self0 seed w)) Hpc eq_refl eq_refl) as [n Hn].
    exists (S n). by rewrite steps_succ_r.
  - exfalso. revert Hpc. unfold Crawler.step, set_pc. simpl.
    repeat case_match; done.
  - exists 1%nat. by left.
  - exists 1%nat. by right.
Qed.

(** *** Histories *)

Lemma step_grows st :
  fetch_log st `prefix_of` fetch_log (step st)
  /\ yielded st `prefix_of` yielded (step st)
  /\ visited (self st) ⊆ visited (self (step st)).
Proof.
  unfold Crawler.step, set_pc.
  repeat case_match; simpl; split_and!;
    try done; try apply prefix_app_r; try done; set_solver.
Qed.

Lemma steps_grow n st :
  fetch_log st `prefix_of` fetch_log (steps n st)
  /\ yielded st `prefix_of` yielded (steps n st)
  /\ visited (self st) ⊆ visited (self (steps n st)).
Proof.
  induction n as [|n (IH1 & IH2 & IH3)]; [done|].
  rewrite steps_S. destruct (step_grows (steps n st)) as (H1 & H2 & H3).
  split_and!; etrans; eauto.
Qed.

(** *** The queue is first in, first out *)

Lemma enqueue_links_app (self0 : WebCrawler) b cur d links q q' :
  enqueue_links _check_bracketed_host self0 b cur d links q = Some q' ->
  exists news, q' = q ++ news /\ Forall (fun e => e.2 = d + 1) news.
Proof.
  revert q. induction links as [|l links IH]; intros q; simpl.
  - intros [= ->]. exists []. by rewrite List.app_nil_r.
  - destruct (Urllib.urljoin _ cur l) as [a|]; [|done]. simpl.
    destruct (normalize_url a) as [n|]; [|done]. simpl.
    intros H. destruct (IH _ H) as (news & -> & Hn).
    destruct (negb (bool_decide _) && _); [|eauto].
    exists ((n, d + 1) :: news). rewrite <- List.app_assoc. split; [done|].
    by constructor.
Qed.

Lemma nondecreasing_snoc l x :
  nondecreasing l -> Forall (fun y => y <= x) l -> nondecreasing (l ++ [x]).
Proof.
  induction l as [|a l IH]; simpl; [by auto|].
  intros [Ha Hl] Hx. apply Forall_cons in Hx as [Hax Hx]. split; [|auto].
  apply Forall_app. split; [done|]. by constructor.
Qed.

Lemma nondecreasing_app l k x :
  nondecreasing l -> Forall (fun y => y <= x) l -> Forall (fun y => y = x) k ->
  nondecreasing (l ++ k).
Proof.
  intros Hl Hx Hk. induction l as [|a l IH]; simpl.
  - induction Hk as [|y k -> Hk IHk]; simpl; [done|]. split; [|done].
    eapply Forall_impl; [exact Hk|]. simpl. lia.
  - destruct Hl as [Ha Hl]. apply Forall_cons in Hx as [Hax Hx]. split; [|auto].
    apply Forall_app. split; [done|].
    eapply Forall_impl; [exact Hk|]. simpl. lia.
Qed.

Lemma nondecreasing_last l x :
  nondecreasing l -> last l = Some x -> Forall (fun y => y <= x) l.
Proof.
  induction l as [|a l IH]; simpl; [done|].
  intros [Ha Hl] Hlast. destruct l as [|b l].
  - injection Hlast as <-. constructor; [lia|constructor].
  - specialize (IH Hl Hlast). constructor; [|done].
    apply Forall_cons in Ha as [Hab _]. apply Forall_cons in IH as [Hbx _]. lia.
Qed.

Lemma nondecreasing_lookup l i j x y :
  nondecreasing l -> (i <= j)%nat -> l !! i = Some x -> l !! j = Some y -> x <= y.
Proof.
  revert i j. induction l as [|a l IH]; intros i j Hl Hij Hi Hj; [done|].
  destruct Hl as [Ha Hl]. destruct i as [|i], j as [|j]; simpl in *.
  - simplify_eq. lia.
  - simplify_eq. rewrite Forall_forall in Ha. apply Ha.
    by eapply list_elem_of_lookup_2.
  - lia.
  - apply (IH i j); auto. lia.
Qed.

Lemma last_depth_log st u d :
  last (fetch_log st) = Some (u, d) -> last ((fetch_log st).*2) = Some d.
Proof. intros H. by rewrite fmap_last, H. Qed.

Ltac rsimpl :=
  cbn [self base_domain crawl_queue pages_crawled pc world fetch_log yielded].

Lemma bfs_inv_step st :
  (forall s, pc st = Created s -> fetch_log st = [] /\ crawl_queue st = []) ->
  bfs_inv st -> bfs_inv (step st).
Proof.
  intros Hcr (Hlog & Hq & Hb & Hy). unfold bfs_inv, last_depth, Crawler.step in *.
  destruct (pc st) eqn:Hpc.
  - destruct (Hcr _ eq_refl) as [Hl0 Hq0]. unfold set_pc.
    destruct (normalize_url start_url) as [s'|]; rsimpl; [|by split_and!].
    destruct (urlparse s' EmptyString) as [p|]; rsimpl; [|by split_and!].
    rewrite Hl0. simpl. split_and!; auto.
    constructor; [simpl; lia|constructor].
  - unfold set_pc.
    destruct (crawl_queue st) as [|[u d] rest] eqn:Hqe; rsimpl.
    { split_and!; auto. }
    destruct (negb (pages_crawled st <? max_pages (self st))); rsimpl.
    { split_and!; auto. }
    simpl in Hq. destruct Hq as [Hd Hrest].
    apply Forall_cons in Hb as [Hbd Hbrest]. simpl in Hbd.
    destruct (bool_decide (u ∈ visited (self st))); rsimpl.
    { split_and!; auto. }
    destruct (max_depth (self st) <? d); rsimpl.
    { split_and!; auto. }
    assert (Hnew : nondecreasing ((fetch_log st ++ [(u, d)]).*2)).
    { rewrite fmap_app. simpl. apply nondecreasing_snoc; [done|].
      destruct (last (fetch_log st)) as [[u0 d0]|] eqn:Hlast.
      - pose proof (nondecreasing_last _ d0 Hlog (last_depth_log _ _ _ Hlast)) as Hall.
        eapply Forall_impl; [exact Hall|]. simpl in *. lia.
      - apply last_None in Hlast. rewrite Hlast. constructor. }
    assert (Hrest' : Forall (fun e : string * Z => d <= e.2 <= d + 1) rest).
    { apply Forall_forall. intros e He.
      rewrite Forall_forall in Hbrest. specialize (Hbrest e He).
      rewrite Forall_forall in Hd. specialize (Hd (e.2)).
      split; [|lia]. apply Hd. apply list_elem_of_fmap. eauto. }
    destruct (Crawler.fetch_page _ _ _ _ _) as [w' [pd|]]; rsimpl.
    + rewrite last_snoc. simpl. split_and!; auto.
    + rewrite last_snoc. simpl. split_and!; auto.
  - unfold set_pc. subst depth.
    destruct (_ <? max_depth (self st)); rsimpl; [|split_and!; by auto].
    destruct (enqueue_links _ _ _ _ _ _ _) as [q'|] eqn:Henq; rsimpl;
      [|split_and!; by auto].
    apply enqueue_links_app in Henq as (news & -> & Hnews).
    split_and!; auto.
    + rewrite fmap_app.
      apply nondecreasing_app
        with (x := (match last (fetch_log st) with
                    | Some e => e.2 | None => 0 end) + 1); [done| |].
      * apply Forall_fmap. eapply Forall_impl; [exact Hb|]. simpl. lia.
      * apply Forall_fmap. exact Hnews.
    + apply Forall_app. split; [done|].
      eapply Forall_impl; [exact Hnews|]. simpl. lia.
  - rewrite Hpc. split_and!; auto.
  - rewrite Hpc. split_and!; auto.
Qed.

Lemma created_empty_steps n (self0 : WebCrawler) seed w :
  let st := steps n (crawl self0 seed w) in
  forall s, pc st = Created s -> fetch_log st = [] /\ crawl_queue st = [].
Proof.
  induction n as [|n IH]; simpl; [done|].
  intros s. fold (steps n (crawl self0 seed w)). simpl in IH.
  unfold Crawler.step. repeat case_match; simpl; try done.
  all: intros; congruence.
Qed.

Lemma bfs_inv_steps n (self0 : WebCrawler) seed w :
  bfs_inv (steps n (crawl self0 seed w)).
Proof.
  induction n as [|n IH].
  - unfold bfs_inv. simpl. split_and!; auto.
  - rewrite steps_S. apply bfs_inv_step; [|done]. apply created_empty_steps.
Qed.

(** *** Depths *)

Lemma depth_inv_step st :
  (forall s, pc st = Created s -> fetch_log st = [] /\ crawl_queue st = []) ->
  depth_inv st -> depth_inv (step st).
Proof.
  intros Hcr (Hq & Hlog & Hy). unfold depth_inv, Crawler.step.
  destruct (pc st) eqn:Hpc.
  - destruct (Hcr _ eq_refl) as [Hl0 Hq0]. unfold set_pc.
    destruct (normalize_url start_url) as [s'|]; simpl; [|by split_and!].
    destruct (urlparse s' EmptyString) as [p|]; simpl; [|by split_and!].
    split_and!; auto.
  - unfold set_pc.
    destruct (crawl_queue st) as [|[u d] rest] eqn:Hqe; simpl.
    { rewrite ?Hqe. split_and!; auto. }
    destruct (negb (pages_crawled st <? max_pages (self st))); simpl.
    { rewrite ?Hqe. split_and!; auto. }
    apply Forall_cons in Hq as [Hd Hrest]. simpl in Hd.
    destruct (bool_decide (u ∈ visited (self st))); simpl.
    { split_and!; auto. }
    destruct (max_depth (self st) <? d); simpl.
    { split_and!; auto. }
    destruct (Crawler.fetch_page _ _ _ _ _) as [w' [pd|]]; simpl.
    + split_and!; auto; [|lia].
      apply Forall_app. split; [done|]. constructor; [simpl; lia|constructor].
    + split_and!; auto.
      apply Forall_app. split; [done|]. constructor; [simpl; lia|constructor].
  - unfold set_pc.
    destruct (depth <? max_depth (self st)) eqn:Hlt; simpl; [|split_and!; by auto].
    apply Z.ltb_lt in Hlt.
    destruct (enqueue_links _ _ _ _ _ _ _) as [q'|] eqn:Henq; simpl;
      [|split_and!; by auto].
    apply enqueue_links_app in Henq as (news & -> & Hnews).
    split_and!; auto.
    apply Forall_app. split; [done|].
    eapply Forall_impl; [exact Hnews|]. simpl. intros e ->. lia.
  - rewrite Hpc. split_and!; auto.
  - rewrite Hpc. split_and!; auto.
Qed.

Lemma depth_inv_steps n (self0 : WebCrawler) seed w :
  depth_inv (steps n (crawl self0 seed w)).
Proof.
  induction n as [|n IH].
  - unfold depth_inv. simpl. split_and!; auto.
  - rewrite steps_S. apply depth_inv_step; [|done]. apply created_empty_steps.
Qed.

(** *** The records yielded *)

Lemma yield_inv_step st :
  (forall s, pc st = Created s -> yielded st = [] /\ fetch_log st = []) ->
  yield_inv st -> yield_inv (step st).
Proof.
  intros Hcr [Hsub Hlen]. unfold yield_inv, Crawler.step.
  repeat case_match; simpl; try (split; done).
  - destruct (Hcr _ eq_refl) as [-> ->]. split; done.
  - match goal with H : Crawler.fetch_page _ _ _ _ _ = _ |- _ =>
      apply fetch_page_url in H as Hurl end.
    rewrite !fmap_app, length_app. simpl. rewrite Hurl. split; [|lia].
    by apply sublist_app.
  - rewrite fmap_app. split; [|done]. by apply sublist_inserts_r.
Qed.

Lemma yield_inv_steps n (self0 : WebCrawler) seed w :
  yield_inv (steps n (crawl self0 seed w)).
Proof.
  induction n as [|n IH].
  - unfold yield_inv. simpl. split; [constructor|done].
  - rewrite steps_S. apply yield_inv_step; [|done]. apply created_logs_steps.
Qed.

(** *** Why the generator returns *)

Lemma return_inv_step st : return_inv st -> return_inv (step st).
Proof.
  unfold return_inv, Crawler.step, set_pc. intros H.
  destruct (pc st) eqn:Hpc.
  - repeat case_match; simpl; done.
  - destruct (crawl_queue st) as [|[u d] rest] eqn:Hqe; simpl.
    { rewrite ?Hqe. by left. }
    destruct (pages_crawled st <? max_pages (self st)) eqn:Hlt; simpl.
    + repeat case_match; simpl; done.
    + apply Z.ltb_ge in Hlt. by right.
  - repeat case_match; simpl; done.
  - rewrite Hpc. auto.
  - rewrite Hpc. done.
Qed.

Lemma return_inv_steps n (self0 : WebCrawler) seed w :
  return_inv (steps n (crawl self0 seed w)).
Proof.
  induction n as [|n IH]; [done|]. rewrite steps_S. by apply return_inv_step.
Qed.

(** *** Crawls without a budget *)

Lemma idle_inv_step st :
  max_pages (self st) <= 0 \/ max_depth (self st) < 0 ->
  idle_inv st -> idle_inv (step st).
Proof.
  intros Hno (Hlog & Hy & Hpg & Hq & Hpc'). unfold idle_inv, Crawler.step, set_pc.
  destruct (pc st) eqn:Hpc; try done.
  - destruct (normalize_url start_url) as [s'|]; simpl; [|by split_and!].
    destruct (urlparse s' EmptyString) as [p|]; simpl; [|by split_and!].
    split_and!; auto.
  - destruct (crawl_queue st) as [|[u d] rest] eqn:Hqe; simpl.
    { rewrite ?Hqe. split_and!; auto. }
    destruct (pages_crawled st <? max_pages (self st)) eqn:Hlt; simpl;
      [|rewrite ?Hqe; split_and!; by auto].
    apply Z.ltb_lt in Hlt.
    apply Forall_cons in Hq as [Hd Hrest]. simpl in Hd. subst d.
    destruct (bool_decide (u ∈ visited (self st))); simpl.
    { split_and!; auto. }
    destruct (max_depth (self st) <? 0) eqn:Hdeep; simpl.
    { split_and!; auto. }
    apply Z.ltb_ge in Hdeep. lia.
  - rewrite Hpc. split_and!; auto.
  - rewrite Hpc. split_and!; auto.
Qed.

Lemma idle_inv_steps n (self0 : WebCrawler) seed w :
  max_pages self0 <= 0 \/ max_depth self0 < 0 ->
  idle_inv (steps n (crawl self0 seed w)).
Proof.
  intros Hno. induction n as [|n IH].
  - unfold idle_inv. simpl. split_and!; auto.
  - rewrite steps_S. apply idle_inv_step; [|done].
    destruct (steps_config _check_bracketed_host list_of_set World session_get n
                (crawl self0 seed w)) as (-> & -> & _). done.
Qed.

(** A crawl that has fetched nothing after its third step has ended *)
Lemma idle_ends (self0 : WebCrawler) seed w :
  max_pages self0 <= 0 \/ max_depth self0 < 0 ->
  ended (steps 3 (crawl self0 seed w)).
Proof.
  intros Hno.
  change (steps 3 (crawl self0 seed w))
    with (step (step (step (crawl self0 seed w)))).
  unfold ended.
  destruct (normalize_url seed) as [s'|] eqn:Hn.
  2:{ right. unfold Crawler.step at 3. simpl. rewrite Hn. done. }
  destruct (urlparse s' EmptyString) as [p|] eqn:Hp.
  2:{ right. unfold Crawler.step at 3. simpl. rewrite Hn, Hp. done. }
  rewrite (step_created _ _ _ _ _ _ _ _ _ Hn Hp). left.
  unfold Crawler.step at 2. simpl.
  destruct (0 <? max_pages self0) eqn:Hlt; simpl; [|done].
  apply Z.ltb_lt in Hlt.
  destruct (bool_decide (s' ∈ visited self0)); simpl; [done|].
  destruct (max_depth self0 <? 0) eqn:Hdeep; simpl; [done|].
  apply Z.ltb_ge in Hdeep. lia.
Qed.

(** *** A seed that was visited before *)

Lemma seed_visited (self0 : WebCrawler) seed w s' p :
  normalize_url seed = Some s' -> urlparse s' EmptyString = Some p ->
  s' ∈ visited self0 ->
  let st := steps 3 (crawl self0 seed w) in
  pc st = Returned /\ fetch_log st = [] /\ yielded st = [] /\ self st = self0
  /\ world st = w.
Proof.
  intros Hn Hp Hv.
  change (steps 3 (crawl self0 seed w))
    with (step (step (step (crawl self0 seed w)))).
  rewrite (step_created _ _ _ _ _ _ _ _ _ Hn Hp).
  unfold Crawler.step at 2. simpl.
  destruct (0 <? max_pages self0) eqn:Hlt; simpl; [|done].
  rewrite bool_decide_eq_true_2 by done. done.
Qed.

End More.
End CrawlMore.

(** * Fragments, and the loop of [_extract_links] *)

Module UrlMore.
Import Urllib Crawler Notions CrawlNotions CrawlFacts StrFacts NormalizeFacts JoinFacts NoRaise MoreFacts.
Local Close Scope Z_scope.
#[local] Arguments String.append : simpl nomatch.

Lemma contains_lstrip c p s :
  str_contains c s = false -> str_contains c (str_lstrip p s) = false.
Proof.
  induction s as [|a s IH]; simpl; [done|].
  intros [Ha Hs]%orb_false_iff. destruct (p a); [auto|].
  simpl. by rewrite Ha, Hs.
Qed.

Lemma contains_remove_unsafe c s :
  str_contains c s = false -> str_contains c (remove_unsafe s) = false.
Proof.
  intros H. unfold remove_unsafe. rewrite !contains_remove, H. done.
Qed.

Lemma scheme_no_hash s :
  str_forall in_scheme_chars s = true -> str_contains "#" s = false.
Proof.
  induction s as [|a s IH]; simpl; [done|].
  intros [Ha Hs]%andb_true_iff. rewrite (IH Hs), orb_false_r.
  apply chr_eqb_neq. intros ->. by vm_compute in Ha.
Qed.

Lemma detect_scheme_contains c d w :
  str_contains c w = false -> str_contains c (detect_scheme d w).2 = false.
Proof.
  intros H. unfold detect_scheme.
  destruct (str_find ":" w) as [[|i]|]; [done| |done].
  destruct w as [|c0 w']; [done|].
  destruct (_ && _); [|done]. cbn [snd]. by apply contains_drop.
Qed.

Lemma detect_netloc_contains chk c rest n t :
  detect_netloc chk rest = Some (n, t) ->
  str_contains c rest = false -> str_contains c t = false.
Proof.
  unfold detect_netloc, _splitnetloc. intros H Hc.
  destruct (str_eqb (str_take 2 rest) "//").
  - destruct (netloc_brackets_ok chk _); [|done].
    injection H as _ <-. by apply contains_drop.
  - by injection H as _ <-.
Qed.

Lemma split_tail_no_hash t : str_contains "#" t = false -> (split_tail t).2 = "".
Proof.
  intros H. unfold split_tail. rewrite (cut_none _ _ H).
  by destruct (cut "?" t).
Qed.

Section Url.

Variable chk : string -> bool.

Abbreviation urlparse := (Urllib.urlparse chk).
Abbreviation urljoin := (Urllib.urljoin chk).
Abbreviation normalize_url := (Crawler.normalize_url chk).

(** A URL without [#] has no fragment *)
Lemma parse_no_hash v q :
  str_contains "#" v = false -> urlparse v "" = Some q -> fragment q = "".
Proof.
  intros Hv. rewrite urlparse_eq, urlsplit_eq.
  destruct (detect_netloc chk _) as [[n t]|] eqn:En; [|done].
  intros [= <-]. cbn [fragment s_fragment].
  apply split_tail_no_hash. eapply detect_netloc_contains; [exact En|].
  apply detect_scheme_contains. unfold clean_url.
  by apply contains_remove_unsafe, contains_lstrip.
Qed.

(** No component that [urlparse] returns before the fragment holds a [#] *)
Lemma parse_parts_no_hash u p :
  urlparse u "" = Some p ->
  str_contains "#" (scheme p) = false /\ str_contains "#" (netloc p) = false
  /\ str_contains "#" (path p) = false /\ str_contains "#" (params p) = false
  /\ str_contains "#" (query p) = false.
Proof.
  rewrite urlparse_eq. destruct (urlsplit chk u "") as [r|] eqn:Hr; [|done].
  intros [= <-]. cbn [scheme netloc path params query].
  destruct (urlsplit_sound chk _ _ _ Hr) as (Hs & (Hn & _) & _ & _ & Hu & Hq & _).
  destruct (split_params (s_scheme r) (s_url r)) as [a b] eqn:Hsp.
  destruct (split_params_keep _ _ _ _ Hsp) as [Hk _].
  destruct (Hk _ Hu) as [Ha Hb]. cbn [fst snd].
  split_and!; auto.
  - destruct Hs as [-> | (_ & Hf & _)]; [done|]. by apply scheme_no_hash.
  - by destruct Hn as (_ & _ & ?).
Qed.

Lemma rebuild_no_hash u p :
  urlparse u "" = Some p -> str_contains "#" (rebuild p) = false.
Proof.
  intros Hp. destruct (parse_parts_no_hash _ _ Hp) as (Hs & Hn & Hpa & Hpr & Hq).
  unfold rebuild, urlunparse, urlunsplit. cbn [truthy].
  repeat match goal with
         | |- context [if ?b then _ else _] => destruct b
         end;
    rewrite ?contains_app, ?Hs, ?Hn, ?Hpa, ?Hpr, ?Hq; done.
Qed.

Lemma normalize_no_hash u v :
  normalize_url u = Some v -> str_contains "#" v = false.
Proof.
  rewrite normalize_eq. destruct (urlparse u "") as [p|] eqn:Hp; [|done].
  intros [= <-]. unfold strip_rule. pose proof (rebuild_no_hash _ _ Hp).
  destruct (_ && _); [|done]. by apply contains_take.
Qed.

(** A seed with a netloc is not rejected by [crawl] *)
Lemma seed_with_netloc_accepted seed p :
  urlparse seed "" = Some p -> netloc p <> "" -> ~ seed_rejected chk seed.
Proof.
  intros Hp Hn. unfold seed_rejected.
  destruct (normalize_is_Some chk seed) as [v Hv]; [by eexists|].
  rewrite Hv. destruct (normalize_keeps_netloc chk _ _ _ Hp Hn Hv) as (p' & -> & _).
  done.
Qed.

(** The normal form of an http or https URL with a host is one too *)
Lemma fetchable_normalized seed :
  fetchable chk seed -> exists s', normalize_url seed = Some s' /\ fetchable chk s'.
Proof.
  intros (p & Hp & Hs & Hn).
  destruct (normalize_is_Some chk seed) as [v Hv]; [by eexists|].
  destruct (normalize_keeps_netloc chk _ _ _ Hp Hn Hv) as (p' & Hp' & Hn' & Hs').
  exists v. split; [done|]. exists p'. by rewrite Hs', Hn'.
Qed.

(** The first step of [crawl] on a seed that it does not reject *)
Lemma accepted_seed_starts {World : Type} list_of_set
    (session_get : World -> string -> World * Reply) (self0 : WebCrawler) seed w :
  ~ seed_rejected chk seed ->
  pc (step chk list_of_set session_get (crawl self0 seed w)) = LoopHead.
Proof.
  unfold seed_rejected, Crawler.step. simpl. intros H.
  destruct (normalize_url seed) as [s'|]; [|done].
  by destruct (Urllib.urlparse chk s' "").
Qed.

(** *** The loop of [_extract_links] *)

Lemma collect_links_origin base hrefs acc L :
  L ∈ TextExtractor.collect_links chk base hrefs acc ->
  L ∈ acc
  \/ exists raw, raw ∈ hrefs
       /\ str_strip is_space raw <> ""
       /\ Forall (fun p => str_startswith p (str_strip is_space raw) = false)
            TextExtractor.skipped_prefixes
       /\ urljoin base (str_strip is_space raw) = Some L.
Proof.
  revert acc. induction hrefs as [|raw hrefs IH]; intros acc; simpl; [auto|].
  destruct (truthy _ && negb _) eqn:Hok.
  2:{ intros [?|(r & ? & ?)]%IH; [by left|]. right. exists r. split; [|done].
      by apply elem_of_cons; right. }
  destruct (urljoin base (str_strip is_space raw)) as [a|] eqn:E; [|auto].
  intros [Hin|(r & ? & ?)]%IH.
  - apply elem_of_app in Hin as [?| ->%list_elem_of_singleton]; [by left|].
    right. exists raw. apply andb_true_iff in Hok as [Ht Hsk].
    split_and!; auto.
    + apply elem_of_cons; by left.
    + by apply truthy_true.
    + apply negb_true_iff in Hsk. simpl in Hsk. rewrite !orb_false_iff in Hsk.
      destruct Hsk as (? & ? & ? & ? & _). repeat constructor; done.
  - right. exists r. split; [|done]. by apply elem_of_cons; right.
Qed.

(** When [urljoin] raises for an anchor, the anchors after it are not looked
    at *)
Lemma collect_links_abandon base h1 bad h2 acc :
  truthy (str_strip is_space bad) = true ->
  existsb (fun p => str_startswith p (str_strip is_space bad))
    TextExtractor.skipped_prefixes = false ->
  urljoin base (str_strip is_space bad) = None ->
  TextExtractor.collect_links chk base (h1 ++ bad :: h2) acc
  = TextExtractor.collect_links chk base h1 acc.
Proof.
  intros Ht Hs Hj. revert acc. induction h1 as [|raw h1 IH]; intros acc.
  - simpl in *. by rewrite Ht, Hs, Hj.
  - simpl. destruct (truthy _ && negb _); [|apply IH].
    destruct (urljoin base (str_strip is_space raw)); [apply IH|done].
Qed.

End Url.
End UrlMore.

(** * The histories of a crawl *)

Module CrawlHistory.
Import Urllib Crawler Notions CrawlNotions CrawlFacts CrawlMore UrlMore.
Section History.

Variable _check_bracketed_host : string -> bool.
Variable list_of_set : list string -> list string.
Variable World : Type.
Variable session_get : World -> string -> World * Reply.

Abbreviation urlparse := (Urllib.urlparse _check_bracketed_host).
Abbreviation normalize_url := (Crawler.normalize_url _check_bracketed_host).
Abbreviation fetch_page := (Crawler.fetch_page _check_bracketed_host list_of_set session_get).
Abbreviation step := (Crawler.step _check_bracketed_host list_of_set session_get).
Abbreviation steps := (Crawler.steps _check_bracketed_host list_of_set session_get).
Abbreviation replay := (CrawlNotions.replay _check_bracketed_host list_of_set session_get).
Abbreviation records := (CrawlNotions.records _check_bracketed_host list_of_set session_get).
Abbreviation replay_inv := (CrawlNotions.replay_inv _check_bracketed_host list_of_set session_get).

Implicit Types st : State World.

Ltac psimpl :=
  cbn [self base_domain crawl_queue pages_crawled pc world fetch_log yielded].

Lemma enqueue_links_news (self0 : WebCrawler) b cur d links q q' :
  enqueue_links _check_bracketed_host self0 b cur d links q = Some q' ->
  exists news, q' = q ++ news
    /\ Forall (fun e => e.2 = d + 1 /\ exists a, normalize_url a = Some e.1) news.
Proof.
  revert q. induction links as [|l links IH]; intros q; simpl.
  - intros [= ->]. exists []. by rewrite List.app_nil_r.
  - destruct (Urllib.urljoin _ cur l) as [a|]; [|done]. simpl.
    destruct (normalize_url a) as [n|] eqn:Hn; [|done]. simpl.
    intros H. destruct (IH _ H) as (news & -> & Hnews).
    destruct (negb (bool_decide _) && _); [|eauto].
    exists ((n, d + 1) :: news). rewrite <- List.app_assoc. split; [done|].
    constructor; [|done]. simpl. eauto.
Qed.

(** The loop over the links queues, behind what is queued, exactly the links
    that resolve to a URL that is not in [visited] and is valid *)
Lemma enqueue_links_exact (self0 : WebCrawler) b cur d links q q' :
  enqueue_links _check_bracketed_host self0 b cur d links q = Some q' ->
  exists news, q' = q ++ news
    /\ forall e, e ∈ news <->
         e.2 = d + 1
         /\ exists l a, l ∈ links /\ Urllib.urljoin _check_bracketed_host cur l = Some a
              /\ normalize_url a = Some e.1 /\ (e.1 ∉ visited self0)
              /\ Crawler.is_valid_url _check_bracketed_host self0 e.1 b = true.
Proof.
  revert q. induction links as [|l links IH]; intros q; simpl.
  - intros [= ->]. exists []. rewrite List.app_nil_r. split; [done|].
    intros e. split; [by intros ?%elem_of_nil|].
    by intros (_ & l & a & ?%elem_of_nil & _).
  - destruct (Urllib.urljoin _ cur l) as [a|] eqn:Ha; [|done]. simpl.
    destruct (normalize_url a) as [n|] eqn:Hn; [|done]. simpl.
    intros H. destruct (IH _ H) as (news & -> & Hnews). clear IH H.
    destruct (negb (bool_decide (n ∈ visited self0))
              && Crawler.is_valid_url _check_bracketed_host self0 n b) eqn:Hc.
    + apply andb_true_iff in Hc as [Hv%negb_true_iff%bool_decide_eq_false Hok].
      exists ((n, d + 1) :: news). rewrite <- List.app_assoc. split; [done|].
      intros e. rewrite elem_of_cons, Hnews. split.
      * intros [->|(He & l' & a' & Hl & ?)].
        -- split; [done|]. exists l, a. simpl. split_and!; auto. by left.
        -- split; [done|]. exists l', a'. split; [by right|done].
      * intros (He & l' & a' & [->|Hl]%elem_of_cons & Ha' & Hn' & ?).
        -- left. rewrite Ha in Ha'. injection Ha' as <-. rewrite Hn in Hn'.
           injection Hn' as Hn'. destruct e as [u k]; simpl in *. by subst.
        -- right. split; [done|]. exists l', a'. done.
    + exists news. split; [done|]. intros e. rewrite Hnews. split.
      * intros (He & l' & a' & Hl & ?). split; [done|].
        exists l', a'. split; [by right|done].
      * intros (He & l' & a' & [->|Hl]%elem_of_cons & Ha' & Hn' & Hv & Hok).
        -- exfalso. rewrite Ha in Ha'. injection Ha' as <-. rewrite Hn in Hn'.
           injection Hn' as Hn'. rewrite <- Hn' in Hv, Hok.
           apply andb_false_iff in Hc as [Hc|Hc]; [|congruence].
           apply negb_false_iff, bool_decide_eq_true in Hc. done.
        -- split; [done|]. exists l', a'. done.
Qed.

Lemma fetch_page_content w u w' pd :
  fetch_page w u = (w', Some pd) ->
  truthy (str_strip is_space (pd_content pd)) = true.
Proof.
  unfold Crawler.fetch_page. destruct (session_get w u) as [w1 [| |t c a]]; try discriminate.
  destruct (truthy (str_strip is_space c)) eqn:E; [|discriminate].
  intros [= _ <-]. exact E.
Qed.

(** *** No fragment is ever requested *)

Lemma hash_inv_step st :
  (forall s, pc st = Created s -> fetch_log st = [] /\ crawl_queue st = []) ->
  hash_inv st -> hash_inv (step st).
Proof.
  intros Hcr (Hq & Hl & Hy). unfold hash_inv, Crawler.step, set_pc.
  destruct (pc st) eqn:Hpc.
  - destruct (normalize_url start_url) as [s'|] eqn:Hn; psimpl; [|done].
    destruct (urlparse s' EmptyString) as [p|]; psimpl; [|done].
    split_and!; auto. constructor; [|constructor]. simpl.
    by eapply normalize_no_hash.
  - destruct (crawl_queue st) as [|[u d] rest] eqn:Hqe; psimpl; [done|].
    destruct (negb _); psimpl; [done|].
    apply Forall_cons in Hq as [Hu Hrest]. simpl in Hu.
    destruct (bool_decide _); psimpl; [done|].
    destruct (_ <? _); psimpl; [done|].
    destruct (Crawler.fetch_page _ _ _ _ _) as [w' [pd|]] eqn:Hfp; psimpl.
    + apply fetch_page_url in Hfp. split_and!; auto.
      * apply Forall_app. split; [done|]. by constructor.
      * apply Forall_app. split; [done|]. constructor; [|done]. simpl. by rewrite Hfp.
    + split_and!; auto. apply Forall_app. split; [done|]. by constructor.
  - destruct (_ <? _); psimpl; [|done].
    destruct (enqueue_links _ _ _ _ _ _ _) as [q'|] eqn:Henq; psimpl; [|done].
    apply enqueue_links_news in Henq as (news & -> & Hnews).
    split_and!; auto. apply Forall_app. split; [done|].
    eapply Forall_impl; [exact Hnews|]. intros e (_ & a & Ha).
    by eapply normalize_no_hash.
  - done.
  - done.
Qed.

Lemma hash_inv_steps n (self0 : WebCrawler) seed w :
  hash_inv (steps n (crawl self0 seed w)).
Proof.
  induction n as [|n IH].
  - unfold hash_inv. simpl. split_and!; constructor.
  - rewrite steps_S. apply hash_inv_step; [|done]. apply created_empty_steps.
Qed.

(** *** No blank page is yielded *)

Lemma blank_inv_step st : blank_inv st -> blank_inv (step st).
Proof.
  intros Hy. unfold blank_inv, Crawler.step, set_pc.
  repeat case_match; psimpl; try done.
  apply Forall_app. split; [done|]. constructor; [|constructor]. simpl.
  by eapply fetch_page_content.
Qed.

Lemma blank_inv_steps n (self0 : WebCrawler) seed w :
  blank_inv (steps n (crawl self0 seed w)).
Proof.
  induction n as [|n IH]; [constructor|]. rewrite steps_S. by apply blank_inv_step.
Qed.

(** *** Parents *)

Lemma has_parent_mono st st' e :
  yielded st `prefix_of` yielded st' -> fetch_log st `prefix_of` fetch_log st' ->
  has_parent st e -> has_parent st' e.
Proof.
  intros [ky Hy] [kl Hl] [H0|(r & Hr & Hin)]; [by left|right].
  exists r. rewrite Hy, Hl. split; apply elem_of_app; by left.
Qed.

Lemma parent_inv_step st :
  (forall s, pc st = Created s -> fetch_log st = [] /\ crawl_queue st = []) ->
  parent_inv st -> parent_inv (step st).
Proof.
  intros Hcr (Hq & Hl & Hp).
  destruct (step_grows _check_bracketed_host list_of_set World session_get st)
    as (Hgl & Hgy & _).
  assert (Hmono : forall e, has_parent st e -> has_parent (step st) e).
  { intros e. by apply has_parent_mono. }
  apply (Forall_impl _ _ _ Hq) in Hmono as Hq'.
  apply (Forall_impl _ _ _ Hl) in Hmono as Hl'.
  clear Hgl Hgy. revert Hmono Hq' Hl'.
  unfold parent_inv, Crawler.step, set_pc.
  destruct (pc st) eqn:Hpc.
  - destruct (Hcr _ eq_refl) as [Hl0 Hq0].
    destruct (normalize_url start_url) as [s'|] eqn:Hn; psimpl; [|done].
    destruct (urlparse s' EmptyString) as [p|]; psimpl; [|done].
    intros _ _ Hl'. split_and!; auto. constructor; [by left|constructor].
  - destruct (crawl_queue st) as [|[u d] rest] eqn:Hqe; psimpl; [done|].
    destruct (negb _); psimpl; [done|].
    destruct (bool_decide _); psimpl.
    { intros _ Hq' Hl'. apply Forall_cons in Hq' as [_ ?]. done. }
    destruct (_ <? _); psimpl.
    { intros _ Hq' Hl'. apply Forall_cons in Hq' as [_ ?]. done. }
    destruct (Crawler.fetch_page _ _ _ _ _) as [w' [pd|]] eqn:Hfp; psimpl.
    + apply fetch_page_url in Hfp. intros _ Hq' Hl'.
      apply Forall_cons in Hq' as [Hu' Hrest']. split_and!; auto.
      * apply Forall_app. split; [done|]. by constructor.
      * eexists. split_and!.
        -- apply elem_of_app. right. by apply list_elem_of_singleton.
        -- by simpl.
        -- apply elem_of_app. right. by apply list_elem_of_singleton.
    + intros _ Hq' Hl'. apply Forall_cons in Hq' as [Hu' Hrest']. split_and!; auto.
      apply Forall_app. split; [done|]. by constructor.
  - destruct (_ <? _); psimpl; [|done].
    destruct (enqueue_links _ _ _ _ _ _ _) as [q'|] eqn:Henq; psimpl; [|done].
    apply enqueue_links_news in Henq as (news & -> & Hnews).
    intros _ Hq' Hl'. split_and!; auto.
    apply Forall_app. split; [done|].
    eapply Forall_impl; [exact Hnews|]. intros e (He & _).
    destruct Hp as (r & Hr & Hu & Hin). right. exists r. psimpl. split; [done|].
    rewrite He, Hu. by replace (depth + 1 - 1) with depth by lia.
  - intros _ ? ?. by rewrite Hpc.
  - intros _ ? ?. by rewrite Hpc.
Qed.

Lemma parent_inv_steps n (self0 : WebCrawler) seed w :
  parent_inv (steps n (crawl self0 seed w)).
Proof.
  induction n as [|n IH].
  - unfold parent_inv. simpl. split_and!; auto.
  - rewrite steps_S. apply parent_inv_step; [|done]. apply created_empty_steps.
Qed.

(** *** The requests *)

Lemma replay_snoc w urls u :
  replay w (urls ++ [u]) = (fetch_page (replay w urls) u).1.
Proof. revert w. induction urls as [|x urls IH]; intros w; simpl; [done|]. apply IH. Qed.

Lemma records_snoc w urls u :
  records w (urls ++ [u])
  = records w urls
    ++ match (fetch_page (replay w urls) u).2 with
       | Some pd => [mkRecord (pd_url pd) (pd_title pd) (pd_content pd)]
       | None => []
       end.
Proof.
  revert w. induction urls as [|x urls IH]; intros w; simpl.
  - destruct (Crawler.fetch_page _ _ _ w u) as [w' [pd|]]; done.
  - destruct (Crawler.fetch_page _ _ _ w x) as [w' [pd|]]; simpl; by rewrite IH.
Qed.

Lemma replay_inv_step w0 st : replay_inv w0 st -> replay_inv w0 (step st).
Proof.
  intros [Hw Hy]. unfold CrawlNotions.replay_inv, Crawler.step, set_pc.
  destruct (pc st) eqn:Hpc; try done.
  - repeat case_match; psimpl; done.
  - destruct (crawl_queue st) as [|[u d] rest] eqn:Hqe; psimpl; [done|].
    destruct (negb _); psimpl; [done|].
    destruct (bool_decide _); psimpl; [done|].
    destruct (_ <? _); psimpl; [done|].
    destruct (Crawler.fetch_page _ _ _ _ _) as [w' [pd|]] eqn:Hfp; psimpl;
      rewrite fmap_app; change ([(u, d)].*1) with [u];
      rewrite replay_snoc, records_snoc, <- Hw, <- Hy, Hfp; cbn [fst snd];
      by rewrite ?List.app_nil_r.
  - repeat case_match; psimpl; done.
Qed.

Lemma replay_inv_steps n (self0 : WebCrawler) seed w :
  replay_inv w (steps n (crawl self0 seed w)).
Proof.
  induction n as [|n IH]; [done|]. rewrite steps_S. by apply replay_inv_step.
Qed.

(** *** The first fetch *)

Lemma head_snoc {A : Type} (l : list A) (x y : A) :
  head l = Some x -> head (l ++ [y]) = Some x.
Proof. by destruct l. Qed.

Lemma seed_first_inv_step seed st :
  seed_first_inv _check_bracketed_host seed st ->
  seed_first_inv _check_bracketed_host seed (step st).
Proof.
  unfold seed_first_inv, Crawler.step, set_pc.
  destruct (pc st) eqn:Hpc.
  - intros (-> & Hl & Hq).
    destruct (normalize_url seed) as [s'|] eqn:Hn; psimpl; [|by left; auto].
    destruct (urlparse s' EmptyString) as [p|]; psimpl; [|by left; auto].
    left. split; [done|]. right. eauto.
  - intros H. destruct (crawl_queue st) as [|[u d] rest] eqn:Hqe; psimpl; [done|].
    destruct (negb _); psimpl; [done|].
    destruct (bool_decide _); psimpl.
    { destruct H as [[Hl [?|(s' & Hn & [= -> -> ->])]]|H]; [done| |by right].
      left. auto. }
    destruct (_ <? _); psimpl.
    { destruct H as [[Hl [?|(s' & Hn & [= -> -> ->])]]|H]; [done| |by right].
      left. auto. }
    assert (Hnew : exists s', normalize_url seed = Some s'
                     /\ head (fetch_log st ++ [(u, d)]) = Some (s', 0)).
    { destruct H as [[Hl [?|(s' & Hn & [= -> -> ->])]]|(s' & Hn & Hh)]; [done| |].
      - exists s'. by rewrite Hl.
      - exists s'. split; [done|]. by apply head_snoc. }
    destruct (Crawler.fetch_page _ _ _ _ _) as [w' [pd|]]; psimpl; [done|by right].
  - intros H. destruct (_ <? _); psimpl; [|by right].
    destruct (enqueue_links _ _ _ _ _ _ _); psimpl; by right.
  - by rewrite Hpc.
  - by rewrite Hpc.
Qed.

Lemma seed_first_inv_steps n (self0 : WebCrawler) seed w :
  seed_first_inv _check_bracketed_host seed (steps n (crawl self0 seed w)).
Proof.
  induction n as [|n IH]; [done|]. rewrite steps_S. by apply seed_first_inv_step.
Qed.

End History.
End CrawlHistory.

(** * Facts about [re.sub] *)

Module ReFacts.
Import Re Patterns TextNotions Notions StrFacts.
Local Close Scope Z_scope.
#[local] Arguments String.append : simpl nomatch.

(** *** Strings *)

Lemma len_drop_le k t : str_len (str_drop k t) <= str_len t.
Proof.
  revert t. induction k as [|k IH]; intros [|a t]; simpl; try lia.
  specialize (IH t). unfold str_len in *. simpl. lia.
Qed.

Lemma forall_app p a b : str_forall p (a +:+ b) = str_forall p a && str_forall p b.
Proof. induction a as [|x a IH]; simpl; [done|]. by rewrite IH, andb_assoc. Qed.

Lemma forall_drop p n s : str_forall p s = true -> str_forall p (str_drop n s) = true.
Proof.
  revert s. induction n as [|n IH]; intros [|a s]; simpl; try done.
  intros [_ ?]%andb_true_iff. auto.
Qed.

Lemma forall_true s : str_forall (fun _ => true) s = true.
Proof. induction s; simpl; auto. Qed.

Lemma forall_impl (p q : ascii -> bool) s :
  (forall c, p c = true -> q c = true) -> str_forall p s = true -> str_forall q s = true.
Proof.
  intros H. induction s as [|a s IH]; simpl; [done|].
  intros [Ha Hs]%andb_true_iff. by rewrite (H _ Ha), IH.
Qed.

Lemma forall_not_contains p c s :
  str_forall p s = true -> p c = false -> str_contains c s = false.
Proof.
  intros Hs Hc. induction s as [|a s IH]; simpl in *; [done|].
  apply andb_true_iff in Hs as [Ha Hs]. rewrite (IH Hs), orb_false_r.
  apply chr_eqb_neq. intros ->. congruence.
Qed.

Lemma chr_eqb_sym a b : chr_eqb a b = chr_eqb b a.
Proof.
  destruct (chr_eqb a b) eqn:E.
  - apply chr_eqb_eq in E as ->. by rewrite chr_eqb_refl.
  - symmetry. apply chr_eqb_neq. apply chr_eqb_neq in E. congruence.
Qed.

Lemma startswith_app p s : str_startswith p s = true -> s = p +:+ str_drop (str_len p) s.
Proof.
  revert s. induction p as [|a p IH]; intros [|b s]; simpl; try done.
  intros [->%chr_eqb_eq H]%andb_true_iff. f_equal. by apply IH.
Qed.

(** *** [span] *)

Lemma span_drop_head p t :
  match str_drop (span p t) t with
  | String b _ => p b = false
  | EmptyString => True
  end.
Proof.
  induction t as [|a t IH]; simpl; [done|].
  destruct (p a) eqn:E; simpl; [exact IH|exact E].
Qed.

Lemma span_drop_zero p t : span p (str_drop (span p t) t) = 0.
Proof.
  pose proof (span_drop_head p t) as H.
  destruct (str_drop (span p t) t); simpl; [done|]. by rewrite H.
Qed.

Lemma span_le_len p s : span p s <= str_len s.
Proof.
  induction s as [|a s IH]; simpl; [done|]. unfold str_len in *. simpl.
  destruct (p a); lia.
Qed.

Lemma span_all p s : str_forall p s = true -> span p s = str_len s.
Proof.
  induction s as [|a s IH]; simpl; [done|].
  intros [-> Hs]%andb_true_iff. unfold str_len in *. simpl. by rewrite IH.
Qed.

Lemma span_app_le p x y : span p x <= span p (x +:+ y).
Proof. induction x as [|a x IH]; simpl; [lia|]. destruct (p a); lia. Qed.

Lemma span_take c n t : span (chr_eqb c) t = n -> str_take n t = rep n c.
Proof.
  revert t. induction n as [|n IH]; intros [|a t]; simpl; try done.
  destruct (chr_eqb c a) eqn:E; [|done]. apply chr_eqb_eq in E as <-.
  intros [= H]. by rewrite IH.
Qed.

Lemma span_rep_app c r x :
  span (chr_eqb c) (rep r c +:+ x) = r + span (chr_eqb c) x.
Proof. induction r as [|r IH]; simpl; [done|]. by rewrite chr_eqb_refl, IH. Qed.

(** *** [re.sub] *)

Lemma sub_from_drop m r k t : sub_from m r k t = sub m r (str_drop k t).
Proof.
  unfold sub. revert k. induction t as [|a t IH]; intros [|k]; simpl; try done.
Qed.

Lemma sub_cons m r a t :
  sub m r (String a t) =
  match m (String a t) with
  | Some (S k) => r +:+ sub m r (str_drop k t)
  | _ => String a (sub m r t)
  end.
Proof.
  unfold sub at 1. cbn [sub_from].
  destruct (m (String a t)) as [[|k]|]; try done. by rewrite sub_from_drop.
Qed.

(** Induction along the matches of a substitution *)
Lemma sub_ind m r (P : string -> string -> Prop) :
  P "" "" ->
  (forall a t k, m (String a t) = Some (S k) ->
     P (str_drop k t) (sub m r (str_drop k t)) ->
     P (String a t) (r +:+ sub m r (str_drop k t))) ->
  (forall a t, (forall k, m (String a t) <> Some (S k)) ->
     P t (sub m r t) -> P (String a t) (String a (sub m r t))) ->
  forall s, P s (sub m r s).
Proof.
  intros H0 H1 H2 s.
  assert (H : forall n s, str_len s < n -> P s (sub m r s)).
  { clear s. induction n as [|n IH]; intros s Hn; [lia|].
    destruct s as [|a t]; [exact H0|].
    assert (Ht : str_len t < n) by (unfold str_len in *; simpl in *; lia).
    rewrite sub_cons. destruct (m (String a t)) as [[|k]|] eqn:E.
    - apply H2; [congruence|]. by apply IH.
    - apply H1; [done|]. apply IH. pose proof (len_drop_le k t). lia.
    - apply H2; [congruence|]. by apply IH. }
  apply (H (S (str_len s))). lia.
Qed.

(** The characters of the result are characters of the replacement or
    characters where no match began *)
Lemma sub_forall (q0 q : ascii -> bool) m r s :
  str_forall q r = true ->
  (forall a t, q0 a = true -> (forall k, m (String a t) <> Some (S k)) -> q a = true) ->
  str_forall q0 s = true -> str_forall q (sub m r s) = true.
Proof.
  intros Hr Hq. revert s.
  apply (sub_ind m r (fun s out => str_forall q0 s = true -> str_forall q out = true)).
  - done.
  - intros a t k Hm IH Hs. rewrite forall_app, Hr. simpl. apply IH.
    change (str_drop k t) with (str_drop (S k) (String a t)). by apply forall_drop.
  - intros a t Hm IH Hs. simpl in *. apply andb_true_iff in Hs as [Ha Ht].
    rewrite (Hq a t Ha Hm). simpl. auto.
Qed.

(** A substitution changes nothing in a text where every match is the
    replacement itself *)
Lemma sub_id (Q : string -> Prop) m r :
  (forall a t, Q (String a t) -> Q t) ->
  (forall t k, Q t -> m t = Some (S k) -> str_take (S k) t = r) ->
  forall s, Q s -> sub m r s = s.
Proof.
  intros Htail Hm.
  assert (Hdrop : forall k t, Q t -> Q (str_drop k t)).
  { induction k as [|k IH]; intros [|a t]; simpl; auto. intros H. eauto. }
  apply (sub_ind m r (fun s out => Q s -> out = s)).
  - done.
  - intros a t k E IH HQ. rewrite IH by (apply (Hdrop (S k) (String a t)); done).
    rewrite <- (Hm _ _ HQ E).
    change (str_drop k t) with (str_drop (S k) (String a t)). apply take_drop.
  - intros a t _ IH HQ. f_equal. apply IH. eauto.
Qed.

Lemma span_sub_le c m r0 r s :
  chr_eqb c r0 = false ->
  span (chr_eqb c) (sub m (String r0 r) s) <= span (chr_eqb c) s.
Proof.
  intros Hr. revert s.
  apply (sub_ind m (String r0 r)
           (fun s out => span (chr_eqb c) out <= span (chr_eqb c) s)).
  - done.
  - intros a t k _ _. simpl. rewrite Hr. lia.
  - intros a t _ IH. simpl. destruct (chr_eqb c a); lia.
Qed.

(** *** Runs of a character *)

Lemma runs_lt_tail c n a s : runs_lt c n (String a s) = true -> runs_lt c n s = true.
Proof. cbn [runs_lt]. by intros [_ ?]%andb_true_iff. Qed.

Lemma runs_lt_head c n a s :
  runs_lt c n (String a s) = true -> span (chr_eqb c) (String a s) < n.
Proof. cbn [runs_lt]. intros [H _]%andb_true_iff. by apply Nat.ltb_lt. Qed.

Lemma runs_lt_drop c n k s : runs_lt c n s = true -> runs_lt c n (str_drop k s) = true.
Proof.
  revert s. induction k as [|k IH]; intros [|a s]; cbn [str_drop]; try done.
  intros H. apply IH. by eapply runs_lt_tail.
Qed.

Lemma runs_lt_app_l c n x y : runs_lt c n (x +:+ y) = true -> runs_lt c n x = true.
Proof.
  induction x as [|a x IH]; [done|].
  change (String a x +:+ y) with (String a (x +:+ y)). intros H.
  pose proof (runs_lt_head _ _ _ _ H) as Hh. apply runs_lt_tail in H.
  cbn [runs_lt]. rewrite (IH H), andb_true_r. apply Nat.ltb_lt.
  pose proof (span_app_le (chr_eqb c) (String a x) y). simpl in *. lia.
Qed.

Lemma runs_lt_app_r c n x y : runs_lt c n (x +:+ y) = true -> runs_lt c n y = true.
Proof.
  induction x as [|a x IH]; [done|].
  change (String a x +:+ y) with (String a (x +:+ y)). intros H.
  apply runs_lt_tail in H. auto.
Qed.

Lemma runs_lt_app_free c n r x :
  0 < n -> str_contains c r = false -> runs_lt c n x = true ->
  runs_lt c n (r +:+ x) = true.
Proof.
  intros Hn Hr Hx. induction r as [|a r IH]; [done|].
  simpl in Hr. apply orb_false_iff in Hr as [Ha Hr].
  change (String a r +:+ x) with (String a (r +:+ x)).
  cbn [runs_lt span]. rewrite chr_eqb_sym, Ha, (IH Hr), andb_true_r.
  by apply Nat.ltb_lt.
Qed.

(** A substitution whose replacement does not hold [c] makes no run of [c]
    longer *)
Lemma runs_lt_sub c n m r0 r s :
  0 < n -> str_contains c (String r0 r) = false ->
  runs_lt c n s = true -> runs_lt c n (sub m (String r0 r) s) = true.
Proof.
  intros Hn Hr.
  assert (Hr0 : chr_eqb c r0 = false).
  { simpl in Hr. apply orb_false_iff in Hr as [Hr _]. by rewrite chr_eqb_sym. }
  revert s.
  apply (sub_ind m (String r0 r)
           (fun s out => runs_lt c n s = true -> runs_lt c n out = true)).
  - done.
  - intros a t k _ IH Hs. apply runs_lt_app_free; auto. apply IH.
    change (str_drop k t) with (str_drop (S k) (String a t)). by apply runs_lt_drop.
  - intros a t Hm IH Hs.
    pose proof (runs_lt_head _ _ _ _ Hs) as Hh. apply runs_lt_tail in Hs.
    cbn [runs_lt]. rewrite (IH Hs), andb_true_r. apply Nat.ltb_lt.
    pose proof (span_sub_le c m r0 r t Hr0). simpl in *.
    destruct (chr_eqb c a); lia.
Qed.

(** *** [[c]{n,}] replaced by [r] times [c] *)

Section Runs.

Variables (c : ascii) (n r : nat).
Hypothesis Hn : 1 <= n.

Abbreviation run_sub := (sub (at_least n (chr_eqb c)) (rep r c)).

Lemma at_least_cons_some a t k :
  at_least n (chr_eqb c) (String a t) = Some (S k) ->
  chr_eqb c a = true /\ span (chr_eqb c) t = k /\ n <= S k.
Proof.
  unfold at_least. cbn [span]. destruct (chr_eqb c a); cbn zeta.
  - destruct (n <=? S (span (chr_eqb c) t)) eqn:E; [|done].
    intros [= <-]. apply Nat.leb_le in E. done.
  - by destruct (n <=? 0).
Qed.

Lemma at_least_cons_none a t :
  (forall k, at_least n (chr_eqb c) (String a t) <> Some (S k)) ->
  span (chr_eqb c) (String a t) < n.
Proof.
  unfold at_least. cbn [span]. destruct (chr_eqb c a); cbn zeta; [|lia].
  destruct (n <=? S (span (chr_eqb c) t)) eqn:E.
  - intros H. by destruct (H (span (chr_eqb c) t)).
  - intros _. apply Nat.leb_gt in E. done.
Qed.

Lemma span_run_sub s :
  span (chr_eqb c) (run_sub s)
  = if n <=? span (chr_eqb c) s then r else span (chr_eqb c) s.
Proof.
  revert s.
  apply (sub_ind (at_least n (chr_eqb c)) (rep r c)
           (fun s out => span (chr_eqb c) out
                         = if n <=? span (chr_eqb c) s then r else span (chr_eqb c) s)).
  - simpl. destruct n; [lia|done].
  - intros a t k Hm IH. destruct (at_least_cons_some _ _ _ Hm) as (Ha & Hk & Hle).
    rewrite span_rep_app, IH. subst k. rewrite span_drop_zero.
    cbn [span]. rewrite Ha.
    destruct (n <=? 0) eqn:E0; [apply Nat.leb_le in E0; lia|].
    apply Nat.leb_le in Hle. rewrite Hle. lia.
  - intros a t Hm IH. pose proof (at_least_cons_none _ _ Hm) as Hlt.
    cbn [span] in *. destruct (chr_eqb c a).
    + rewrite IH.
      destruct (n <=? span (chr_eqb c) t) eqn:E1; [apply Nat.leb_le in E1; lia|].
      destruct (n <=? S (span (chr_eqb c) t)) eqn:E2; [apply Nat.leb_le in E2; lia|].
      done.
    + destruct (n <=? 0) eqn:E0; [apply Nat.leb_le in E0; lia|done].
Qed.

Lemma runs_lt_rep_app B x :
  span (chr_eqb c) x = 0 -> r < B -> runs_lt c B x = true ->
  runs_lt c B (rep r c +:+ x) = true.
Proof.
  intros Hx. induction r as [|r' IH]; [done|]. intros Hr Hrx.
  change (rep (S r') c +:+ x) with (String c (rep r' c +:+ x)).
  cbn [runs_lt span]. rewrite chr_eqb_refl, span_rep_app, Hx.
  rewrite IH by (done || lia). rewrite andb_true_r. apply Nat.ltb_lt. lia.
Qed.

(** After the substitution every run of [c] is shorter than [B] *)
Lemma runs_lt_run_sub B s : n <= B -> r < B -> runs_lt c B (run_sub s) = true.
Proof.
  intros HnB HrB. revert s.
  apply (sub_ind (at_least n (chr_eqb c)) (rep r c)
           (fun s out => runs_lt c B out = true)).
  - done.
  - intros a t k Hm IH. destruct (at_least_cons_some _ _ _ Hm) as (Ha & Hk & Hle).
    apply runs_lt_rep_app; auto.
    rewrite span_run_sub. subst k. rewrite span_drop_zero.
    by destruct (n <=? 0) eqn:E0; [apply Nat.leb_le in E0; lia|].
  - intros a t Hm IH. pose proof (at_least_cons_none _ _ Hm) as Hlt.
    cbn [runs_lt]. rewrite IH, andb_true_r. apply Nat.ltb_lt.
    pose proof (span_run_sub (String a t)) as Hs.
    rewrite sub_cons in Hs.
    destruct (at_least n (chr_eqb c) (String a t)) as [[|k]|] eqn:E;
      try (by destruct (Hm k)).
    + rewrite Hs. destruct (n <=? _) eqn:E1; [apply Nat.leb_le in E1; lia|lia].
    + rewrite Hs. destruct (n <=? _) eqn:E1; [apply Nat.leb_le in E1; lia|lia].
Qed.

End Runs.

End ReFacts.

(** * Facts about the cleaned text *)

Module TextFacts.
Import Re Patterns Extractor SentimentAnalyzer Rows TextNotions Notions StrFacts ReFacts.
Local Close Scope Z_scope.
#[local] Arguments String.append : simpl nomatch.

(** *** [strip] *)

Lemma lstrip_suffix p s :
  exists x, s = x +:+ str_lstrip p s /\ str_forall p x = true.
Proof.
  induction s as [|a s (x & Hx & Hp)]; simpl; [by exists ""|].
  destruct (p a) eqn:E.
  - exists (String a x). simpl. rewrite E, Hp. split; [|done]. by rewrite <- Hx.
  - by exists "".
Qed.

Lemma rstrip_prefix p s :
  exists y, s = str_rstrip p s +:+ y /\ str_forall p y = true.
Proof.
  induction s as [|a s (y & Hy & Hp)]; simpl; [by exists ""|].
  destruct (str_rstrip p s) as [|b r] eqn:E.
  - simpl in Hy. subst s. destruct (p a) eqn:Ea.
    + exists (String a y). simpl. by rewrite Ea, Hp.
    + by exists y.
  - exists y. split; [|done]. rewrite Hy at 1. done.
Qed.

Lemma rstrip_nil p s : str_rstrip p s = "" -> str_forall p s = true.
Proof.
  intros H. destruct (rstrip_prefix p s) as (y & Hy & Hp).
  rewrite H in Hy. simpl in Hy. by subst y.
Qed.

Lemma lstrip_forall p s :
  str_forall p (str_lstrip p s) = true -> str_forall p s = true.
Proof.
  intros H. destruct (lstrip_suffix p s) as (x & Hx & Hp).
  rewrite Hx, forall_app, Hp. done.
Qed.

Lemma strip_nil p s : str_strip p s = "" -> str_forall p s = true.
Proof. unfold str_strip. intros H. by apply lstrip_forall, rstrip_nil. Qed.

Lemma forall_strip q p s : str_forall q s = true -> str_forall q (str_strip p s) = true.
Proof.
  intros H. unfold str_strip.
  destruct (lstrip_suffix p s) as (x & Hx & _).
  destruct (rstrip_prefix p (str_lstrip p s)) as (y & Hy & _).
  rewrite Hx, Hy, !forall_app in H.
  apply andb_true_iff in H as [_ H]. by apply andb_true_iff in H as [H _].
Qed.

Lemma runs_lt_strip c n p s : runs_lt c n s = true -> runs_lt c n (str_strip p s) = true.
Proof.
  intros H. unfold str_strip.
  destruct (lstrip_suffix p s) as (x & Hx & _).
  destruct (rstrip_prefix p (str_lstrip p s)) as (y & Hy & _).
  rewrite Hx in H. apply runs_lt_app_r in H. rewrite Hy in H.
  by apply runs_lt_app_l in H.
Qed.

Lemma lstrip_head_space s : head_is_space (str_lstrip is_space s) = false.
Proof.
  pose proof (lstrip_head is_space s) as H.
  by destruct (str_lstrip is_space s).
Qed.

Lemma rstrip_head_space s :
  head_is_space s = false -> head_is_space (str_rstrip is_space s) = false.
Proof.
  intros H. destruct (rstrip_prefix is_space s) as (y & Hy & _).
  destruct (str_rstrip is_space s) as [|b r]; [done|].
  rewrite Hy in H. exact H.
Qed.

Lemma ws_ok_tail a s : ws_ok (String a s) = true -> ws_ok s = true.
Proof. cbn [ws_ok]. by intros [_ ?]%andb_true_iff. Qed.

Lemma ws_ok_lstrip p s : ws_ok s = true -> ws_ok (str_lstrip p s) = true.
Proof.
  induction s as [|a s IH]; [done|]. intros H. cbn [str_lstrip].
  destruct (p a); [|done]. apply IH. by eapply ws_ok_tail.
Qed.

Lemma rstrip_spaced s : ws_ok s = true -> spaced (str_rstrip is_space s) = true.
Proof.
  induction s as [|a s IH]; [done|]. cbn [ws_ok str_rstrip].
  intros [Ha Hs]%andb_true_iff. specialize (IH Hs).
  destruct (rstrip_prefix is_space s) as (y & Hy & _).
  destruct (str_rstrip is_space s) as [|b r] eqn:E.
  - destruct (is_space a) eqn:Ea; [done|]. cbn [spaced]. by rewrite Ea.
  - cbn [spaced] in *. rewrite IH, andb_true_r.
    destruct (is_space a) eqn:Ea; [|done]. cbn [negb orb] in *.
    apply andb_true_iff in Ha as [Ha1 Ha2]. rewrite Ha1. cbn [truthy andb].
    rewrite Hy in Ha2. exact Ha2.
Qed.

Lemma spaced_ws_ok s : spaced s = true -> ws_ok s = true.
Proof.
  induction s as [|a s IH]; [done|]. cbn [spaced ws_ok].
  intros [Ha Hs]%andb_true_iff. rewrite (IH Hs), andb_true_r.
  destruct (is_space a); [|done]. cbn [negb orb] in *.
  apply andb_true_iff in Ha as [Ha ?]. apply andb_true_iff in Ha as [-> _]. done.
Qed.

Lemma rstrip_id s : spaced s = true -> str_rstrip is_space s = s.
Proof.
  induction s as [|a s IH]; [done|]. cbn [spaced str_rstrip].
  intros [Ha Hs]%andb_true_iff. rewrite (IH Hs).
  destruct s as [|b s]; [|done].
  destruct (is_space a); [|done]. cbn [negb orb truthy] in Ha.
  by rewrite andb_false_r in Ha.
Qed.

Lemma tidy_parts s :
  tidy s = true ->
  str_forall kept_char s = true /\ head_is_space s = false /\ spaced s = true.
Proof.
  unfold tidy. intros [[? ?]%andb_true_iff ?]%andb_true_iff.
  split_and!; try done. by apply negb_true_iff.
Qed.

(** Stripping a tidy text changes nothing *)
Lemma strip_tidy s : tidy s = true -> str_strip is_space s = s.
Proof.
  intros (_ & Hh & Hs)%tidy_parts. unfold str_strip.
  rewrite lstrip_id; [by apply rstrip_id|]. by destruct s.
Qed.

(** *** [\s+] replaced by a space *)

Lemma ws_run_cons a t :
  ws_run (String a t) = if is_space a then Some (S (span is_space t)) else None.
Proof. unfold ws_run, at_least. cbn [span]. by destruct (is_space a). Qed.

Lemma sub_ws_head s : head_is_space (sub ws_run " " s) = head_is_space s.
Proof.
  destruct s as [|a t]; [done|]. rewrite sub_cons, ws_run_cons.
  cbn [head_is_space]. destruct (is_space a) eqn:E; [done|exact E].
Qed.

Lemma sub_ws_ok s : ws_ok (sub ws_run " " s) = true.
Proof.
  revert s. apply (sub_ind ws_run " " (fun s out => ws_ok out = true)).
  - done.
  - intros a t k Hm IH. rewrite ws_run_cons in Hm.
    destruct (is_space a); [|done]. injection Hm as <-.
    change (" " +:+ sub ws_run " " (str_drop (span is_space t) t))
      with (String " " (sub ws_run " " (str_drop (span is_space t) t))).
    cbn [ws_ok]. rewrite IH, sub_ws_head.
    pose proof (span_drop_head is_space t) as Hd.
    destruct (str_drop (span is_space t) t); [done|]. cbn [head_is_space].
    by rewrite Hd.
  - intros a t Hm IH. rewrite ws_run_cons in Hm. cbn [ws_ok]. rewrite IH.
    destruct (is_space a); [|done]. by destruct (Hm (span is_space t)).
Qed.

Lemma sub_ws_all_space s :
  str_forall is_space s = true -> s <> "" -> sub ws_run " " s = " ".
Proof.
  intros Hs Hne. destruct s as [|a t]; [done|]. simpl in Hs.
  apply andb_true_iff in Hs as [Ha Ht].
  rewrite sub_cons, ws_run_cons, Ha, (span_all _ _ Ht), drop_all. done.
Qed.

(** *** The last two substitutions and the strip *)

Lemma special_char_cons a t :
  special_char (String a t) = if not_special a then None else Some 1.
Proof. unfold special_char, one_of, not_special. by destruct (_ || _). Qed.

Lemma kept_not_space c : not_special c = true -> is_space c = false -> kept_char c = true.
Proof.
  unfold not_special, kept_char. intros H Hs. rewrite Hs, orb_false_r in H.
  apply orb_true_iff in H as [-> | ->]; [done|]. by rewrite orb_true_r.
Qed.

Lemma kept_char_not_special c : kept_char c = true -> not_special c = true.
Proof.
  unfold not_special, kept_char. intros H.
  apply orb_true_iff in H as [H | ->]; [|by rewrite orb_true_r].
  apply orb_true_iff in H as [-> | H]; [done|].
  apply chr_eqb_eq in H as ->. done.
Qed.

Lemma kept_space c : kept_char c = true -> is_space c = true -> c = " "%char.
Proof.
  intros Hk Hs.
  destruct c as [[] [] [] [] [] [] [] []]; vm_compute in Hk, Hs; congruence.
Qed.

Lemma finish_forall x :
  str_forall kept_char (sub ws_run " " (sub special_char " " x)) = true.
Proof.
  apply (sub_forall not_special kept_char); [done| |].
  - intros a t Ha Hm. apply kept_not_space; [done|].
    rewrite ws_run_cons in Hm. destruct (is_space a); [|done].
    by destruct (Hm (span is_space t)).
  - apply (sub_forall (fun _ => true) not_special); [done| |apply forall_true].
    intros a t _ Hm. rewrite special_char_cons in Hm.
    destruct (not_special a); [done|]. by destruct (Hm 0).
Qed.

(** What [_clean_text] and [_preprocess_text] end with gives a tidy text *)
Lemma finish_tidy x :
  tidy (str_strip is_space (sub ws_run " " (sub special_char " " x))) = true.
Proof.
  unfold tidy. rewrite forall_strip by apply finish_forall.
  unfold str_strip. rewrite rstrip_head_space by apply lstrip_head_space.
  rewrite rstrip_spaced; [done|]. apply ws_ok_lstrip, sub_ws_ok.
Qed.

Lemma finish_runs c n x :
  0 < n -> chr_eqb " " c = false -> runs_lt c n x = true ->
  runs_lt c n (str_strip is_space (sub ws_run " " (sub special_char " " x))) = true.
Proof.
  intros Hn Hc Hx.
  assert (Hfree : str_contains c " " = false) by (cbn [str_contains]; by rewrite Hc).
  apply runs_lt_strip. apply runs_lt_sub; [done|done|].
  by apply runs_lt_sub.
Qed.

(** *** [_clean_text] *)

Lemma clean_text_tidy text : tidy (_clean_text text) = true.
Proof. unfold _clean_text. destruct (truthy text); [apply finish_tidy|done]. Qed.

(** *** [_preprocess_text] *)

Lemma preprocess_settled text : settled (_preprocess_text text) = true.
Proof.
  unfold settled, _preprocess_text. rewrite finish_tidy. cbn [andb].
  set (t3 := sub email "" (sub url "" (sub ws_run " " text))).
  assert (H1 : runs_lt "!" 2 (sub bangs "!" t3) = true).
  { apply (runs_lt_run_sub "!" 2 1); lia. }
  assert (H2 : runs_lt "?" 2 (sub questions "?" (sub bangs "!" t3)) = true).
  { apply (runs_lt_run_sub "?" 2 1); lia. }
  assert (H3 : runs_lt "." 4 (sub dots "..." (sub questions "?" (sub bangs "!" t3)))
               = true).
  { apply (runs_lt_run_sub "." 3 3); lia. }
  rewrite !finish_runs; try done; try lia.
  - by apply runs_lt_sub; [lia|done|].
  - apply runs_lt_sub; [lia|done|]. by apply runs_lt_sub; [lia|done|].
Qed.

(** *** A settled text is a fixed point of [_preprocess_text] *)

Lemma steady_tail a t : steady (String a t) -> steady t.
Proof.
  intros (H1 & H2 & H3 & H4 & H5). simpl in H1. apply andb_true_iff in H1 as [_ H1].
  split_and!; eauto using ws_ok_tail, runs_lt_tail.
Qed.

Lemma settled_steady s : settled s = true -> steady s.
Proof.
  unfold settled. intros [[[Ht ?]%andb_true_iff ?]%andb_true_iff ?]%andb_true_iff.
  apply tidy_parts in Ht as (? & _ & ?). split_and!; auto using spaced_ws_ok.
Qed.

Lemma settled_tidy s : settled s = true -> tidy s = true.
Proof.
  unfold settled. by intros [[[Ht ?]%andb_true_iff ?]%andb_true_iff ?]%andb_true_iff.
Qed.

Lemma url_tail_slash r k : url_tail r = Some k -> str_contains "/" r = true.
Proof.
  unfold url_tail. destruct (str_startswith "://" r) eqn:E; [|done].
  intros _. apply startswith_app in E. rewrite E, contains_app. done.
Qed.

Lemma url_needs_slash t k : url t = Some k -> str_contains "/" t = true.
Proof.
  unfold url. destruct (str_startswith "http" t) eqn:E; [|done].
  apply startswith_app in E. intros H. rewrite E, contains_app.
  apply orb_true_iff. right. set (r := str_drop (str_len "http") t) in *.
  change (str_drop 4 t) with r in H.
  destruct (str_startswith "s" r) eqn:Es.
  - destruct (url_tail (str_drop 1 r)) eqn:Et.
    + apply url_tail_slash in Et. apply startswith_app in Es.
      rewrite Es, contains_app. apply orb_true_iff. by right.
    + destruct (url_tail r) eqn:Et'; [|done]. by eapply url_tail_slash.
  - destruct (url_tail r) eqn:Et'; [|done]. by eapply url_tail_slash.
Qed.

Lemma email_needs_at t k : email t = Some k -> str_contains "@" t = true.
Proof.
  unfold email. destruct (str_rfind "@" _) as [i|] eqn:E; [|done]. intros _.
  destruct (str_contains "@" t) eqn:Ec; [done|].
  apply (contains_take _ (span (fun c => negb (is_space c)) t - 1)) in Ec.
  apply rfind_none in Ec. congruence.
Qed.

Lemma at_least_nil n p : 1 <= n -> at_least n p "" = None.
Proof. intros H. unfold at_least. simpl. destruct n; [lia|done]. Qed.

Lemma steady_ws_aux t k :
  str_forall kept_char t = true -> ws_ok t = true ->
  ws_run t = Some (S k) -> str_take (S k) t = " ".
Proof.
  intros Hk Hw. destruct t as [|a t]; [done|].
  rewrite ws_run_cons. destruct (is_space a) eqn:Ea; [|done]. intros [= <-].
  simpl in Hk. apply andb_true_iff in Hk as [Hk _].
  cbn [ws_ok] in Hw. apply andb_true_iff in Hw as [Hw _].
  rewrite Ea in Hw. cbn [negb orb] in Hw. apply andb_true_iff in Hw as [_ Hw].
  apply negb_true_iff in Hw.
  rewrite (kept_space _ Hk Ea).
  destruct t as [|b t]; [done|]. cbn [head_is_space span] in *.
  by rewrite Hw.
Qed.

Lemma steady_ws t k : steady t -> ws_run t = Some (S k) -> str_take (S k) t = " ".
Proof. intros (Hk & Hw & _). by apply steady_ws_aux. Qed.

Lemma steady_no_run c n t k :
  1 <= n -> runs_lt c n t = true -> at_least n (chr_eqb c) t = Some (S k) -> False.
Proof.
  intros Hn Hr Hm. destruct t as [|a t]; [by rewrite at_least_nil in Hm|].
  destruct (at_least_cons_some c n _ _ _ Hm) as (Ha & Hk & Hle).
  apply runs_lt_head in Hr. cbn [span] in Hr. rewrite Ha, Hk in Hr. lia.
Qed.

Lemma steady_dots t k : steady t -> dots t = Some (S k) -> str_take (S k) t = "...".
Proof.
  intros (_ & _ & _ & _ & Hr) Hm. destruct t as [|a t]; [done|].
  destruct (at_least_cons_some "." 3 _ _ _ Hm) as (Ha & Hk & Hle).
  apply runs_lt_head in Hr. cbn [span] in Hr. rewrite Ha, Hk in Hr.
  assert (k = 2) as -> by lia.
  apply (span_take "." 3). cbn [span]. by rewrite Ha, Hk.
Qed.

Lemma steady_special t k : steady t -> special_char t = Some (S k) -> False.
Proof.
  intros (Hk & _) Hm. destruct t as [|a t]; [done|].
  rewrite special_char_cons in Hm. simpl in Hk. apply andb_true_iff in Hk as [Hk _].
  by rewrite (kept_char_not_special _ Hk) in Hm.
Qed.

Lemma preprocess_fixed s : settled s = true -> _preprocess_text s = s.
Proof.
  intros Hs. pose proof (settled_steady _ Hs) as Hst. unfold _preprocess_text.
  rewrite (sub_id steady ws_run " " steady_tail steady_ws s Hst).
  rewrite (sub_id steady url "" steady_tail) by
    (try done; intros t k (Hk & _) Hm; apply url_needs_slash in Hm;
     by rewrite (forall_not_contains kept_char "/" t Hk) in Hm).
  rewrite (sub_id steady email "" steady_tail) by
    (try done; intros t k (Hk & _) Hm; apply email_needs_at in Hm;
     by rewrite (forall_not_contains kept_char "@" t Hk) in Hm).
  rewrite (sub_id steady bangs "!" steady_tail) by
    (try done; intros t k (_ & _ & Hr & _) Hm;
     by destruct (steady_no_run "!" 2 t k ltac:(lia) Hr Hm)).
  rewrite (sub_id steady questions "?" steady_tail) by
    (try done; intros t k (_ & _ & _ & Hr & _) Hm;
     by destruct (steady_no_run "?" 2 t k ltac:(lia) Hr Hm)).
  rewrite (sub_id steady dots "..." steady_tail steady_dots s Hst).
  rewrite (sub_id steady special_char " " steady_tail) by
    (try done; intros t k Ht Hm; by destruct (steady_special t k Ht Hm)).
  rewrite (sub_id steady ws_run " " steady_tail steady_ws s Hst).
  apply strip_tidy. by apply settled_tidy.
Qed.

(** *** A tidy text *)

Lemma neat_tail a t : neat (String a t) -> neat t.
Proof.
  intros (H1 & H2). simpl in H1. apply andb_true_iff in H1 as [_ H1].
  split; eauto using ws_ok_tail.
Qed.

Lemma tidy_neat s : tidy s = true -> neat s.
Proof. intros (? & _ & ?)%tidy_parts. split; auto using spaced_ws_ok. Qed.

Lemma steady_neat s : steady s -> neat s.
Proof. by intros (? & ? & _). Qed.

Lemma neat_ws t k : neat t -> ws_run t = Some (S k) -> str_take (S k) t = " ".
Proof. intros [Hk Hw]. apply steady_ws_aux; done. Qed.

Lemma neat_url t k (r : string) : neat t -> url t = Some (S k) -> str_take (S k) t = r.
Proof.
  intros [Hk _] Hm. apply url_needs_slash in Hm.
  by rewrite (forall_not_contains kept_char "/" t Hk) in Hm.
Qed.

Lemma neat_email t k (r : string) : neat t -> email t = Some (S k) -> str_take (S k) t = r.
Proof.
  intros [Hk _] Hm. apply email_needs_at in Hm.
  by rewrite (forall_not_contains kept_char "@" t Hk) in Hm.
Qed.

Lemma kept_special t k (r : string) :
  str_forall kept_char t = true -> special_char t = Some (S k) -> str_take (S k) t = r.
Proof.
  intros Hk Hm. destruct t as [|a t]; [done|].
  rewrite special_char_cons in Hm. simpl in Hk. apply andb_true_iff in Hk as [Hk _].
  by rewrite (kept_char_not_special _ Hk) in Hm.
Qed.

Lemma kept_tail a t : str_forall kept_char (String a t) = true -> str_forall kept_char t = true.
Proof. simpl. by intros [_ ?]%andb_true_iff. Qed.

Lemma spaced_tail a s : spaced (String a s) = true -> spaced s = true.
Proof. cbn [spaced]. by intros [_ ?]%andb_true_iff. Qed.

Lemma spaced_drop k s : spaced s = true -> spaced (str_drop k s) = true.
Proof.
  revert s. induction k as [|k IH]; intros [|a s]; cbn [str_drop]; try done.
  intros H. apply IH. by eapply spaced_tail.
Qed.

Lemma spaced_rep_app c r x : is_space c = false -> spaced (rep r c +:+ x) = spaced x.
Proof.
  intros Hc. induction r as [|r IH]; [done|].
  change (rep (S r) c +:+ x) with (String c (rep r c +:+ x)).
  cbn [spaced]. by rewrite Hc, IH.
Qed.

Section RunsTidy.

Variables (c : ascii) (n r : nat).
Hypothesis Hc : is_space c = false.
Hypothesis Hk : kept_char c = true.
Hypothesis Hr : 1 <= r.

Abbreviation run_sub := (sub (at_least n (chr_eqb c)) (rep r c)).

Lemma run_sub_head s :
  head_is_space (run_sub s) = head_is_space s /\ truthy (run_sub s) = truthy s.
Proof.
  destruct s as [|a t]; [done|]. rewrite sub_cons.
  destruct (at_least n (chr_eqb c) (String a t)) as [[|k]|] eqn:E; try done.
  destruct (at_least_cons_some c n _ _ _ E) as (Ha & _). apply chr_eqb_eq in Ha as <-.
  destruct r as [|r']; [lia|].
  change (rep (S r') c +:+ ?x) with (String c (rep r' c +:+ x)). done.
Qed.

Lemma run_sub_spaced s : spaced s = true -> spaced (run_sub s) = true.
Proof.
  revert s.
  apply (sub_ind (at_least n (chr_eqb c)) (rep r c)
           (fun s out => spaced s = true -> spaced out = true)).
  - done.
  - intros a t k _ IH Hs. rewrite spaced_rep_app by done. apply IH.
    change (str_drop k t) with (str_drop (S k) (String a t)). by apply spaced_drop.
  - intros a t _ IH Hs. cbn [spaced] in *. apply andb_true_iff in Hs as [Ha Hs].
    rewrite (IH Hs), andb_true_r. destruct (run_sub_head t) as [-> ->]. exact Ha.
Qed.

Lemma run_sub_kept s :
  str_forall kept_char s = true -> str_forall kept_char (run_sub s) = true.
Proof.
  apply (sub_forall kept_char kept_char); [|done].
  clear Hr. induction r as [|r' IH]; [done|]. simpl. by rewrite Hk, IH.
Qed.

Lemma run_sub_tidy s : tidy s = true -> tidy (run_sub s) = true.
Proof.
  intros (H1 & H2 & H3)%tidy_parts. unfold tidy.
  rewrite run_sub_kept, run_sub_spaced by done.
  destruct (run_sub_head s) as [-> _]. by rewrite H2.
Qed.

End RunsTidy.

(** On a tidy text [_preprocess_text] does no more than shorten the runs of
    [!], [?] and [.] *)
Lemma preprocess_tidy s :
  tidy s = true ->
  _preprocess_text s = sub dots "..." (sub questions "?" (sub bangs "!" s)).
Proof.
  intros Hs. pose proof (tidy_neat _ Hs) as Hn. unfold _preprocess_text.
  rewrite (sub_id neat ws_run " " neat_tail neat_ws s Hn).
  rewrite (sub_id neat url "" neat_tail (fun t k => neat_url t k "") s Hn).
  rewrite (sub_id neat email "" neat_tail (fun t k => neat_email t k "") s Hn).
  set (s3 := sub dots "..." (sub questions "?" (sub bangs "!" s))).
  assert (H3 : tidy s3 = true).
  { apply (run_sub_tidy "." 3 3); try done; try lia.
    apply (run_sub_tidy "?" 2 1); try done; try lia.
    apply (run_sub_tidy "!" 2 1); try done; lia. }
  destruct (tidy_parts _ H3) as (Hk3 & _).
  rewrite (sub_id (fun t => str_forall kept_char t = true) special_char " " kept_tail
             (fun t k => kept_special t k " ") s3 Hk3).
  rewrite (sub_id neat ws_run " " neat_tail neat_ws s3 (tidy_neat _ H3)).
  by apply strip_tidy.
Qed.

(** *** Blank text *)

Lemma preprocess_blank text : str_strip is_space text = "" -> _preprocess_text text = "".
Proof.
  intros H%strip_nil. destruct text as [|a t]; [by vm_compute|].
  unfold _preprocess_text. rewrite (sub_ws_all_space _ H) by done. by vm_compute.
Qed.

Lemma clean_text_blank text : str_strip is_space text = "" -> _clean_text text = "".
Proof.
  intros H%strip_nil. destruct text as [|a t]; [by vm_compute|].
  unfold _clean_text. cbn [truthy negb].
  rewrite (sub_ws_all_space _ H) by done. by vm_compute.
Qed.

(** *** Titles *)

Lemma len_take_bound n s : str_len (str_take n s) <= n.
Proof.
  revert s. induction n as [|n IH]; intros [|a s]; simpl; try (unfold str_len; simpl; lia).
  specialize (IH s). unfold str_len in *. simpl. lia.
Qed.

Lemma head_take n s : head_is_space s = false -> head_is_space (str_take n s) = false.
Proof. destruct n, s; simpl; done. Qed.

Lemma ws_ok_take n s : ws_ok s = true -> ws_ok (str_take n s) = true.
Proof.
  revert s. induction n as [|n IH]; intros [|a s]; try done.
  cbn [ws_ok str_take]. intros [Ha Hs]%andb_true_iff. rewrite (IH _ Hs), andb_true_r.
  destruct (is_space a); [|done]. cbn [negb orb] in *.
  apply andb_true_iff in Ha as [-> Ha]. apply negb_true_iff in Ha.
  by rewrite head_take.
Qed.

Lemma cleaned_title_ok x : title_ok (str_take 200 (_clean_text x)).
Proof.
  destruct (tidy_parts _ (clean_text_tidy x)) as (Hk & Hh & Hs).
  split_and!.
  - apply len_take_bound.
  - by apply forall_take.
  - by apply head_take.
  - by apply ws_ok_take, spaced_ws_ok.
Qed.

Lemma untitled_ok : title_ok "Untitled".
Proof. split_and!; try done. vm_compute. lia. Qed.

Lemma first_title_ok sources : title_ok (first_title sources).
Proof.
  induction sources as [|[| |[title|]] rest IH]; simpl;
    [apply untitled_ok|done|done| |apply untitled_ok].
  destruct (truthy title); [apply cleaned_title_ok|done].
Qed.

Lemma extract_title_ok sources : title_ok (_extract_title sources).
Proof.
  unfold _extract_title.
  destruct (existsb _ _); [apply untitled_ok|apply first_title_ok].
Qed.

Lemma extract_title_fallback_ok html : title_ok (_extract_title_fallback html).
Proof.
  unfold _extract_title_fallback.
  destruct (search_title html); [apply cleaned_title_ok|apply untitled_ok].
Qed.

(** *** Rows *)

Lemma truthy_snoc w a : truthy (w +:+ String a "") = true.
Proof. by destruct w. Qed.

Lemma space_is_space a : chr_eqb a " " = true -> is_space a = true.
Proof. by intros ->%chr_eqb_eq. Qed.

Lemma split_from_count w s :
  spaced s = true -> truthy w = true \/ head_is_space s = false ->
  length (split_from w s)
  = count_char " " s + (if truthy w || truthy s then 1 else 0).
Proof.
  revert w. induction s as [|a s IH]; intros w Hs Hw.
  - simpl. rewrite orb_false_r. by destruct (truthy w).
  - cbn [spaced] in Hs. apply andb_true_iff in Hs as [Ha Hs].
    cbn [split_from count_char truthy]. rewrite orb_true_r.
    destruct (is_space a) eqn:Ea.
    + cbn [negb orb] in Ha. apply andb_true_iff in Ha as [Ha Hh].
      apply andb_true_iff in Ha as [Ha Ht]. apply negb_true_iff in Hh.
      destruct Hw as [Hw|Hw]; [|simpl in Hw; congruence].
      rewrite Hw, Ha. cbn [length]. rewrite (IH "" Hs) by auto.
      cbn [truthy orb]. rewrite Ht. lia.
    + destruct (chr_eqb a " ") eqn:E; [apply space_is_space in E; congruence|].
      rewrite (IH _ Hs) by (left; apply truthy_snoc).
      by rewrite truthy_snoc.
Qed.

Lemma word_count_tidy s :
  tidy s = true ->
  word_count s = if truthy s then S (count_char " " s) else 0.
Proof.
  intros (_ & Hh & Hs)%tidy_parts. unfold word_count, str_words.
  rewrite split_from_count by auto. cbn [truthy orb].
  destruct (truthy s) eqn:E; [lia|]. apply truthy_false in E as ->. done.
Qed.

Lemma content_preview_spec content :
  str_len (content_preview content) <= 303
  /\ str_take 300 (content_preview content) = str_take 300 content
  /\ (str_len content <= 300 -> content_preview content = content).
Proof.
  unfold content_preview. destruct (300 <? str_len content) eqn:E.
  - apply Nat.ltb_lt in E. split_and!.
    + rewrite len_app, len_take_le by lia. unfold str_len. simpl. lia.
    + rewrite <- (len_take_le 300 content) at 1 by lia. apply take_app.
    + lia.
  - apply Nat.ltb_ge in E. split_and!; try done. lia.
Qed.

End TextFacts.

Import TextExtractor Re Patterns Extractor SentimentAnalyzer Rows CrawlNotions TextNotions.
Import CrawlMore UrlMore ReFacts TextFacts CrawlHistory.

(** * Further properties of the crawl *)

(** X1. Every crawl ends: whatever the crawler object, the seed and the
    network, after finitely many steps the generator has returned or raised,
    and it stays as it is from then on. *)
Theorem crawl_terminates :
  forall (chk : string -> bool) (list_of_set : list string -> list string)
         (World : Type) (session_get : World -> string -> World * Reply)
         (self0 : WebCrawler) (seed : string) (w : World),
    exists n,
      let st := steps chk list_of_set session_get n (crawl self0 seed w) in
      (pc st = Returned \/ pc st = Raised)
      /\ forall m, steps chk list_of_set session_get (m + n) (crawl self0 seed w) = st.
Proof.
  intros chk los World get self0 seed w.
  destruct (crawl_ends chk los World get self0 seed w) as [n Hn].
  exists n. split; [exact Hn|]. intros m.
  rewrite steps_add. by apply steps_ended.
Qed.

(** X2. When the generator has returned, the queue is empty or as many
    records as [max_pages] were yielded. *)
Theorem crawl_returns_when_done :
  forall (chk : string -> bool) (list_of_set : list string -> list string)
         (World : Type) (session_get : World -> string -> World * Reply)
         (self0 : WebCrawler) (seed : string) (w : World) (n : nat),
    let st := steps chk list_of_set session_get n (crawl self0 seed w) in
    pc st = Returned ->
    crawl_queue st = [] \/ max_pages self0 <= Z.of_nat (length (yielded st)).
Proof.
  intros chk los World get self0 seed w n st Hpc.
  destruct (return_inv_steps chk los World get n self0 seed w Hpc) as [Hq|Hp];
    [by left|right].
  destruct (yield_inv_steps chk los World get n self0 seed w) as [_ Hlen].
  destruct (steps_config chk los World get n (crawl self0 seed w)) as (_ & Hm & _).
  fold st in Hlen, Hm, Hp. simpl in Hm. rewrite Hlen, <- Hm. exact Hp.
Qed.

Lemma crawl_returns_when_done_witness :
  crawl_queue (steps accept_all one_order web 12
                 (crawl (__init__ 2 10 false) "http://a.com/" tt)) = []
  \/ max_pages (__init__ 2 10 false)
     <= Z.of_nat (length (yielded (steps accept_all one_order web 12
                                     (crawl (__init__ 2 10 false) "http://a.com/" tt)))).
Proof.
  refine (crawl_returns_when_done accept_all one_order unit web
            (__init__ 2 10 false) "http://a.com/" tt 12 _).
  vm_compute. reflexivity.
Defined.

(** X3. Pages are fetched breadth first: the depths of the calls of
    [fetch_page] never decrease, and the queue holds, in this order, entries
    of the depth of the last fetch and entries one level deeper. *)
Theorem pages_fetched_breadth_first :
  forall (chk : string -> bool) (list_of_set : list string -> list string)
         (World : Type) (session_get : World -> string -> World * Reply)
         (self0 : WebCrawler) (seed : string) (w : World) (n : nat),
    let st := steps chk list_of_set session_get n (crawl self0 seed w) in
    (forall i j e1 e2, (i <= j)%nat ->
       fetch_log st !! i = Some e1 -> fetch_log st !! j = Some e2 -> e1.2 <= e2.2)
    /\ (forall i j e1 e2, (i <= j)%nat ->
          crawl_queue st !! i = Some e1 -> crawl_queue st !! j = Some e2 ->
          e1.2 <= e2.2)
    /\ (forall e, e ∈ crawl_queue st -> last_depth st <= e.2 <= last_depth st + 1).
Proof.
  intros chk los World get self0 seed w n st.
  destruct (bfs_inv_steps chk los World get n self0 seed w) as (Hlog & Hq & Hb & _).
  fold st in Hlog, Hq, Hb. split_and!.
  - intros i j e1 e2 Hij H1 H2.
    apply (nondecreasing_lookup (fetch_log st).*2 i j); auto;
      by rewrite list_lookup_fmap, ?H1, ?H2.
  - intros i j e1 e2 Hij H1 H2.
    apply (nondecreasing_lookup (crawl_queue st).*2 i j); auto;
      by rewrite list_lookup_fmap, ?H1, ?H2.
  - intros e He. rewrite Forall_forall in Hb. by apply Hb.
Qed.

(** X4. With a [max_depth] that is not negative, every queued entry has a
    depth between 0 and [max_depth]: the test [depth > self.max_depth] of the
    loop never holds, and no entry is dropped for its depth. *)
Theorem depth_test_never_fires :
  forall (chk : string -> bool) (list_of_set : list string -> list string)
         (World : Type) (session_get : World -> string -> World * Reply)
         (self0 : WebCrawler) (seed : string) (w : World) (n : nat),
    0 <= max_depth self0 ->
    let st := steps chk list_of_set session_get n (crawl self0 seed w) in
    (forall u d, (u, d) ∈ crawl_queue st ->
       0 <= d <= max_depth self0 /\ (max_depth (self st) <? d) = false)
    /\ (forall u d, (u, d) ∈ fetch_log st -> 0 <= d).
Proof.
  intros chk los World get self0 seed w n Hmd st.
  destruct (depth_inv_steps chk los World get n self0 seed w) as (Hq & Hlog & _).
  destruct (steps_config chk los World get n (crawl self0 seed w)) as (Hd & _ & _).
  fold st in Hq, Hlog, Hd. simpl in Hd. rewrite Hd in *. split.
  - intros u d Hin. rewrite Forall_forall in Hq. specialize (Hq _ Hin). simpl in Hq.
    assert (0 <= d <= max_depth self0) by lia. split; [done|].
    apply Z.ltb_ge. lia.
  - intros u d Hin. rewrite Forall_forall in Hlog. by apply (Hlog _ Hin).
Qed.

Lemma depth_test_never_fires_witness :
  0 <= 1 <= max_depth (__init__ 2 10 false)
  /\ (max_depth (self (steps accept_all one_order web 3
                         (crawl (__init__ 2 10 false) "http://a.com/" tt))) <? 1) = false.
Proof.
  refine (proj1 (depth_test_never_fires accept_all one_order unit web
                   (__init__ 2 10 false) "http://a.com/" tt 3 _) "http://a.com/y" 1 _).
  - simpl. lia.
  - apply list_elem_of_In. vm_compute. right. left. reflexivity.
Defined.

(** X5. What a crawl has done is never undone: from any state on, the list
    of the calls of [fetch_page] and the list of the records yielded only get
    longer at their ends, and [visited] only gets larger. *)
Theorem histories_only_grow :
  forall (chk : string -> bool) (list_of_set : list string -> list string)
         (World : Type) (session_get : World -> string -> World * Reply)
         (st : State World) (n : nat),
    let st' := steps chk list_of_set session_get n st in
    fetch_log st `prefix_of` fetch_log st'
    /\ yielded st `prefix_of` yielded st'
    /\ visited (self st) ⊆ visited (self st').
Proof. intros chk los World get st n. apply steps_grow. Qed.

(** X6. No page is yielded twice: the URLs of the records yielded are
    pairwise different, they are URLs fetched, in the order of the fetches,
    and each of them is in [visited]. *)
Theorem no_page_yielded_twice :
  forall (chk : string -> bool) (list_of_set : list string -> list string)
         (World : Type) (session_get : World -> string -> World * Reply)
         (self0 : WebCrawler) (seed : string) (w : World) (n : nat),
    let st := steps chk list_of_set session_get n (crawl self0 seed w) in
    NoDup (r_url <$> yielded st)
    /\ r_url <$> yielded st `sublist_of` (fetch_log st).*1
    /\ (forall r, r ∈ yielded st -> r_url r ∈ visited (self st)).
Proof.
  intros chk los World get self0 seed w n st.
  destruct (yield_inv_steps chk los World get n self0 seed w) as [Hsub _].
  destruct (dedup_inv_steps chk los World get n self0 seed w) as [Hnd Hv].
  fold st in Hsub, Hnd, Hv. split_and!.
  - by eapply sublist_NoDup.
  - done.
  - intros r Hr. rewrite Hv. apply elem_of_union_r, elem_of_list_to_set.
    eapply elem_of_sublist; [|exact Hsub]. apply list_elem_of_fmap. eauto.
Qed.

(** X7. A crawl whose normalized seed is in [visited] already (a second crawl
    on the same crawler object, say) ends at its third step without a
    request: nothing is fetched, nothing is yielded, and the crawler object
    and the network are as they were. *)
Theorem visited_seed_yields_nothing :
  forall (chk : string -> bool) (list_of_set : list string -> list string)
         (World : Type) (session_get : World -> string -> World * Reply)
         (self0 : WebCrawler) (seed : string) (w : World) (s' : string)
         (p : ParseResult),
    normalize_url chk seed = Some s' -> urlparse chk s' "" = Some p ->
    s' ∈ visited self0 ->
    let st := steps chk list_of_set session_get 3 (crawl self0 seed w) in
    pc st = Returned /\ fetch_log st = [] /\ yielded st = [] /\ self st = self0
    /\ world st = w.
Proof. intros chk los World get. apply seed_visited. Qed.

Lemma visited_seed_yields_nothing_witness :
  let st := steps accept_all one_order web 3
              (crawl (mkCrawler 2 10 false {["http://a.com/"]}) "http://a.com/#top" tt) in
  pc st = Returned /\ fetch_log st = [] /\ yielded st = []
  /\ self st = mkCrawler 2 10 false {["http://a.com/"]} /\ world st = tt.
Proof.
  refine (visited_seed_yields_nothing accept_all one_order unit web
            (mkCrawler 2 10 false {["http://a.com/"]}) "http://a.com/#top" tt
            "http://a.com/" (mkParse "http" "a.com" "/" "" "" "") _ _ _).
  - vm_compute. reflexivity.
  - vm_compute. reflexivity.
  - simpl. apply elem_of_singleton. reflexivity.
Defined.

(** X8. A crawler with [max_pages] 0 or less, or with a negative [max_depth],
    makes no request: at every step nothing is fetched and nothing is
    yielded, and the crawl has ended after three steps. *)
Theorem crawl_without_budget_fetches_nothing :
  forall (chk : string -> bool) (list_of_set : list string -> list string)
         (World : Type) (session_get : World -> string -> World * Reply)
         (self0 : WebCrawler) (seed : string) (w : World) (n : nat),
    max_pages self0 <= 0 \/ max_depth self0 < 0 ->
    let st := steps chk list_of_set session_get n (crawl self0 seed w) in
    fetch_log st = [] /\ yielded st = []
    /\ (let st3 := steps chk list_of_set session_get 3 (crawl self0 seed w) in
        pc st3 = Returned \/ pc st3 = Raised).
Proof.
  intros chk los World get self0 seed w n Hno st.
  destruct (idle_inv_steps chk los World get n self0 seed w Hno) as (Hl & Hy & _).
  split_and!; try done. by apply idle_ends.
Qed.

Lemma crawl_without_budget_fetches_nothing_witness :
  fetch_log (steps accept_all one_order web 7
               (crawl (__init__ (-1) 10 false) "http://a.com/" tt)) = [].
Proof.
  refine (proj1 (crawl_without_budget_fetches_nothing accept_all one_order unit web
                   (__init__ (-1) 10 false) "http://a.com/" tt 7 _)).
  right. simpl. lia.
Defined.

(** * Further properties of the URLs *)

(** X9. What [normalize_url] returns holds no [#], and parses with an empty
    fragment: on the URLs that [crawl] hands to it, the fragment test of
    [is_valid_url] never holds. *)
Theorem normalized_url_has_no_fragment :
  forall (chk : string -> bool) (u v : string),
    normalize_url chk u = Some v ->
    str_contains "#" v = false
    /\ forall q, urlparse chk v "" = Some q -> fragment q = "".
Proof.
  intros chk u v Hv. pose proof (normalize_no_hash chk _ _ Hv) as Hh.
  split; [done|]. intros q. by apply parse_no_hash.
Qed.

Lemma normalized_url_has_no_fragment_witness :
  str_contains "#" "http://a.com/y" = false
  /\ forall q, urlparse accept_all "http://a.com/y" "" = Some q -> fragment q = "".
Proof.
  refine (normalized_url_has_no_fragment accept_all "http://a.com/y#f" "http://a.com/y" _).
  vm_compute. reflexivity.
Defined.

(** * Further properties of the seed and of the exceptions *)

(** X10. The checks of the handler of the start button and the first lines of
    [crawl].  The checks end in the [except] branch only when [urlparse]
    raises on the seed.  When they pass, the seed has a scheme and a netloc,
    the crawler is a new one, and the first step of [crawl] on that seed does
    not raise: it reaches the loop, with the netloc of the seed as
    [base_domain]. *)
Theorem checked_seed_starts_the_crawl :
  forall (chk : string -> bool) (list_of_set : list string -> list string)
         (World : Type) (session_get : World -> string -> World * Reply)
         (start_url : string) (max_depth max_pages : Z) (include_external : bool)
         (w : World),
    (start_crawling chk start_url max_depth max_pages include_external
     = inl ErrorOccurred <-> urlparse chk start_url "" = None /\ start_url <> "")
    /\ forall crawler,
         start_crawling chk start_url max_depth max_pages include_external
         = inr crawler ->
         crawler = __init__ max_depth max_pages include_external
         /\ exists p, urlparse chk start_url "" = Some p
                      /\ scheme p <> "" /\ netloc p <> ""
                      /\ pc (step chk list_of_set session_get
                               (crawl crawler start_url w)) = LoopHead
                      /\ base_domain (step chk list_of_set session_get
                                        (crawl crawler start_url w)) = netloc p.
Proof.
  intros chk los World get start_url md mp ie w. unfold start_crawling. split.
  - destruct (truthy start_url) eqn:Ht; cbn [negb].
    + apply truthy_true in Ht.
      destruct (urlparse chk start_url "") as [p|]; [|done].
      split; [|by intros [? _]]. by destruct (negb _ || negb _).
    + split; [done|]. intros [_ Hne]. apply truthy_true in Hne. congruence.
  - intros crawler. destruct (truthy start_url); cbn [negb]; [|done].
    destruct (urlparse chk start_url "") as [p|] eqn:Hp; [|done].
    destruct (truthy (scheme p)) eqn:Hs; cbn [negb orb]; [|done].
    destruct (truthy (netloc p)) eqn:Hn; cbn [negb]; [|done].
    intros [= <-]. split; [done|]. exists p.
    apply truthy_true in Hs, Hn. split_and!; try done.
    + apply accepted_seed_starts. by apply (seed_with_netloc_accepted chk start_url p).
    + destruct (normalize_is_Some chk start_url) as [v Hv]; [by eexists|].
      destruct (normalize_keeps_netloc chk _ _ _ Hp Hn Hv) as (p' & Hp' & Hn' & _).
      by rewrite (step_created chk los World get _ _ _ _ _ Hv Hp').
Qed.



(** * Further properties of the extraction *)

(** X12. Every link that [_extract_links] returns was made by [urljoin] from
    the page URL and the stripped [href] of an anchor of the page, and that
    [href] is not empty and does not begin with [#], [javascript:],
    [mailto:] or [tel:]. *)
Theorem extracted_links_come_from_anchors :
  forall (chk : string -> bool) (list_of_set : list string -> list string)
         (hrefs : list string) (base_url L : string),
    list_of_set_sound list_of_set ->
    L ∈ _extract_links chk list_of_set hrefs base_url ->
    exists raw, raw ∈ hrefs
      /\ str_strip is_space raw <> ""
      /\ Forall (fun p => str_startswith p (str_strip is_space raw) = false)
           skipped_prefixes
      /\ urljoin chk base_url (str_strip is_space raw) = Some L.
Proof.
  intros chk los hrefs base L Hset HL. apply Hset in HL.
  apply collect_links_origin in HL as [HL|HL]; [|done].
  by apply elem_of_nil in HL.
Qed.

Lemma extracted_links_come_from_anchors_witness :
  exists raw, raw ∈ [" /x "; "#top"; "mailto:a@b.c"]
    /\ str_strip is_space raw <> ""
    /\ Forall (fun p => str_startswith p (str_strip is_space raw) = false)
         skipped_prefixes
    /\ urljoin accept_all "http://a.com/" (str_strip is_space raw) = Some "http://a.com/x".
Proof.
  refine (extracted_links_come_from_anchors accept_all one_order
            [" /x "; "#top"; "mailto:a@b.c"] "http://a.com/" "http://a.com/x"
            one_order_sound _).
  apply list_elem_of_In. vm_compute. left. reflexivity.
Defined.

(** X13. The loop of [_extract_links] is inside one [try]: when [urljoin]
    raises for an anchor, the anchors after it are not looked at, and the
    links are those of the anchors before it. *)
Theorem extract_links_stops_at_error :
  forall (chk : string -> bool) (base_url : string) (before : list string)
         (bad : string) (after links : list string),
    truthy (str_strip is_space bad) = true ->
    existsb (fun p => str_startswith p (str_strip is_space bad)) skipped_prefixes
    = false ->
    urljoin chk base_url (str_strip is_space bad) = None ->
    collect_links chk base_url (before ++ bad :: after) links
    = collect_links chk base_url before links.
Proof. intros chk base h1 bad h2 acc. apply collect_links_abandon. Qed.

Lemma extract_links_stops_at_error_witness :
  collect_links accept_all "http://a.com/" (["/x"] ++ "http://[b/" :: ["/y"; "/z"]) []
  = collect_links accept_all "http://a.com/" ["/x"] [].
Proof.
  refine (extract_links_stops_at_error accept_all "http://a.com/" ["/x"]
            "http://[b/" ["/y"; "/z"] [] _ _ _).
  - vm_compute. reflexivity.
  - vm_compute. reflexivity.
  - vm_compute. reflexivity.
Defined.

(** X14. What [_clean_text] returns is tidy: word characters, spaces and the
    punctuation [.,!?;:-()] only, no whitespace at either end and no two
    spaces in a row; stripping it changes nothing. *)
Theorem clean_text_is_tidy :
  forall text : string,
    tidy (_clean_text text) = true
    /\ str_strip is_space (_clean_text text) = _clean_text text.
Proof.
  intros text. pose proof (clean_text_tidy text) as H. split; [done|].
  by apply strip_tidy.
Qed.

(** X15. What [_preprocess_text] returns is tidy as well, and holds no [!!],
    no [??] and no run of more than three dots. *)
Theorem preprocess_text_is_settled :
  forall text : string,
    tidy (_preprocess_text text) = true
    /\ runs_lt "!" 2 (_preprocess_text text) = true
    /\ runs_lt "?" 2 (_preprocess_text text) = true
    /\ runs_lt "." 4 (_preprocess_text text) = true.
Proof.
  intros text. pose proof (preprocess_settled text) as H. unfold settled in H.
  apply andb_true_iff in H as [H H3]. apply andb_true_iff in H as [H H2].
  apply andb_true_iff in H as [H H1]. done.
Qed.

(** X16. [_preprocess_text] leaves a text of that form as it is, so that
    preprocessing twice is preprocessing once. *)
Theorem preprocess_text_idempotent :
  (forall s : string, settled s = true -> _preprocess_text s = s)
  /\ forall text : string,
       _preprocess_text (_preprocess_text text) = _preprocess_text text.
Proof.
  split; [apply preprocess_fixed|].
  intros text. apply preprocess_fixed, preprocess_settled.
Qed.

(** X17. A text of whitespace only is cleaned and preprocessed to the empty
    string: in [analyze] the test of the stripped text is implied by the test
    of the preprocessed text. *)
Theorem blank_text_is_emptied :
  forall text : string,
    str_strip is_space text = "" ->
    _preprocess_text text = "" /\ _clean_text text = "".
Proof.
  intros text H. split; [by apply preprocess_blank|by apply clean_text_blank].
Qed.

Lemma blank_text_is_emptied_witness :
  _preprocess_text (String " " (String TAB (String LF ""))) = ""
  /\ _clean_text (String " " (String TAB (String LF ""))) = "".
Proof.
  refine (blank_text_is_emptied (String " " (String TAB (String LF ""))) _).
  vm_compute. reflexivity.
Defined.

(** X18. A title is never longer than 200 characters, holds kept characters
    only, does not begin with a space and holds no two spaces in a row,
    whether it comes from [_extract_title] or from
    [_extract_title_fallback]. *)
Theorem titles_are_short_and_clean :
  (forall title_sources : list TitleSource, title_ok (_extract_title title_sources))
  /\ forall html : string, title_ok (_extract_title_fallback html).
Proof. split; [apply extract_title_ok|apply extract_title_fallback_ok]. Qed.

(** X19. For a tidy content, as [_clean_text] returns it, the word count of
    the row is 0 when the content is empty and the number of its spaces plus
    one otherwise. *)
Theorem word_count_of_cleaned_text :
  forall text : string,
    let content := _clean_text text in
    word_count content = if truthy content then S (count_char " " content) else O.
Proof. intros text content. apply word_count_tidy, clean_text_tidy. Qed.

(** X20. The preview of a content is never longer than 303 characters, begins
    with the first 300 characters of the content, and is the content itself
    when that has 300 characters or less. *)
Theorem content_preview_bounds :
  forall content : string,
    (str_len (content_preview content) <= 303)%nat
    /\ str_take 300 (content_preview content) = str_take 300 content
    /\ ((str_len content <= 300)%nat -> content_preview content = content).
Proof. apply content_preview_spec. Qed.

(** X21. [extract_content]: the title is a title as above in every case; when
    neither [trafilatura] nor the parser raised, the content is tidy; when
    one of them raised, the content is the text of the fallback as it is and
    there are no links. *)
Theorem extract_content_shape :
  forall (chk : string -> bool) (list_of_set : list string -> list string)
         (lib : Parsed) (html url : string),
    let e := extract_content chk list_of_set lib html url in
    title_ok (e_title e)
    /\ (is_Some (trafilatura_extract lib) -> is_Some (soup lib) ->
        tidy (e_content e) = true)
    /\ (trafilatura_extract lib = None \/ soup lib = None ->
        e_content e = bs_text lib /\ e_links e = []).
Proof.
  intros chk los lib html url. unfold extract_content.
  destruct (trafilatura_extract lib) as [c|]; destruct (soup lib) as [[ts hrefs]|];
    cbn [e_title e_content e_links]; split_and!;
    auto using extract_title_ok, extract_title_fallback_ok.
  - intros _ _. apply clean_text_tidy.
  - by intros [?|?].
  - by intros _ [? ?].
  - by intros [? ?].
  - by intros [? ?].
Qed.

(** X22. On a content that [_clean_text] returned (what [analyze] gets for a
    page whose extraction did not fall back) [_preprocess_text] does no more
    than shorten the runs of [!], [?] and [.]: it finds no URL and no e-mail
    address in it, and nothing to replace by a space or to strip. *)
Theorem preprocess_of_cleaned_content :
  forall text : string,
    let content := _clean_text text in
    _preprocess_text content
    = sub dots "..." (sub questions "?" (sub bangs "!" content)).
Proof. intros text content. apply preprocess_tidy, clean_text_tidy. Qed.

(** * Further properties of the histories of a crawl *)

(** X23. No record yielded has a blank content: the content of each of them
    holds a character that is not whitespace. *)
Theorem yielded_content_is_not_blank :
  forall (chk : string -> bool) (list_of_set : list string -> list string)
         (World : Type) (session_get : World -> string -> World * Reply)
         (self0 : WebCrawler) (seed : string) (w : World) (n : nat),
    let st := steps chk list_of_set session_get n (crawl self0 seed w) in
    forall r, r ∈ yielded st ->
      str_strip is_space (r_content r) <> "" /\ r_content r <> "".
Proof.
  intros chk los World get self0 seed w n st r Hr.
  pose proof (blank_inv_steps chk los World get n self0 seed w) as H.
  fold st in H. unfold blank_inv in H. rewrite Forall_forall in H.
  specialize (H r Hr). apply truthy_true in H. split; [done|].
  intros E. rewrite E in H. by apply H.
Qed.

Lemma yielded_content_is_not_blank_witness :
  str_strip is_space "x page" <> "" /\ "x page" <> "".
Proof.
  refine (yielded_content_is_not_blank accept_all one_order unit web
            (__init__ 2 10 false) "http://a.com/" tt 12
            (mkRecord "http://a.com/x" "X" "x page") _).
  apply list_elem_of_In. vm_compute. right. left. reflexivity.
Defined.

(** X24. No URL with a fragment is ever requested: the URLs queued, fetched
    and yielded hold no [#]. *)
Theorem no_fragment_is_requested :
  forall (chk : string -> bool) (list_of_set : list string -> list string)
         (World : Type) (session_get : World -> string -> World * Reply)
         (self0 : WebCrawler) (seed : string) (w : World) (n : nat),
    let st := steps chk list_of_set session_get n (crawl self0 seed w) in
    (forall u d, (u, d) ∈ crawl_queue st -> str_contains "#" u = false)
    /\ (forall u d, (u, d) ∈ fetch_log st -> str_contains "#" u = false)
    /\ (forall r, r ∈ yielded st -> str_contains "#" (r_url r) = false).
Proof.
  intros chk los World get self0 seed w n st.
  destruct (hash_inv_steps chk los World get n self0 seed w) as (Hq & Hl & Hy).
  fold st in Hq, Hl, Hy. split_and!.
  - intros u d Hin. rewrite Forall_forall in Hq. apply (Hq _ Hin).
  - intros u d Hin. rewrite Forall_forall in Hl. apply (Hl _ Hin).
  - intros r Hin. rewrite Forall_forall in Hy. apply (Hy _ Hin).
Qed.

(** X25. The requests of a crawl are the calls of [fetch_page] for the URLs
    of its log, in that order, and nothing else: the network is in the state
    that these calls leave, and the records yielded are the pages that these
    calls returned, in that order. *)
Theorem yielded_are_the_fetched_pages :
  forall (chk : string -> bool) (list_of_set : list string -> list string)
         (World : Type) (session_get : World -> string -> World * Reply)
         (self0 : WebCrawler) (seed : string) (w : World) (n : nat),
    let st := steps chk list_of_set session_get n (crawl self0 seed w) in
    world st = replay chk list_of_set session_get w (fetch_log st).*1
    /\ yielded st = records chk list_of_set session_get w (fetch_log st).*1.
Proof. intros chk los World get self0 seed w n. apply replay_inv_steps. Qed.

(** X26. Depths are distances in links: every entry that is queued or fetched
    at a depth other than 0 is one level below a page that was fetched and
    yielded. *)
Theorem every_page_has_a_parent :
  forall (chk : string -> bool) (list_of_set : list string -> list string)
         (World : Type) (session_get : World -> string -> World * Reply)
         (self0 : WebCrawler) (seed : string) (w : World) (n : nat),
    let st := steps chk list_of_set session_get n (crawl self0 seed w) in
    forall u d, (u, d) ∈ crawl_queue st \/ (u, d) ∈ fetch_log st ->
      d = 0 \/ exists r, r ∈ yielded st /\ (r_url r, d - 1) ∈ fetch_log st.
Proof.
  intros chk los World get self0 seed w n st u d Hin.
  destruct (parent_inv_steps chk los World get n self0 seed w) as (Hq & Hl & _).
  fold st in Hq, Hl. rewrite Forall_forall in Hq. rewrite Forall_forall in Hl.
  destruct Hin as [Hin|Hin]; [apply (Hq _ Hin)|apply (Hl _ Hin)].
Qed.

Lemma every_page_has_a_parent_witness :
  1 = 0
  \/ exists r,
       r ∈ yielded (steps accept_all one_order web 5
                      (crawl (__init__ 2 10 false) "http://a.com/" tt))
       /\ (r_url r, 1 - 1)
          ∈ fetch_log (steps accept_all one_order web 5
                         (crawl (__init__ 2 10 false) "http://a.com/" tt)).
Proof.
  refine (every_page_has_a_parent accept_all one_order unit web
            (__init__ 2 10 false) "http://a.com/" tt 5 "http://a.com/x" 1 _).
  right. apply list_elem_of_In. vm_compute. right. left. reflexivity.
Defined.

(** X27. The first page fetched is the seed: when a crawl has fetched
    anything, the first call of [fetch_page] was for the normalized seed at
    depth 0. *)
Theorem first_fetch_is_the_seed :
  forall (chk : string -> bool) (list_of_set : list string -> list string)
         (World : Type) (session_get : World -> string -> World * Reply)
         (self0 : WebCrawler) (seed : string) (w : World) (n : nat),
    let st := steps chk list_of_set session_get n (crawl self0 seed w) in
    fetch_log st = []
    \/ exists s', normalize_url chk seed = Some s'
                  /\ head (fetch_log st) = Some (s', 0).
Proof.
  intros chk los World get self0 seed w n st.
  pose proof (seed_first_inv_steps chk los World get n self0 seed w) as H.
  fold st in H. unfold seed_first_inv in H.
  destruct (pc st); try (destruct H as [[? _]|?]; by auto).
  - left. by destruct H as (_ & ? & _).
  - by right.
Qed.

(** X28. The loop over the links of a page puts behind the queue, when
    nothing raises, exactly the entries of the next depth for the links that
    resolve and normalize to a URL that is not in [visited] and that
    [is_valid_url] accepts; what was queued before stays in front. *)
Theorem links_queued_exactly :
  forall (chk : string -> bool) (self0 : WebCrawler)
         (base_domain current_url : string) (depth : Z) (links : list string)
         (crawl_queue queue' : list (string * Z)),
    enqueue_links chk self0 base_domain current_url depth links crawl_queue
    = Some queue' ->
    exists news, queue' = crawl_queue ++ news
      /\ forall e, e ∈ news <->
           e.2 = depth + 1
           /\ exists link absolute_url,
                link ∈ links /\ urljoin chk current_url link = Some absolute_url
                /\ normalize_url chk absolute_url = Some e.1
                /\ (e.1 ∉ visited self0)
                /\ is_valid_url chk self0 e.1 base_domain = true.
Proof. intros chk self0 b cur d links q q'. apply enqueue_links_exact. Qed.

Lemma links_queued_exactly_witness :
  exists news,
    [("http://a.com/x", 1); ("http://a.com/y", 1); ("http://a.com/x", 1)] = [] ++ news
    /\ forall e, e ∈ news <->
         e.2 = 0 + 1
         /\ exists link absolute_url,
              link ∈ ["/x"; "/y#f"; "http://b.org/"; "/pic.JPG"; "x//"; "/"]
              /\ urljoin accept_all "http://a.com/" link = Some absolute_url
              /\ normalize_url accept_all absolute_url = Some e.1
              /\ (e.1 ∉ visited (mkCrawler 2 10 false {["http://a.com/"]}))
              /\ is_valid_url accept_all (mkCrawler 2 10 false {["http://a.com/"]})
                   e.1 "a.com" = true.
Proof.
  refine (links_queued_exactly accept_all (mkCrawler 2 10 false {["http://a.com/"]})
            "a.com" "http://a.com/" 0
            ["/x"; "/y#f"; "http://b.org/"; "/pic.JPG"; "x//"; "/"] []
            [("http://a.com/x", 1); ("http://a.com/y", 1); ("http://a.com/x", 1)] _).
  vm_compute. reflexivity.
Defined.
